(** * The sandboxed execution engine of code-mode-mcp

    A shallow embedding of the [Sandbox] class of the repository (the
    second class of [src/agent.ts]), of the IPC bridge [callMCPTool] that
    [generate-api] writes into [generated-api/client.ts], and of the
    bootstrap script [runner.mjs] that [Sandbox.initialize] writes into the
    workspace.

    The parts of the world the code only talks to are modelled as follows.
    - JavaScript values that cross the IPC channel are a small JSON-like
      datatype ([jsval]); numbers are integers.
    - The file system is a finite map from paths (lists of components) to
      nodes; the operations of [fs/promises] the code uses are functions on
      that map which fail the way Node does for the state they are run in.
    - The worker process is seen through the events the parent receives
      from it; the user code it runs is a tree of the actions that are
      visible from outside (printing, tool calls, throwing, exiting,
      looping forever).
    - Wall-clock time is a budget of worker steps: the timer fires when the
      budget is used up.

    Around the engine, the development also embeds the request handlers
    of the MCP server ([server.ts]), the helpers of [generate-api] that
    name the stubs and write their index, the window the built-in [fetch]
    tool cuts out of a body, the dispatch of the built-in file system
    tools, and the executor [CodeModeSandbox] the agent uses. *)

From Stdlib Require Import Ascii String.
From stdpp Require Import gmap strings list fin_maps pretty.

Set Warnings "-register-all".

Open Scope string_scope.
Open Scope Z_scope.

(** ** JavaScript values *)

Module Js.

Inductive jsval :=
| JUndefined
| JNull
| JBool (b : bool)
| JNum (n : Z)
| JStr (s : string)
| JArr (items : list jsval)
| JObj (fields : list (string * jsval)).

(** What a [throw] or a rejected promise carries, as far as the code looks
    at it: [e.message] when it is defined, [String(e)], and what
    [console.error(e)] prints (for an [Error], its stack). *)
Record thrown := {
  thr_message : option string;
  thr_code : option string;
  thr_string : string;
  thr_inspect : string
}.

(** [new Error(m)]; [frames] is the text of the stack frames V8 appends. *)
Definition new_Error (m frames : string) : thrown :=
  {| thr_message := Some m;
     thr_code := None;
     thr_string := "Error: " ++ m;
     thr_inspect := "Error: " ++ m ++ frames |}.

(** [new TypeError(m)], thrown by the runtime itself. *)
Definition new_TypeError (m frames : string) : thrown :=
  {| thr_message := Some m;
     thr_code := None;
     thr_string := "TypeError: " ++ m;
     thr_inspect := "TypeError: " ++ m ++ frames |}.

(** Results of code that may throw: a value, a thrown value (for an
    [async] function, a rejection), or a promise that is never settled. *)
Inductive res (A : Type) :=
| Ok (a : A)
| Throw (e : thrown)
| Pending.
Arguments Ok {A} a.
Arguments Throw {A} e.
Arguments Pending {A}.

#[global] Instance res_ret : MRet res := fun A a => Ok a.
#[global] Instance res_bind : MBind res := fun A B k m =>
  match m with
  | Ok a => k a
  | Throw e => Throw e
  | Pending => Pending
  end.

(** [Boolean(v)] *)
Definition truthy (v : jsval) : bool :=
  match v with
  | JUndefined | JNull => false
  | JBool b => b
  | JNum n => negb (n =? 0)
  | JStr s => negb (String.eqb s "")
  | JArr _ | JObj _ => true
  end.

(** [v === s] for a string literal [s] *)
Definition is_str (v : jsval) (s : string) : bool :=
  match v with
  | JStr s' => String.eqb s' s
  | _ => false
  end.

Fixpoint assoc (k : string) (fields : list (string * jsval)) : option jsval :=
  match fields with
  | [] => None
  | (k', v) :: rest => if String.eqb k' k then Some v else assoc k rest
  end.

(** [v.k] on a value that is not [null] or [undefined]: own fields of an
    object, [undefined] otherwise (none of the names the code reads is a
    built-in property of a primitive or of an array). *)
Definition field (v : jsval) (k : string) : jsval :=
  match v with
  | JObj fields => default JUndefined (assoc k fields)
  | _ => JUndefined
  end.

(** [v.k]: a [TypeError] on [null] and [undefined]. *)
Definition prop (frames : string) (v : jsval) (k : string) : res jsval :=
  match v with
  | JUndefined =>
      Throw (new_TypeError
        ("Cannot read properties of undefined (reading '" ++ k ++ "')") frames)
  | JNull =>
      Throw (new_TypeError
        ("Cannot read properties of null (reading '" ++ k ++ "')") frames)
  | _ => Ok (field v k)
  end.

(** [k in v] for an object [v] *)
Definition has_field (v : jsval) (k : string) : bool :=
  match v with
  | JObj fields => bool_decide (is_Some (assoc k fields))
  | _ => false
  end.

(** [typeof v === 'object'] *)
Definition typeof_object (v : jsval) : bool :=
  match v with
  | JNull | JArr _ | JObj _ => true
  | _ => false
  end.

Definition join (sep : string) (parts : list string) : string :=
  String.concat sep parts.

(** [String(v)], also what a template literal does to [v]. *)
Fixpoint to_string (v : jsval) : string :=
  match v with
  | JUndefined => "undefined"
  | JNull => "null"
  | JBool b => if b then "true" else "false"
  | JNum n => pretty n
  | JStr s => s
  | JArr items =>
      join "," (map (fun x =>
        match x with
        | JUndefined | JNull => ""
        | _ => to_string x
        end) items)
  | JObj _ => "[object Object]"
  end.

(** [items.join(sep)]: [null] and [undefined] elements give the empty
    string. *)
Definition array_join (sep : string) (items : list jsval) : string :=
  join sep (map (fun x =>
    match x with
    | JUndefined | JNull => ""
    | _ => to_string x
    end) items).

(** [e?.message ?? String(e)] *)
Definition message_or_string (e : thrown) : string :=
  default (thr_string e) (thr_message e).

(** *** [JSON.stringify] *)

Definition dquote : string := String (ascii_of_nat 34) EmptyString.
Definition backslash : string := String (ascii_of_nat 92) EmptyString.

Definition hex_digit (n : nat) : ascii :=
  match n with
  | 0%nat => "0" | 1%nat => "1" | 2%nat => "2" | 3%nat => "3"
  | 4%nat => "4" | 5%nat => "5" | 6%nat => "6" | 7%nat => "7"
  | 8%nat => "8" | 9%nat => "9" | 10%nat => "a" | 11%nat => "b"
  | 12%nat => "c" | 13%nat => "d" | 14%nat => "e" | _ => "f"
  end%char.

(** Does [JSON.stringify] write the character as it is? *)
Definition plain_char (c : ascii) : bool :=
  let n := nat_of_ascii c in
  negb (Nat.ltb n 32) && negb (Nat.eqb n 34) && negb (Nat.eqb n 92).

Definition escape_char (c : ascii) : string :=
  let n := nat_of_ascii c in
  if Nat.eqb n 34 then backslash ++ dquote
  else if Nat.eqb n 92 then backslash ++ backslash
  else if Nat.eqb n 8 then backslash ++ "b"
  else if Nat.eqb n 12 then backslash ++ "f"
  else if Nat.eqb n 10 then backslash ++ "n"
  else if Nat.eqb n 13 then backslash ++ "r"
  else if Nat.eqb n 9 then backslash ++ "t"
  else if Nat.ltb n 32 then
    backslash ++ "u00" ++
    String (hex_digit (Nat.div n 16))
      (String (hex_digit (Nat.modulo n 16)) EmptyString)
  else String c EmptyString.

Fixpoint escape (s : string) : string :=
  match s with
  | EmptyString => EmptyString
  | String c rest => escape_char c ++ escape rest
  end.

Definition quote (s : string) : string := dquote ++ escape s ++ dquote.

(** [JSON.stringify(v)]; [None] is [undefined]. *)
Fixpoint stringify (v : jsval) : option string :=
  match v with
  | JUndefined => None
  | JNull => Some "null"
  | JBool b => Some (if b then "true" else "false")
  | JNum n => Some (pretty n)
  | JStr s => Some (quote s)
  | JArr items =>
      Some ("[" ++ join "," (map (fun x => default "null" (stringify x)) items)
                ++ "]")
  | JObj fields =>
      Some ("{" ++ join ","
                     (omap (fun kv =>
                        match stringify (snd kv) with
                        | Some s => Some (quote (fst kv) ++ ":" ++ s)
                        | None => None
                        end) fields)
                ++ "}")
  end.

(** [`${JSON.stringify(v)}`] *)
Definition stringify_text (v : jsval) : string :=
  default "undefined" (stringify v).

(** The numbers [String] and [JSON.stringify] write digit by digit are the
    integers a double holds exactly, those below 2^53 in absolute value;
    a larger one is rounded and, from 10^21 on, written with an exponent.
    [exact v]: every number in [v] is of the first kind. What is said
    below of the text of a value that holds numbers is said of such
    values. *)
Definition exact_number (n : Z) : bool := Z.abs n <? 2 ^ 53.

Fixpoint exact (v : jsval) : bool :=
  match v with
  | JNum n => exact_number n
  | JArr items => forallb exact items
  | JObj fields => forallb (fun kv => exact (snd kv)) fields
  | _ => true
  end.

End Js.
Import Js.

(** ** The worker runner: the event handlers of [Sandbox.runWithTimeout] *)

Module Runner.

(** [{ success: boolean; output?: string; error?: string }] *)
Record exec_result := {
  success : bool;
  output : option string;
  error : option string
}.

(** What [await client.callTool({ name, arguments })] does. *)
Inductive call_outcome :=
| Resolves (v : jsval)
| Rejects (e : thrown).

(** A connected MCP client, seen through [callTool]: tool name and
    arguments to outcome. *)
Abbreviation client := (jsval -> jsval -> call_outcome).

(** [Map.get(key)] on a [Map<string, Client>] *)
Definition get_client (clients : gmap string client) (key : jsval)
  : option client :=
  match key with
  | JStr name => clients !! name
  | _ => None
  end.

(** The events the handlers registered in [runWithTimeout] are called for. *)
Inductive proc_event :=
| StdoutData (chunk : string)        (* proc.stdout.on("data") *)
| StderrData (chunk : string)        (* proc.stderr.on("data") *)
| TimerFire                          (* the timer of [setTimeout] is due *)
| IpcMessage (msg : jsval)           (* proc.on("message") *)
| ProcExit (code : option Z)         (* proc.on("exit"); [None] is [null] *)
| ProcError (err : thrown).          (* proc.on("error") *)

(** The variables the closures of [runWithTimeout] share, the promise,
    and what the runner did to the outside. *)
Record runner := {
  stdout : string;
  stderr : string;
  timer : option Z;                  (* the armed timer and its delay *)
  killed : bool;                     (* [proc.kill()] was called *)
  settled : option exec_result;      (* the promise of [runWithTimeout] *)
  sent : list jsval;                 (* [proc.send(resp)], oldest first *)
  calls : list (string * jsval * jsval);  (* [callTool] calls, oldest first *)
  crashed : option thrown            (* an exception left a handler *)
}.

(** [resolve(v)]: only the first call settles a promise. *)
Definition resolve (v : exec_result) (r : runner) : runner :=
  match settled r with
  | Some _ => r
  | None =>
      {| stdout := stdout r; stderr := stderr r; timer := timer r;
         killed := killed r; settled := Some v; sent := sent r;
         calls := calls r; crashed := crashed r |}
  end.

(** [clearTimeout(timer)] *)
Definition clearTimeout (r : runner) : runner :=
  {| stdout := stdout r; stderr := stderr r; timer := None;
     killed := killed r; settled := settled r; sent := sent r;
     calls := calls r; crashed := crashed r |}.

(** A timer that has fired is no longer pending. *)
Definition expire (r : runner) : runner := clearTimeout r.

(** [proc.kill()] *)
Definition kill (r : runner) : runner :=
  {| stdout := stdout r; stderr := stderr r; timer := timer r;
     killed := true; settled := settled r; sent := sent r;
     calls := calls r; crashed := crashed r |}.

(** [s || fallback] on strings *)
Definition or_else (s fallback : string) : string :=
  if String.eqb s "" then fallback else s.

(** [`${code}`] for the code of an exit event *)
Definition code_text (code : option Z) : string :=
  match code with
  | Some n => pretty n
  | None => "null"
  end.

Definition no_output : string := "Code executed successfully (no output)".

Definition timeout_result : exec_result :=
  {| success := false; output := None;
     error := Some "Execution timeout (10s)" |}.

(** The value the exit handler passes to [resolve]. *)
Definition exit_result (code : option Z) (out err : string) : exec_result :=
  match code with
  | Some 0 =>
      {| success := true; output := Some (or_else out no_output);
         error := None |}
  | _ =>
      {| success := false; output := None;
         error := Some (or_else err ("Exit code: " ++ code_text code)) |}
  end.

(** The value the error handler passes to [resolve]. *)
Definition error_result (err : thrown) : exec_result :=
  {| success := false; output := None; error := thr_message err |}.

(** *** The message handler *)

Definition ipc_error (id : jsval) (message : string) : jsval :=
  JObj [("type", JStr "error"); ("id", id); ("error", JStr message)].

Definition ipc_result (id data : jsval) : jsval :=
  JObj [("type", JStr "result"); ("id", id); ("data", data)].

(** What one run of the message handler did: the response it sent, and the
    [callTool] call it made. *)
Record handled := {
  reply : option jsval;
  called : option (string * jsval * jsval)
}.

Definition ignored : handled := {| reply := None; called := None |}.

(** The listener on [message]. The [callTool] it awaits is taken to settle
    before the next event of the worker reaches the parent: the worker
    waits for the response before it goes on. *)
Definition on_message (frames : string) (clients : gmap string client)
    (msg : jsval) : res handled :=
  if negb (truthy msg) then mret ignored else
  ty ← prop frames msg "type";
  if negb (is_str ty "callMCPTool") then mret ignored else
  id ← prop frames msg "id";
  serverName ← prop frames msg "serverName";
  toolName ← prop frames msg "toolName";
  args ← prop frames msg "arguments";
  match get_client clients serverName with
  | None =>
      mret {| reply := Some (ipc_error id
                ("MCP server not connected: " ++ to_string serverName));
              called := None |}
  | Some c =>
      let called := Some (to_string serverName, toolName, args) in
      match c toolName args with
      | Resolves toolResult =>
          mret {| reply := Some (ipc_result id toolResult); called := called |}
      | Rejects e =>
          mret {| reply := Some (ipc_error id (message_or_string e));
                  called := called |}
      end
  end.

Definition record_handled (h : handled) (r : runner) : runner :=
  {| stdout := stdout r; stderr := stderr r; timer := timer r;
     killed := killed r; settled := settled r;
     sent := (sent r ++ option_list (reply h))%list;
     calls := (calls r ++ option_list (called h))%list;
     crashed := crashed r |}.

Definition record_crash (e : thrown) (r : runner) : runner :=
  {| stdout := stdout r; stderr := stderr r; timer := timer r;
     killed := killed r; settled := settled r; sent := sent r;
     calls := calls r; crashed := Some e |}.

(** *** One event *)

Definition step (frames : string) (clients : gmap string client)
    (r : runner) (ev : proc_event) : runner :=
  match ev with
  | StdoutData chunk =>
      {| stdout := stdout r ++ chunk; stderr := stderr r; timer := timer r;
         killed := killed r; settled := settled r; sent := sent r;
         calls := calls r; crashed := crashed r |}
  | StderrData chunk =>
      {| stdout := stdout r; stderr := stderr r ++ chunk; timer := timer r;
         killed := killed r; settled := settled r; sent := sent r;
         calls := calls r; crashed := crashed r |}
  | TimerFire =>
      match timer r with
      | Some _ => resolve timeout_result (kill (expire r))
      | None => r
      end
  | IpcMessage msg =>
      match on_message frames clients msg with
      | Ok h => record_handled h r
      | Throw e => record_crash e r
      | Pending => r
      end
  | ProcExit code =>
      resolve (exit_result code (stdout r) (stderr r)) (clearTimeout r)
  | ProcError err =>
      resolve (error_result err) (clearTimeout r)
  end.

(** The state [runWithTimeout] sets up before any event: empty buffers and
    the timer armed with the delay it was given. *)
Definition start (timeout : Z) : runner :=
  {| stdout := ""; stderr := ""; timer := Some timeout; killed := false;
     settled := None; sent := []; calls := []; crashed := None |}.

Definition run (frames : string) (clients : gmap string client)
    (r : runner) (events : list proc_event) : runner :=
  foldl (step frames clients) r events.

(** Does the handler of the event call [resolve]? *)
Definition settles (ev : proc_event) : bool :=
  match ev with
  | TimerFire | ProcExit _ | ProcError _ => true
  | _ => false
  end.

(** The value the handler of a settling event passes to [resolve], in the
    state the event finds. *)
Definition resolution (r : runner) (ev : proc_event) : option exec_result :=
  match ev with
  | TimerFire => Some timeout_result
  | ProcExit code => Some (exit_result code (stdout r) (stderr r))
  | ProcError err => Some (error_result err)
  | _ => None
  end.

(** The timeout message as the specification words it, for a delay of
    [timeoutMs]: ["Execution timeout (<timeoutMs/1000>s)"]. *)
Definition spec_timeout_message (timeoutMs : Z) : string :=
  "Execution timeout (" ++ pretty (timeoutMs / 1000) ++ "s)".

End Runner.
Import Runner.

(** ** The worker: [callMCPTool] of [client.ts], [runner.mjs], user code *)

Module Worker.

Definition nl : string := String (ascii_of_nat 10) EmptyString.

(** What the IPC channel does to a value: it is serialized as JSON and
    parsed again. *)
Fixpoint wire (v : jsval) : jsval :=
  match v with
  | JArr items =>
      JArr (map (fun x =>
        match x with
        | JUndefined => JNull
        | _ => wire x
        end) items)
  | JObj fields =>
      JObj (omap (fun kv =>
        match snd kv with
        | JUndefined => None
        | _ => Some (fst kv, wire (snd kv))
        end) fields)
  | _ => v
  end.

(** The request [callMCPTool] sends to the parent. *)
Definition request (id serverName toolName : string) (input : jsval) : jsval :=
  JObj [("type", JStr "callMCPTool"); ("id", JStr id);
        ("serverName", JStr serverName); ("toolName", JStr toolName);
        ("arguments", input)].

(** How the promise of [callMCPTool] is settled. *)
Inductive settlement :=
| Resolved (v : jsval)
| Rejected (e : thrown).

(** [content.filter((item) => item.type === 'text')] *)
Fixpoint filter_text (frames : string) (items : list jsval)
  : res (list jsval) :=
  match items with
  | [] => mret []
  | item :: rest =>
      ty ← prop frames item "type";
      kept ← filter_text frames rest;
      mret (if is_str ty "text" then item :: kept else kept)
  end.

(** [new Error(v)] for a value [v] read from a message *)
Definition error_of (v : jsval) (frames : string) : thrown :=
  new_Error (match v with JUndefined => "" | _ => to_string v end) frames.

(** [messageHandler] of [callMCPTool], for the request [id]: [Ok None] when
    the promise stays as it was. *)
Definition messageHandler (frames : string) (id : string) (msg : jsval)
  : res (option settlement) :=
  if negb (truthy msg) then mret None else
  mid ← prop frames msg "id";
  if negb (is_str mid id) then mret None else
  ty ← prop frames msg "type";
  if is_str ty "result" then
    response ← prop frames msg "data";
    if truthy response && typeof_object response
       && has_field response "content" then
      isError ← prop frames response "isError";
      content ← prop frames response "content";
      if truthy isError then
        mret (Some (Rejected
          (new_Error ("Tool call failed: " ++ stringify_text content) frames)))
      else
        match content with
        | JArr items =>
            texts ← filter_text frames items;
            mret (Some (Resolved (JStr
              (array_join nl (map (fun item => field item "text") texts)))))
        | JUndefined =>
            Throw (new_TypeError
              "Cannot read properties of undefined (reading 'filter')" frames)
        | JNull =>
            Throw (new_TypeError
              "Cannot read properties of null (reading 'filter')" frames)
        | _ =>
            Throw (new_TypeError
              "response.content.filter is not a function" frames)
        end
    else
      mret (Some (Resolved
        (match stringify response with
         | Some s => JStr s
         | None => JUndefined
         end)))
  else if is_str ty "error" then
    err ← prop frames msg "error";
    mret (Some (Rejected (error_of err frames)))
  else mret None.

(** User code, as far as it can be seen from outside the worker. The
    request id of a tool call is the one [callMCPTool] draws from the clock
    and the random generator. *)
Inductive user_code :=
| Print (text : string) (k : user_code)       (* console.log(text) *)
| PrintErr (text : string) (k : user_code)    (* console.error(text) *)
| Call (id serverName toolName : string) (input : jsval)
       (k : jsval -> user_code)               (* await callMCPTool(...) *)
       (handler : option (thrown -> user_code))  (* an enclosing try/catch *)
| SendRaw (msg : jsval) (k : user_code)       (* process.send(msg) *)
| DropSend (k : user_code)                    (* process.send = undefined *)
| Raise (e : thrown)                          (* an uncaught throw *)
| ExitWith (code : Z)                         (* process.exit(code) *)
| Finish                                      (* the module body ends *)
| Forever                                     (* while (true) {} *)
| Survive.      (* process.on('SIGTERM', () => {}); while (true) {} *)

(** [runner.mjs] when the import throws: [console.error(err)], exit 1. *)
Definition import_failed (e : thrown) : list proc_event :=
  [StderrData (thr_inspect e ++ nl); ProcExit (Some 1)].

(** The timer of the parent fires and its [proc.kill()] sends [SIGTERM],
    which ends a worker that has no handler for it; the exit event of a
    process ended by a signal has the code [null]. *)
Definition timed_out : list proc_event := [TimerFire; ProcExit None].

(** The timer fires on a worker that has a handler for [SIGTERM]: the
    signal does not end it, and no exit event follows. *)
Definition outlived : list proc_event := [TimerFire].

(** The exit status the parent sees after [process.exit(code)]: the low
    eight bits of the code. *)
Definition exit_status (code : Z) : Z := code mod 256.

(** What one step of the user code lets the parent see, and how the code
    goes on. *)
Inductive progress :=
| Continue (events : list proc_event) (has_send : bool) (next : user_code)
| Stop (events : list proc_event).

(** One step of a worker that runs user code under [runner.mjs]. A tool
    call goes through [callMCPTool]: the request is sent, the message
    handler of the parent answers it, and [messageHandler] settles the
    promise the user code awaits. [has_send] tells whether [process.send]
    is still there. An exception that escapes [messageHandler] is uncaught
    in the worker: Node prints it and exits with code 1, which the parent
    sees as it sees a failed import. What the worker has written when it
    exits is taken to have reached the parent when the exit event does. *)
Definition worker_step (frames : string) (clients : gmap string client)
    (has_send : bool) (p : user_code) : progress :=
  match p with
  | Print text k => Continue [StdoutData (text ++ nl)] has_send k
  | PrintErr text k => Continue [StderrData (text ++ nl)] has_send k
  | Call id serverName toolName input k handler =>
      if has_send then
        let req := wire (request id serverName toolName input) in
        match on_message frames clients req with
        | Ok {| reply := Some resp |} =>
            match messageHandler frames id (wire resp) with
            | Ok (Some (Resolved v)) => Continue [IpcMessage req] has_send (k v)
            | Ok (Some (Rejected e)) =>
                match handler with
                | Some h => Continue [IpcMessage req] has_send (h e)
                | None => Stop (IpcMessage req :: import_failed e)
                end
            | Ok None | Pending => Stop (IpcMessage req :: timed_out)
            | Throw e => Stop (IpcMessage req :: import_failed e)
            end
        | _ => Stop (IpcMessage req :: timed_out)
        end
      else
        let e := new_Error
                   "IPC channel not available: process.send is undefined"
                   frames in
        match handler with
        | Some h => Continue [] has_send (h e)
        | None => Stop (import_failed e)
        end
  | SendRaw msg k =>
      if has_send then Continue [IpcMessage (wire msg)] has_send k
      else Stop (import_failed
                   (new_TypeError "process.send is not a function" frames))
  | DropSend k => Continue [] false k
  | Raise e => Stop (import_failed e)
  | ExitWith code => Stop [ProcExit (Some (exit_status code))]
  | Finish => Stop [ProcExit (Some 0)]
  | Forever => Stop timed_out
  | Survive => Stop outlived
  end.

(** The events the parent gets from a worker that runs [p], with the
    timer firing after [budget] steps. *)
Fixpoint worker_events (frames : string) (clients : gmap string client)
    (budget : nat) (has_send : bool) (p : user_code) : list proc_event :=
  match budget with
  | O => timed_out
  | S budget' =>
      match worker_step frames clients has_send p with
      | Continue events has_send' next =>
          (events ++ worker_events frames clients budget' has_send' next)%list
      | Stop events => events
      end
  end.

(** Where the user code is after [n] steps, and the events up to there;
    [None] when the worker has stopped before. *)
Fixpoint advance (frames : string) (clients : gmap string client)
    (n : nat) (has_send : bool) (p : user_code)
  : option (list proc_event * bool * user_code) :=
  match n with
  | O => Some ([], has_send, p)
  | S n' =>
      match worker_step frames clients has_send p with
      | Continue events has_send' next =>
          match advance frames clients n' has_send' next with
          | Some (later, has_send'', p') =>
              Some ((events ++ later)%list, has_send'', p')
          | None => None
          end
      | Stop _ => None
      end
  end.

End Worker.
Import Worker.

(** ** The file system, as [fs/promises] shows it *)

Module Fs.

(** A path is the list of its components, from the root. The disk holds
    paths as the system resolves them: a symbolic link is looked through
    where it ends a path, and the directories on the way to a path are
    taken not to be links. *)
Abbreviation path := (list string).

Inductive node :=
| File (content : string)
| Dir
| Symlink (target : path).

(** The calls made to the outside, oldest first. *)
Inductive fs_op :=
| OpMkdir (p : path)
| OpStat (p : path)
| OpLstat (p : path)
| OpSymlink (target link : path) (type : string)
| OpCp (src dst : path)
| OpWriteFile (p : path) (content : string)
| OpUnlink (p : path)
| OpRm (p : path)
| OpFork (script : path) (specifier : string)
| OpWarn (text : string).

(** What the platform does to link creation and to copying when the file
    system state would allow them: the error code it refuses with. *)
Record platform := {
  win32 : bool;
  link_fault : option string;
  copy_fault : option string
}.

Record world := {
  disk : gmap path node;
  ops : list fs_op
}.

(** Code that runs against the world and may throw or never settle. *)
Definition io (A : Type) : Type := world -> res A * world.

#[global] Instance io_ret : MRet io := fun A a w => (Ok a, w).
#[global] Instance io_bind : MBind io := fun A B k m w =>
  match m w with
  | (Ok a, w') => k a w'
  | (Throw e, w') => (Throw e, w')
  | (Pending, w') => (Pending, w')
  end.

(** [try { m } catch (e) { h e }] *)
Definition try_catch {A} (m : io A) (h : thrown -> io A) : io A := fun w =>
  match m w with
  | (Throw e, w') => h e w'
  | other => other
  end.

(** [try { m } finally { f }]: [f] runs when [m] has returned or thrown. *)
Definition finally {A} (m : io A) (f : io unit) : io A := fun w =>
  match m w with
  | (Pending, w') => (Pending, w')
  | (r, w') =>
      match f w' with
      | (Ok _, w'') => (r, w'')
      | (Throw e, w'') => (Throw e, w'')
      | (Pending, w'') => (Pending, w'')
      end
  end.

(** [p.catch(() => {})] *)
Definition catch_ignore (m : io unit) : io unit :=
  try_catch m (fun _ => mret tt).

(** The world after one more call. *)
Definition logged (op : fs_op) (w : world) : world :=
  {| disk := disk w; ops := (ops w ++ [op])%list |}.

Definition log (op : fs_op) : io unit := fun w => (Ok tt, logged op w).

Definition get_disk : io (gmap path node) := fun w => (Ok (disk w), w).

Definition put_disk (d : gmap path node) : io unit := fun w =>
  (Ok tt, {| disk := d; ops := ops w |}).

Definition throw {A} (e : thrown) : io A := fun w => (Throw e, w).

Definition render (p : path) : string := "/" ++ join "/" p.

Definition describe (code : string) : string :=
  if String.eqb code "ENOENT" then "no such file or directory"
  else if String.eqb code "EEXIST" then "file already exists"
  else if String.eqb code "EISDIR" then "illegal operation on a directory"
  else if String.eqb code "ENOTDIR" then "not a directory"
  else if String.eqb code "EPERM" then "operation not permitted"
  else if String.eqb code "EACCES" then "permission denied"
  else if String.eqb code "ENOSYS" then "function not implemented"
  else "unknown error".

(** The error Node builds for a failed system call. *)
Definition system_error (code message : string) : thrown :=
  {| thr_message := Some message; thr_code := Some code;
     thr_string := "Error: " ++ message;
     thr_inspect := "Error: " ++ message |}.

Definition fs_error (code syscall : string) (p : path) : thrown :=
  system_error code
    (code ++ ": " ++ describe code ++ ", " ++ syscall ++ " '" ++ render p ++ "'").

Definition dirname (p : path) : path := removelast p.
Definition basename (p : path) : string := List.last p "".

(** The node a path leads to, following a symbolic link at its end. *)
Definition lookup_follow (d : gmap path node) (p : path) : option node :=
  match d !! p with
  | Some (Symlink t) => d !! t
  | other => other
  end.

(** Is there a directory at [p]? The root always is one. *)
Definition dir_at (d : gmap path node) (p : path) : bool :=
  match p with
  | [] => true
  | _ => match lookup_follow d p with
         | Some Dir => true
         | _ => false
         end
  end.

(** Where a path cannot be walked: going down from [base] through the
    components [rest], the first place that holds no directory gives the
    code of the error, [ENOTDIR] when a file is there and [ENOENT] when
    nothing is. *)
Fixpoint walk (d : gmap path node) (base : path) (rest : list string)
  : option string :=
  match rest with
  | [] => None
  | c :: rest' =>
      let q := (base ++ [c])%list in
      match lookup_follow d q with
      | Some Dir => walk d q rest'
      | Some (File _) => Some "ENOTDIR"
      | _ => Some "ENOENT"
      end
  end.

(** The code of the error for a path that is not there, or whose parent
    is no directory: that of the first place on the way to it that cannot
    be passed, and [ENOENT] when the way is clear. *)
Definition lookup_fault (d : gmap path node) (p : path) : string :=
  default "ENOENT" (walk d [] (dirname p)).

(** [fs.mkdir(p, { recursive: true })], component by component. *)
Fixpoint mkdir_from (whole base : path) (rest : list string)
    (d : gmap path node) : res (gmap path node) :=
  match rest with
  | [] => Ok d
  | c :: rest' =>
      let q := (base ++ [c])%list in
      match d !! q with
      | None => mkdir_from whole q rest' (<[q := Dir]> d)
      | Some (File _) =>
          Throw (fs_error
                   (match rest' with [] => "EEXIST" | _ => "ENOTDIR" end)
                   "mkdir" whole)
      | Some _ => mkdir_from whole q rest' d
      end
  end.

Definition mkdir_p (p : path) : io unit :=
  log (OpMkdir p);;
  d ← get_disk;
  match mkdir_from p [] p d with
  | Ok d' => put_disk d'
  | Throw e => throw e
  | Pending => mret tt
  end.

(** [fs.stat(p)]: follows a symbolic link. *)
Definition stat (p : path) : io node :=
  log (OpStat p);;
  d ← get_disk;
  match lookup_follow d p with
  | Some n => mret n
  | None => throw (fs_error (lookup_fault d p) "stat" p)
  end.

(** [fs.lstat(p)]: the node itself. *)
Definition lstat (p : path) : io node :=
  log (OpLstat p);;
  d ← get_disk;
  match d !! p with
  | Some n => mret n
  | None => throw (fs_error (lookup_fault d p) "lstat" p)
  end.

(** [fs.symlink(target, link, type)] *)
Definition symlink (pf : platform) (target link : path) (type : string)
  : io unit :=
  log (OpSymlink target link type);;
  d ← get_disk;
  match d !! link with
  | Some _ => throw (fs_error "EEXIST" "symlink" link)
  | None =>
      if negb (dir_at d (dirname link)) then
        throw (fs_error (lookup_fault d link) "symlink" link)
      else
        match link_fault pf with
        | Some code => throw (fs_error code "symlink" link)
        | None => put_disk (<[link := Symlink target]> d)
        end
  end.

Fixpoint strip_prefix (pre p : path) : option path :=
  match pre, p with
  | [], _ => Some p
  | a :: pre', b :: p' =>
      if String.eqb a b then strip_prefix pre' p' else None
  | _ :: _, [] => None
  end.

(** The tree under [src], put under [dst] over what is there. *)
Definition copy_tree (src dst : path) (d : gmap path node)
  : gmap path node :=
  map_fold (fun k n acc =>
              match strip_prefix src k with
              | Some q => <[(dst ++ q)%list := n]> acc
              | None => acc
              end) d d.

(** [fs.cp(src, dst, { recursive: true })] *)
Definition cp_r (pf : platform) (src dst : path) : io unit :=
  log (OpCp src dst);;
  d ← get_disk;
  match d !! src with
  | None => throw (fs_error (lookup_fault d src) "cp" src)
  | Some _ =>
      match copy_fault pf with
      | Some code => throw (fs_error code "cp" dst)
      | None => put_disk (copy_tree src dst d)
      end
  end.

(** [fs.writeFile(p, content)] (a symbolic link at [p] would be followed;
    none of the paths the sandbox writes is one). *)
Definition writeFile (p : path) (content : string) : io unit :=
  log (OpWriteFile p content);;
  d ← get_disk;
  if negb (dir_at d (dirname p)) then
    throw (fs_error (lookup_fault d p) "open" p)
  else
    match d !! p with
    | Some Dir => throw (fs_error "EISDIR" "open" p)
    | _ => put_disk (<[p := File content]> d)
    end.

(** [fs.unlink(p)] *)
Definition unlink (p : path) : io unit :=
  log (OpUnlink p);;
  d ← get_disk;
  match d !! p with
  | None => throw (fs_error (lookup_fault d p) "unlink" p)
  | Some Dir => throw (fs_error "EISDIR" "unlink" p)
  | Some _ => put_disk (delete p d)
  end.

(** [fs.rm(p, { recursive: true, force: true })]: [p] and all below it;
    nothing to remove is no error. *)
Definition rm_rf (p : path) : io unit :=
  log (OpRm p);;
  d ← get_disk;
  put_disk (filter (fun kv => ¬ p `prefix_of` kv.1) d).

End Fs.
Import Fs.

(** ** The class [Sandbox] *)

Module Sandbox.

Record sandbox := {
  mcpClients : gmap string client;
  tempDir : path
}.

(** The constructor: a directory of its own for every instance, named
    after the process id, the clock and a random suffix. *)
Definition new_sandbox (clients : gmap string client) (cwd : path)
    (pid now : Z) (rand : string) : sandbox :=
  let uniq := pretty pid ++ "-" ++ pretty now ++ "-" ++ rand in
  {| mcpClients := clients;
     tempDir := (cwd ++ [".sandbox-temp"; uniq])%list |}.

(** What the host gives that the code does not decide. *)
Record host := {
  frames : string;                   (* the stack text V8 adds to an error *)
  semantics : string -> user_code;   (* what a source text does when run *)
  steps_within : Z -> nat            (* worker steps that fit in a delay *)
}.

Inductive fork_result :=
| Spawned
| ForkThrows (e : thrown)            (* [fork] itself throws *)
| SpawnFails (code message : string). (* the child emits an error event *)

(** What one call of [executeCode] draws from its surroundings. The
    worker is a Node process of its own with the rights of the parent, and
    the servers the handler calls for it act on the same disk:
    [worker_writes] is what they have made of the disk, as it was at the
    fork, when the promise of [runWithTimeout] is settled. What a worker
    that is still running then writes later comes after the call. *)
Record call_env := {
  now : Z;                           (* Date.now() *)
  rand : string;                     (* Math.random().toString(36).slice(2, 8) *)
  fork_outcome : fork_result;
  worker_writes : gmap path node -> gmap path node
}.

Definition runnerCode : string :=
  "// ESM runner: dynamically import target relative to this file" ++ nl ++
  "const spec = process.argv[2];" ++ nl ++
  "try {" ++ nl ++
  "  const u = new URL(spec, import.meta.url);" ++ nl ++
  "  await import(u.href);" ++ nl ++
  "  setImmediate(() => process.exit(0));" ++ nl ++
  "} catch (err) {" ++ nl ++
  "  console.error(err);" ++ nl ++
  "  setImmediate(() => process.exit(1));" ++ nl ++
  "}" ++ nl.

Definition code_is (err : thrown) (code : string) : bool :=
  match thr_code err with
  | Some c => String.eqb c code
  | None => false
  end.

(** [process.platform === "win32" ? "junction" : "dir"] *)
Definition linkType (pf : platform) : string :=
  if win32 pf then "junction" else "dir".

Definition serversLinkPath (sb : sandbox) : path :=
  (tempDir sb ++ ["servers"])%list.

Definition runnerPath (sb : sandbox) : path :=
  (tempDir sb ++ ["runner.mjs"])%list.

(** [initialize()]; [serversTargetPath] is where the generated stub tree
    is looked for. *)
Definition initialize (pf : platform) (serversTargetPath : path)
    (sb : sandbox) : io unit :=
  mkdir_p (tempDir sb);;
  try_catch
    (stat serversTargetPath;;
     needLink ← try_catch
       (st ← lstat (serversLinkPath sb);
        mret (match st with
              | Symlink _ | Dir => false
              | File _ => true
              end))
       (fun _ => mret true);
     if needLink : bool then
       try_catch
         (symlink pf serversTargetPath (serversLinkPath sb) (linkType pf))
         (fun err =>
            if code_is err "EEXIST" then mret tt
            else if code_is err "EPERM" || code_is err "EACCES"
                    || code_is err "ENOSYS" then
              cp_r pf serversTargetPath (serversLinkPath sb)
            else
              log (OpWarn ("⚠️ 创建 servers 链接失败: " ++ message_or_string err)))
     else mret tt)
    (fun _ => mret tt);;
  writeFile (runnerPath sb) runnerCode.

Definition module_not_found (h : host) (what : string) : thrown :=
  {| thr_message := Some ("Cannot find module '" ++ what ++ "'");
     thr_code := Some "ERR_MODULE_NOT_FOUND";
     thr_string := "Error: Cannot find module '" ++ what ++ "'";
     thr_inspect := "Error: Cannot find module '" ++ what ++ "'" ++ frames h |}.

(** [new URL(spec, import.meta.url)] for a specifier [./name], seen from a
    script in [dir]. *)
Definition resolve_specifier (dir : path) (specifier : string) : option path :=
  match specifier with
  | String "." (String "/" name) => Some (dir ++ [name])%list
  | _ => None
  end.

(** What [runner.mjs] runs: the module the specifier names. *)
Definition entry_module (h : host) (d : gmap path node) (dir : path)
    (specifier : string) : user_code :=
  match resolve_specifier dir specifier with
  | Some p =>
      match lookup_follow d p with
      | Some (File code) => semantics h code
      | _ => Raise (module_not_found h (render p))
      end
  | None => Raise (module_not_found h specifier)
  end.

(** What the forked process runs: the script at the runner path. *)
Definition worker_program (h : host) (d : gmap path node) (sb : sandbox)
    (specifier : string) : user_code :=
  match lookup_follow d (runnerPath sb) with
  | Some (File src) =>
      if String.eqb src runnerCode
      then entry_module h d (tempDir sb) specifier
      else semantics h src
  | _ => Raise (module_not_found h (render (runnerPath sb)))
  end.

(** The events of one run, and the runner after them. *)
Definition run_events (h : host) (env : call_env) (sb : sandbox)
    (d : gmap path node) (specifier : string) (timeout : Z)
  : list proc_event :=
  match fork_outcome env with
  | SpawnFails code message => [ProcError (system_error code message)]
  | _ =>
      worker_events (frames h) (mcpClients sb) (steps_within h timeout) true
        (worker_program h d sb specifier)
  end.

Definition final_runner (h : host) (env : call_env) (sb : sandbox)
    (d : gmap path node) (specifier : string) (timeout : Z) : runner :=
  run (frames h) (mcpClients sb) (start timeout)
      (run_events h env sb d specifier timeout).

(** [await] on a promise that is settled or never will be. *)
Definition await {A} (p : option A) : io A := fun w =>
  (match p with Some v => Ok v | None => Pending end, w).

(** [runWithTimeout(specifier, timeout)] *)
Definition runWithTimeout (h : host) (env : call_env) (sb : sandbox)
    (specifier : string) (timeout : Z) : io exec_result :=
  log (OpFork (runnerPath sb) specifier);;
  match fork_outcome env with
  | ForkThrows e => throw e
  | SpawnFails _ _ =>
      d ← get_disk;
      await (settled (final_runner h env sb d specifier timeout))
  | Spawned =>
      d ← get_disk;
      put_disk (worker_writes env d);;
      await (settled (final_runner h env sb d specifier timeout))
  end.

Definition execFile (env : call_env) (sb : sandbox) : path :=
  let ts := now env in
  let rand := rand env in
  let name := "exec-" ++ pretty ts ++ "-" ++ rand ++ ".ts" in
  (tempDir sb ++ [name])%list.

(** [executeCode(code)] *)
Definition executeCode (h : host) (env : call_env) (sb : sandbox)
    (code : string) : io exec_result :=
  finally
    (try_catch
       (writeFile (execFile env sb) code;;
        stat (execFile env sb);;
        let specifier := "./" ++ basename (execFile env sb) in
        result ← runWithTimeout h env sb specifier 10000;
        mret result)
       (fun error =>
          mret {| success := false; output := None;
                  error := Some (message_or_string error) |}))
    (catch_ignore (unlink (execFile env sb))).

(** [cleanup()] *)
Definition cleanup (sb : sandbox) : io unit :=
  try_catch (rm_rf (tempDir sb)) (fun _ => mret tt).

End Sandbox.
Import Sandbox.

(** ** Notions the statements use *)

(** The text the standard output handler has collected after [events]. *)
Fixpoint captured_stdout (events : list proc_event) : string :=
  match events with
  | [] => ""
  | StdoutData chunk :: rest => chunk ++ captured_stdout rest
  | _ :: rest => captured_stdout rest
  end.

Fixpoint captured_stderr (events : list proc_event) : string :=
  match events with
  | [] => ""
  | StderrData chunk :: rest => chunk ++ captured_stderr rest
  | _ :: rest => captured_stderr rest
  end.

(** [needle] occurs in [hay]. *)
Definition contains (hay needle : string) : Prop :=
  exists before after, hay = before ++ needle ++ after.

(** The envelope the message handler looks for: a value that is not
    falsy and whose [type] is ["callMCPTool"]. *)
Definition has_envelope (msg : jsval) : bool :=
  truthy msg && is_str (field msg "type") "callMCPTool".

(** No event of the list settles the promise. *)
Definition none_settles (events : list proc_event) : Prop :=
  Forall (fun ev => settles ev = false) events.

(** The workspace of a sandbox is in place: its directory, and in it the
    bootstrap script [initialize] writes. *)
Definition initialized (sb : sandbox) (d : gmap path node) : Prop :=
  tempDir sb <> [] /\
  d !! tempDir sb = Some Dir /\
  d !! runnerPath sb = Some (File runnerCode).

(** A failed result with its message. *)
Definition failure (message : string) : exec_result :=
  {| success := false; output := None; error := Some message |}.

(** The per-call file can be written: its directory is there and no
    directory sits at its path. *)
Definition writable (d : gmap path node) (p : path) : Prop :=
  dir_at d (dirname p) = true /\ d !! p <> Some Dir.

(** The disk when the promise of a call is settled: as it was when the
    code file could not be written; with the code file, when no worker
    was started; and as the worker and the servers left it. *)
Definition disk_at_settle (env : call_env) (sb : sandbox) (code : string)
    (d : gmap path node) : gmap path node :=
  let p := execFile env sb in
  if negb (dir_at d (dirname p)) then d
  else
    match d !! p with
    | Some Dir => d
    | _ =>
        match fork_outcome env with
        | Spawned => worker_writes env (<[p := File code]> d)
        | _ => <[p := File code]> d
        end
    end.

(** What the [unlink] of the [finally] block makes of a disk. *)
Definition disk_after_call (env : call_env) (sb : sandbox)
    (d : gmap path node) : gmap path node :=
  match d !! execFile env sb with
  | Some Dir => d
  | _ => delete (execFile env sb) d
  end.

(** The worker of a call and the servers leave a path as they find it. *)
Definition leaves (env : call_env) (q : path) : Prop :=
  forall d, worker_writes env d !! q = d !! q.

(** The error code [fs.symlink] refuses with in a given state, if any. *)
Definition symlink_refusal (pf : platform) (d : gmap path node)
    (link : path) : option string :=
  match d !! link with
  | Some _ => Some "EEXIST"
  | None =>
      if negb (dir_at d (dirname link)) then Some (lookup_fault d link)
      else link_fault pf
  end.

(** The codes on which [initialize] falls back to copying. *)
Definition permission_class (code : string) : bool :=
  String.eqb code "EPERM" || String.eqb code "EACCES"
  || String.eqb code "ENOSYS".

(** The result of a tool call as an MCP client returns it, and a content
    list with one text item. *)
Definition tool_result (isError : bool) (content : jsval) : jsval :=
  JObj [("content", content); ("isError", JBool isError)].

Definition text_content (text : string) : jsval :=
  JArr [JObj [("type", JStr "text"); ("text", JStr text)]].

(** No character of the string is escaped by [JSON.stringify]. *)
Fixpoint plain (s : string) : bool :=
  match s with
  | EmptyString => true
  | String c rest => plain_char c && plain rest
  end.

(** ** Sample inputs *)

Module Sample.

(** A file system server: reading [missing.txt] is reported as an error in
    the result, reading anything else gives a text. *)
Definition filesystem : jsval -> jsval -> call_outcome := fun name args =>
  if is_str (field args "path") "missing.txt" then
    Resolves (tool_result true
      (text_content "ENOENT: no such file or directory, open 'missing.txt'"))
  else
    Resolves (tool_result false (text_content "file contents")).

Definition clients : gmap string client := {[ "filesystem" := filesystem ]}.

Definition frames : string := nl ++ "    at file:///workspace/exec.ts:1:1".

Definition call_id : string := "1700000000001-k2j4h6g8d".

(** What a few programs do when the worker runs them; any other text does
    not parse. *)
Definition semantics (code : string) : user_code :=
  if String.eqb code "console.log('hi')" then
    Print "hi" Finish
  else if String.eqb code "while (true) {}" then
    Forever
  else if String.eqb code "await nope.tool({})" then
    Call call_id "nope" "tool" (JObj []) (fun _ => Finish) None
  else if String.eqb code
            "try { await nope.tool({}) } catch { console.log('recovered') }"
  then
    Call call_id "nope" "tool" (JObj []) (fun _ => Finish)
         (Some (fun _ => Print "recovered" Finish))
  else if String.eqb code "await fs.readFile({ path: 'missing.txt' })" then
    Call call_id "filesystem" "read_file"
         (JObj [("path", JStr "missing.txt")]) (fun _ => Finish) None
  else if String.eqb code
            "console.log(await fs.readFile({ path: 'notes.txt' }))" then
    Call call_id "filesystem" "read_file"
         (JObj [("path", JStr "notes.txt")])
         (fun v => Print (to_string v) Finish) None
  else
    Raise (new_Error "Unexpected identifier" frames).

Definition host : Sandbox.host :=
  {| Sandbox.frames := frames;
     Sandbox.semantics := semantics;
     steps_within := fun ms => Z.to_nat (ms / 10) |}.

Definition env : call_env :=
  {| now := 1700000000000; rand := "q7w8e9"; fork_outcome := Spawned;
     worker_writes := fun d => d |}.

Definition sb : sandbox :=
  new_sandbox clients ["home"; "project"] 4242 1699999999000 "a1b2c3".

Definition target : path := ["home"; "project"; "generated-api"; "servers"].

Definition linux : platform :=
  {| win32 := false; link_fault := None; copy_fault := None |}.

(** A disk with the project and its generated stub tree. *)
Definition fresh : world :=
  {| disk := {[ ["home"] := Dir;
                ["home"; "project"] := Dir;
                ["home"; "project"; "generated-api"] := Dir;
                target := Dir;
                (target ++ ["filesystem"])%list := Dir;
                (target ++ ["filesystem"; "read_file.ts"])%list
                  := File "export async function readFile(input) {}" ]};
     ops := [] |}.

(** The same disk once the workspace directory is made, and once the
    sandbox is initialized. *)
Definition made : world := snd (mkdir_p (tempDir sb) fresh).

Definition ready : world := snd (initialize linux target sb fresh).

End Sample.

(** The requests among the events of a run: the messages the handler does
    not ignore, oldest first. *)
Definition requests (events : list proc_event) : list jsval :=
  omap (fun ev =>
          match ev with
          | IpcMessage msg => if has_envelope msg then Some msg else None
          | _ => None
          end) events.

(** A content item [{ type, text }]. *)
Definition content_item (it : string * string) : jsval :=
  JObj [("type", JStr it.1); ("text", JStr it.2)].

(** The texts of the items whose type is ["text"]. *)
Definition texts_of (items : list (string * string)) : list string :=
  map snd (filter (fun it => it.1 = "text") items).

(** What answers a request: a response with the id of the request that is
    a result or an error. *)
Definition answers (msg resp : jsval) : Prop :=
  field resp "id" = field msg "id"
  /\ (field resp "type" = JStr "result" \/ field resp "type" = JStr "error").

(** ** More sample inputs *)

Module Cases.

(** A server whose tool answers with two texts around an image. *)
Definition gallery : jsval -> jsval -> call_outcome := fun name args =>
  Resolves (tool_result false
    (JArr (map content_item
             [("text", "first"); ("image", "data"); ("text", "second")]))).

(** A server whose tool flags an error and gives no content. *)
Definition bare : jsval -> jsval -> call_outcome := fun name args =>
  Resolves (JObj [("isError", JBool true)]).

(** A server whose tool throws. *)
Definition broken : jsval -> jsval -> call_outcome := fun name args =>
  Rejects (new_Error "Unknown tool: edit_file" "").

Definition clients : gmap string client :=
  {[ "gallery" := gallery; "bare" := bare; "broken" := broken ]}.

(** User code that handles [SIGTERM] and stays. *)
Definition stubborn_code : string :=
  "process.on('SIGTERM', () => {}); while (true) {}".

(** User code that removes the link to the stub tree of its workspace. *)
Definition unlinking_code : string :=
  "import { unlinkSync } from 'node:fs'; "
  ++ "unlinkSync(new URL('./servers', import.meta.url))".

(** User code that prints what the tool of [bare] gives. *)
Definition bare_code : string := "console.log(await bare.run({}))".

Definition semantics (code : string) : user_code :=
  if String.eqb code stubborn_code then Survive
  else if String.eqb code unlinking_code then Finish
  else if String.eqb code bare_code then
    Call Sample.call_id "bare" "run" (JObj [])
         (fun v => Print (to_string v) Finish) None
  else Sample.semantics code.

Definition host : Sandbox.host :=
  {| Sandbox.frames := Sample.frames;
     Sandbox.semantics := semantics;
     steps_within := fun ms => Z.to_nat (ms / 10) |}.

(** The sample sandbox with the servers above. *)
Definition sb : sandbox :=
  {| mcpClients := clients; tempDir := tempDir Sample.sb |}.


End Cases.

(** ** Code with a state of its own *)

(** Code that runs against a state [S], which holds the file system and
    the variables the code keeps, and that may throw or never settle. What
    was done to the state before a throw stays done. *)
Definition prog (S A : Type) : Type := S -> res A * S.

#[global] Instance prog_ret {S} : MRet (prog S) | 100 :=
  fun A a s => (Ok a, s).
#[global] Instance prog_bind {S} : MBind (prog S) | 100 := fun A B k m s =>
  match m s with
  | (Ok a, s') => k a s'
  | (Throw e, s') => (Throw e, s')
  | (Pending, s') => (Pending, s')
  end.

Definition get_state {S} : prog S S := fun s => (Ok s, s).

Definition fail {S A} (e : thrown) : prog S A := fun s => (Throw e, s).

Definition never {S A} : prog S A := fun s => (Pending, s).

(** ** The MCP server: the request handlers of [server.ts]

    The server is taken as it runs when [SANDBOX_DEBUG] is not ["true"]:
    the lines it then writes on its standard error are left out. *)

Module Server.

(** What [client.listTools()] does: the names of the tools it resolves
    with, or what it throws, with whether that is an instance of
    [Error]. *)
Inductive list_outcome :=
| Listed (tools : list string)
| ListFails (is_error : bool) (e : thrown).

(** A connected client. *)
Record connection := {
  callTool : client;
  listTools : list_outcome
}.

(** A [Map<string, Client>]: the entries in the order of their first
    insertion. *)
Abbreviation registry := (list (string * connection)).

(** [m.set(k, v)]: a key that is there keeps its place. *)
Fixpoint map_set (k : string) (v : connection) (m : registry) : registry :=
  match m with
  | [] => [(k, v)]
  | (k', v') :: rest =>
      if String.eqb k' k then (k, v) :: rest
      else (k', v') :: map_set k v rest
  end.

(** [m.get(k)] *)
Fixpoint map_get (k : string) (m : registry) : option connection :=
  match m with
  | [] => None
  | (k', v) :: rest => if String.eqb k' k then Some v else map_get k rest
  end.

(** The map as the sandbox uses it: the clients by name. *)
Definition clients_of (m : registry) : gmap string client :=
  list_to_map (map (fun kv => (kv.1, callTool kv.2)) m).

(** The lines [generateToolsTree] adds for the server at one index. *)
Definition server_lines (frames : string) (mcpClients : registry)
    (serverNames : list string) (i : nat) (serverName : string)
  : list string :=
  let isLast := Nat.eqb i (length serverNames - 1) in
  let prefix := if isLast then "└──" else "├──" in
  let outcome :=
    match map_get serverName mcpClients with
    | Some client => listTools client
    | None =>
        ListFails true
          (new_TypeError
             "Cannot read properties of undefined (reading 'listTools')"
             frames)
    end in
  match outcome with
  | Listed tools =>
      (prefix ++ " " ++ serverName ++ "/")
      :: imap (fun j tool =>
                 let isLastTool := Nat.eqb j (length tools - 1) in
                 let toolPrefix := if isLast then "    " else "│   " in
                 let toolBranch := if isLastTool then "└──" else "├──" in
                 toolPrefix ++ toolBranch ++ " " ++ tool) tools
  | ListFails is_error error =>
      [prefix ++ " " ++ serverName ++ "/ (获取失败: "
       ++ (if is_error then default "undefined" (thr_message error)
           else thr_string error)
       ++ ")"]
  end.

(** The array [lines] at the end of [generateToolsTree]. *)
Definition tree_lines (frames : string) (mcpClients : registry)
  : list string :=
  let serverNames := map fst mcpClients in
  (["可用工具:"; "servers/"]
   ++ concat (imap (server_lines frames mcpClients serverNames)
                serverNames))%list.

(** [generateToolsTree()] *)
Definition generateToolsTree (frames : string) (mcpClients : registry)
  : string :=
  join nl (tree_lines frames mcpClients).

(** The variables of the module, and the file system. *)
Record server := {
  fs : world;
  sandbox : option Sandbox.sandbox;
  mcpClients : registry
}.

(** File system code, run by the server. *)
Definition on_fs {A} (m : io A) : prog server A := fun s =>
  let (r, w) := m (fs s) in
  (r, {| fs := w; sandbox := sandbox s; mcpClients := mcpClients s |}).

Definition set_sandbox (sb : Sandbox.sandbox) : prog server unit := fun s =>
  (Ok tt, {| fs := fs s; sandbox := Some sb; mcpClients := mcpClients s |}).

Definition set_client (serverName : string) (c : connection)
  : prog server unit :=
  fun s =>
    (Ok tt, {| fs := fs s; sandbox := sandbox s;
               mcpClients := map_set serverName c (mcpClients s) |}).

(** What the process the server runs in gives that the code does not
    decide. *)
Record process := {
  frames : string;
  launch : string -> list string -> res connection;
                                 (* [client.connect] over a new transport *)
  cwd : path;                    (* process.cwd() *)
  pid : Z;                       (* process.pid *)
  started : Z;                   (* Date.now() in the constructor *)
  suffix : string;               (* the random part of the directory name *)
  pf : platform;
  serversTargetPath : path;      (* [generated-api/servers] beside the code *)
  write_data : path -> jsval -> io unit
                                 (* [fs.writeFile(path, data)] for data
                                    that is not a string *)
}.

(** [connectMCPServer(serverName, command, args)] *)
Definition connectMCPServer (P : process) (serverName command : string)
    (args : list string) : prog server connection :=
  match launch P command args with
  | Ok client => set_client serverName client;; mret client
  | Throw e => fail e
  | Pending => never
  end.

(** [initializeSandbox()] *)
Definition initializeSandbox (P : process) : prog server unit :=
  s ← get_state;
  match sandbox s with
  | Some _ => mret tt
  | None =>
      connectMCPServer P "filesystem" "npx"
        ["-y"; "@modelcontextprotocol/server-filesystem"; render (cwd P)];;
      connectMCPServer P "fetch" "uvx"
        ["--from"; "git+https://github.com/cexll/mcp-server-fetch.git";
         "mcp-server-fetch"];;
      connectMCPServer P "sequential-thinking" "npx"
        ["-y"; "mcp-sequentialthinking-tools"];;
      connectMCPServer P "codex-cli" "npx"
        ["-y"; "@cexll/codex-mcp-server"];;
      s ← get_state;
      let sb := new_sandbox (clients_of (mcpClients s)) (cwd P) (pid P)
                  (started P) (suffix P) in
      set_sandbox sb;;
      on_fs (initialize (pf P) (serversTargetPath P) sb)
  end.

(** A tool result with one text item. *)
Definition text_result (text : jsval) (fields : list (string * jsval))
  : jsval :=
  JObj (("content", JArr [JObj [("type", JStr "text"); ("text", text)]])
        :: fields).

(** [`${v}`] for an optional string *)
Definition template (v : option string) : string := default "undefined" v.

(** [const { code } = request.params.arguments]: a [TypeError] when the
    request has no arguments. *)
Definition destructure_code (frames : string) (arguments : jsval)
  : res jsval :=
  match arguments with
  | JUndefined =>
      Throw (new_TypeError
        ("Cannot destructure property 'code' of 'request.params.arguments'"
         ++ " as it is undefined.") frames)
  | JNull =>
      Throw (new_TypeError
        ("Cannot destructure property 'code' of 'request.params.arguments'"
         ++ " as it is null.") frames)
  | _ => Ok (field arguments "code")
  end.

(** [sandbox.executeCode(code)] for the value a request carries, which
    nothing checks to be a string. What [fs.writeFile] does with another
    value (it refuses most of them) is the part of the process; the rest
    of [executeCode] is the same. *)
Definition executeCode_of (P : process) (h : host) (env : call_env)
    (sb : Sandbox.sandbox) (code : jsval) : io exec_result :=
  match code with
  | JStr text => executeCode h env sb text
  | _ =>
      Fs.finally
        (try_catch
           (write_data P (execFile env sb) code;;
            stat (execFile env sb);;
            let specifier := "./" ++ basename (execFile env sb) in
            result ← runWithTimeout h env sb specifier 10000;
            mret result)
           (fun error =>
              mret {| success := false; output := None;
                      error := Some (message_or_string error) |}))
        (catch_ignore (unlink (execFile env sb)))
  end.

(** The handler of [CallToolRequestSchema], for a request with the tool
    name [name] and the arguments [arguments] ([JUndefined] when the
    request has none). *)
Definition call_tool (P : process) (h : host) (env : call_env)
    (name : string) (arguments : jsval) : prog server jsval :=
  s ← get_state;
  (match sandbox s with
   | None => initializeSandbox P
   | Some _ => mret tt
   end);;
  if String.eqb name "execute_code" then
    code ← (fun s => (destructure_code (frames P) arguments, s));
    s ← get_state;
    match sandbox s with
    | None =>
        fail (new_TypeError
                "Cannot read properties of null (reading 'executeCode')"
                (frames P))
    | Some sb =>
        result ← on_fs (executeCode_of P h env sb code);
        if success result then
          mret (text_result
                  (match output result with
                   | Some text => JStr text
                   | None => JUndefined
                   end) [])
        else
          mret (text_result
                  (JStr ("执行错误:" ++ nl ++ template (error result)))
                  [("isError", JBool true)])
    end
  else if String.eqb name "list_available_tools" then
    s ← get_state;
    let toolsTree := generateToolsTree (frames P) (mcpClients s) in
    mret (text_result (JStr toolsTree) [])
  else
    fail (new_Error ("未知工具: " ++ name) (frames P)).

End Server.

(** A server process for the sample sandbox: every server but [fetch]
    can be started, and [filesystem] lists two tools. *)
Module Demo.

(** The error of [fs.writeFile] for data that is no string, as Node words
    it. *)
Definition invalid_data (v : jsval) : thrown :=
  new_TypeError
    ("The " ++ dquote ++ "data" ++ dquote ++ " argument must be of type"
     ++ " string or an instance of Buffer, TypedArray, or DataView."
     ++ " Received "
     ++ match v with
        | JUndefined => "undefined"
        | JNull => "null"
        | JBool b => "type boolean (" ++ to_string v ++ ")"
        | JNum n => "type number (" ++ to_string v ++ ")"
        | JStr text => "type string"
        | JArr _ => "an instance of Array"
        | JObj _ => "an instance of Object"
        end)
    Sample.frames.

(** The texts of a list of strings, one after the other; [None] when an
    item is no string. *)
Fixpoint chunks (items : list jsval) : option string :=
  match items with
  | [] => Some ""
  | JStr text :: rest => option_map (String.app text) (chunks rest)
  | _ :: _ => None
  end.

(** [fs.writeFile] for data that is no string: an array of strings is
    written chunk by chunk, and a value that cannot be iterated is
    refused before the file is opened. An array with an item that is no
    string is not among the requests of the samples; it is refused here
    too. *)
Definition write_data (p : path) (data : jsval) : io unit :=
  match data with
  | JArr items =>
      match chunks items with
      | Some text => writeFile p text
      | None => throw (invalid_data data)
      end
  | _ => throw (invalid_data data)
  end.

Definition filesystem : Server.connection :=
  {| Server.callTool := Sample.filesystem;
     Server.listTools := Server.Listed ["read_file"; "write_file"] |}.

Definition silent : Server.connection :=
  {| Server.callTool := Cases.broken;
     Server.listTools :=
       Server.ListFails true (new_Error "Connection closed" "") |}.

Definition launch (command : string) (args : list string)
  : res Server.connection :=
  if String.eqb command "uvx" then
    Throw (system_error "ENOENT" "spawn uvx ENOENT")
  else if String.eqb (default "" (args !! 1%nat))
            "@modelcontextprotocol/server-filesystem" then
    Ok filesystem
  else Ok silent.

Definition process : Server.process :=
  {| Server.frames := Sample.frames;
     Server.launch := launch;
     Server.cwd := ["home"; "project"];
     Server.pid := 4242;
     Server.started := 1699999999000;
     Server.suffix := "a1b2c3";
     Server.pf := Sample.linux;
     Server.serversTargetPath := Sample.target;
     Server.write_data := write_data |}.

(** The server once the sample sandbox is in place. *)
Definition serving : Server.server :=
  {| Server.fs := Sample.ready;
     Server.sandbox := Some Sample.sb;
     Server.mcpClients := [("filesystem", filesystem); ("codex-cli", silent)] |}.

(** The server before its first request. *)
Definition idle : Server.server :=
  {| Server.fs := Sample.fresh;
     Server.sandbox := None;
     Server.mcpClients := [] |}.

(** A process in which every server can be launched, and a server before
    its first request on a disk where a file sits at [/home]. *)
Definition steady : Server.process :=
  {| Server.frames := Sample.frames;
     Server.launch := fun _ _ => Ok silent;
     Server.cwd := ["home"; "project"];
     Server.pid := 4242;
     Server.started := 1699999999000;
     Server.suffix := "a1b2c3";
     Server.pf := Sample.linux;
     Server.serversTargetPath := Sample.target;
     Server.write_data := write_data |}.

Definition blocked : Server.server :=
  {| Server.fs := {| disk := {[ ["home"] := File "" ]}; ops := [] |};
     Server.sandbox := None;
     Server.mcpClients := [] |}.

End Demo.

(** ** Methods of strings *)

Module Str.

(** [s.slice(n)] *)
Fixpoint slice (n : nat) (s : string) : string :=
  match n, s with
  | O, _ => s
  | S n', String _ rest => slice n' rest
  | S _, EmptyString => EmptyString
  end.

(** [s.replace(pat, "")] for a string [pat]: the first occurrence is taken
    out. *)
Fixpoint remove_first (pat s : string) : string :=
  if String.prefix pat s then slice (String.length pat) s
  else
    match s with
    | EmptyString => EmptyString
    | String c rest => String c (remove_first pat rest)
    end.

(** [s.includes(pat)] *)
Fixpoint includes (pat s : string) : bool :=
  String.prefix pat s
  || match s with
     | EmptyString => false
     | String _ rest => includes pat rest
     end.

End Str.

(** ** The generator of the stubs: [generate-api.ts] *)

Module Generate.

(** The class [[a-z]] *)
Definition is_lower (c : ascii) : bool :=
  let n := nat_of_ascii c in (97 <=? n)%nat && (n <=? 122)%nat.

(** [letter.toUpperCase()] for a letter of [[a-z]] *)
Definition upper (c : ascii) : ascii := ascii_of_nat (nat_of_ascii c - 32).

Definition is_underscore (c : ascii) : bool := Ascii.eqb c "_".

(** [str.replace(/_([a-z])/g, (_, letter) => letter.toUpperCase())]: the
    matches are found from left to right and do not overlap. *)
Fixpoint toCamelCase (str : string) : string :=
  match str with
  | EmptyString => EmptyString
  | String u tail =>
      match tail with
      | String c rest =>
          if is_underscore u && is_lower c
          then String (upper c) (toCamelCase rest)
          else String u (toCamelCase tail)
      | EmptyString => String u EmptyString
      end
  end.

(** Does the regular expression [/_([a-z])/] match somewhere? *)
Fixpoint has_match (str : string) : bool :=
  match str with
  | EmptyString => false
  | String u tail =>
      match tail with
      | String c _ => (is_underscore u && is_lower c) || has_match tail
      | EmptyString => false
      end
  end.

(** The array [toolFiles] that the loop over the tools builds. *)
Definition toolFiles (toolNames : list string) : list string :=
  map (fun toolName => toolName ++ ".ts") toolNames.

(** The text of [index.ts]. *)
Definition indexCode (toolFiles : list string) : string :=
  join nl (map (fun file =>
                  let name := Str.remove_first ".ts" file in
                  "export * from './" ++ name ++ ".js';") toolFiles)
  ++ nl.

End Generate.

(** ** The built-in [fetch] tool: what it does to the body of a response *)

Module Fetch.

(** The arguments of the tool besides the URL, as the signature of
    [fetch] types them. *)
Record options := {
  max_length : option Z;
  start_index : option Z;
  raw : option bool
}.

(** [v || d] for an optional number *)
Definition or_number (v : option Z) (d : Z) : Z :=
  match v with
  | Some n => if n =? 0 then d else n
  | None => d
  end.

Section Text.

(** A text is the sequence of its UTF-16 code units, which is what
    [length] and [substring] count. *)
Context {unit16 : Type}.

(** [text.substring(start)] and [text.substring(0, stop)] *)
Definition substring_from (start : Z) (text : list unit16) : list unit16 :=
  drop (Z.to_nat start) text.

Definition substring_to (stop : Z) (text : list unit16) : list unit16 :=
  take (Z.to_nat stop) text.

(** The offset and the length limit, as the handler of [end] applies them
    to the decoded body. *)
Definition window (args : options) (text : list unit16) : list unit16 :=
  let startIndex := or_number (start_index args) 0 in
  let maxLength := or_number (max_length args) 50000 in
  let text :=
    if 0 <? startIndex then substring_from startIndex text else text in
  if maxLength <? Z.of_nat (length text) then substring_to maxLength text
  else text.

(** The text of the result: the window, simplified when the response is
    HTML and [raw] is not set. [simplify] is the chain of replacements
    that takes scripts, styles and tags out. *)
Definition result_text (simplify : list unit16 -> list unit16)
    (args : options) (contentType : option string) (text : list unit16)
  : list unit16 :=
  let text := window args text in
  let html :=
    match contentType with
    | Some value => Str.includes "text/html" value
    | None => false
    end in
  if negb (default false (raw args)) && html then simplify text else text.

End Text.

End Fetch.

(** ** The class [CodeModeSandbox] of [sandbox.ts]

    The executor the agent uses. It runs the code with [tsx] under the
    sandbox runtime, in a temporary directory of its own. What is printed
    on the console of the parent is left out. *)

Module CodeModeSandbox.

(** The events the handlers registered in [runCommand] are called for. *)
Inductive child_event :=
| Out (data : string)                (* child.stdout.on('data') *)
| Err (data : string)                (* child.stderr.on('data') *)
| Exit (code : option Z).            (* child.on('exit'); [None] is [null] *)

(** [{ exitCode: number; stdout: string; stderr: string }] *)
Record command_result := {
  exitCode : Z;
  stdout : string;
  stderr : string
}.

(** The buffers of [runCommand] and its promise. *)
Record collector := {
  out : string;
  err : string;
  resolved : option command_result
}.

Definition on_event (c : collector) (ev : child_event) : collector :=
  match ev with
  | Out data =>
      {| out := out c ++ data; err := err c; resolved := resolved c |}
  | Err data =>
      {| out := out c; err := err c ++ data; resolved := resolved c |}
  | Exit code =>
      match resolved c with
      | Some _ => c
      | None =>
          {| out := out c; err := err c;
             resolved :=
               Some {| exitCode := match code with
                                   | Some n => n      (* code || 0 *)
                                   | None => 0
                                   end;
                       stdout := out c;
                       stderr := err c |} |}
      end
  end.

(** [runCommand(command, cwd)], for the events of the child: the value
    the promise is resolved with, if it is. The child is spawned through
    the shell in the directory that was just made, and is taken to
    start. *)
Definition runCommand (events : list child_event) : option command_result :=
  resolved (foldl on_event {| out := ""; err := ""; resolved := None |}
              events).




(** [{ success: boolean; output: string; error?: string }] *)
Record result := {
  success : bool;
  output : string;
  error : option string
}.

(** The sandbox runtime and the system, as far as the code does not
    decide what they do. *)
Record runtime := {
  manager_initialize : res unit;     (* SandboxManager.initialize(config) *)
  wrapWithSandbox : string -> res string;
  suffix : string;                   (* the characters [mkdtemp] appends *)
  child : string -> path -> gmap path node
          -> list child_event * gmap path node
      (* what a command does when spawned in a directory on a disk: the
         events the handlers are called for, and the disk it leaves *)
}.

(** The file system and the field [isInitialized]. *)
Record state := {
  fs : world;
  isInitialized : bool
}.

Definition on_fs {A} (m : io A) : prog state A := fun s =>
  let (r, w) := m (fs s) in
  (r, {| fs := w; isInitialized := isInitialized s |}).

Definition set_initialized : prog state unit := fun s =>
  (Ok tt, {| fs := fs s; isInitialized := true |}).

(** A call into the runtime. *)
Definition call {A} (r : res A) : prog state A := fun s => (r, s).

(** [try { m } finally { f }] *)
Definition finally {A} (m : prog state A) (f : prog state unit)
  : prog state A := fun s =>
  match m s with
  | (Pending, s') => (Pending, s')
  | (r, s') =>
      match f s' with
      | (Ok _, s'') => (r, s'')
      | (Throw e, s'') => (Throw e, s'')
      | (Pending, s'') => (Pending, s'')
      end
  end.

(** [await p] for a promise that is resolved or never will be. *)
Definition await {A} (p : option A) : prog state A :=
  match p with
  | Some v => mret v
  | None => never
  end.

(** [fs.mkdtemp(prefix)] for a prefix in the directory [parent]: the
    directory is made under the prefix followed by six characters the
    system picks so that the name is free. [suffix] stands for the
    characters picked; the statements below are about disks on which the
    name they give is free. *)
Definition mkdtemp (parent : path) (prefix suffix : string) : io path :=
  d ← get_disk;
  let name := prefix ++ suffix in
  let template := prefix ++ "XXXXXX" in
  let p := (parent ++ [name])%list in
  if negb (dir_at d parent) then
    throw (fs_error (lookup_fault d (parent ++ [template])%list) "mkdtemp"
             (parent ++ [template])%list)
  else
    match d !! p with
    | Some _ => throw (fs_error "EEXIST" "mkdtemp" p)
    | None => put_disk (<[p := Dir]> d);; mret p
    end.

(** [initialize()] *)
Definition initialize (R : runtime) : prog state unit :=
  s ← get_state;
  if isInitialized s then mret tt
  else
    call (manager_initialize R);;
    set_initialized.

(** [injectMCPClients(userCode)] *)
Definition injectMCPClients (userCode : string) : string :=
  nl ++
  "// MCP Clients 桥接" ++ nl ++
  "const __MCP_CLIENTS__ = new Map();" ++ nl ++
  nl ++
  "// 这里简化处理，实际需要通过 IPC/RPC 与主进程通信" ++ nl ++
  "// 在真实实现中，应该使用 Unix socket 或其他 IPC 机制" ++ nl ++
  "async function callMCPTool(serverName: string, toolName: string, input: any) {" ++ nl ++
  "  // 通过进程间通信调用主进程的 MCP client" ++ nl ++
  "  // 这里仅作示意" ++ nl ++
  "  console.log(`[MCP Call] ${serverName}.${toolName}(${JSON.stringify(input)})`);" ++ nl ++
  "  throw new Error('实际实现需要 IPC 支持');" ++ nl ++
  "}" ++ nl ++
  nl ++
  "// 导入生成的 API（需要在实际路径中）" ++ nl ++
  userCode ++ nl.

(** The temporary directory of a call and the file the code is written
    to. *)
Definition tempDir (R : runtime) : path := ["tmp"; "code-mode-" ++ suffix R].

Definition codeFile (R : runtime) : path :=
  (tempDir R ++ ["code.ts"])%list.

(** [executeCode(code)] *)
Definition executeCode (R : runtime) (code : string) : prog state result :=
  s ← get_state;
  (if negb (isInitialized s) then initialize R else mret tt);;
  tempDir ← on_fs (mkdtemp ["tmp"] "code-mode-" (suffix R));
  let codeFile := (tempDir ++ ["code.ts"])%list in
  finally
    (let fullCode := injectMCPClients code in
     on_fs (writeFile codeFile fullCode);;
     let command := "tsx " ++ render codeFile in
     sandboxedCommand ← call (wrapWithSandbox R command);
     s ← get_state;
     let spawned := child R sandboxedCommand tempDir (disk (fs s)) in
     on_fs (put_disk (snd spawned));;
     result ← await (runCommand (fst spawned));
     mret {| success := exitCode result =? 0;
             output := stdout result;
             error := if negb (exitCode result =? 0)
                      then Some (stderr result) else None |})
    (on_fs (rm_rf tempDir)).

Definition clear_initialized : prog state unit := fun s =>
  (Ok tt, {| fs := fs s; isInitialized := false |}).

(** [cleanup()]; [reset] is what [SandboxManager.reset()] does. *)
Definition cleanup (reset : res unit) : prog state unit :=
  s ← get_state;
  if isInitialized s then call reset;; clear_initialized
  else mret tt.

End CodeModeSandbox.

(** A runtime whose child writes on its standard output and into a file
    of its directory and is then ended by a signal, and a state in which
    the runtime has not been initialized yet. *)
Module Trial.

Definition runtime : CodeModeSandbox.runtime :=
  {| CodeModeSandbox.manager_initialize := Ok tt;
     CodeModeSandbox.wrapWithSandbox := fun command => Ok ("srt " ++ command);
     CodeModeSandbox.suffix := "k3J9xQ";
     CodeModeSandbox.child := fun command cwd d =>
       ([CodeModeSandbox.Out "partial"; CodeModeSandbox.Exit None],
        <[(cwd ++ ["out.txt"])%list := File "partial"]> d) |}.


End Trial.

(** ** The built-in file system tools: what is listed and what is called *)

Module FilesystemTools.

(** The names of the tools [listTools()] resolves with, in its order. *)
Definition listed : list string :=
  ["read_file"; "read_multiple_files"; "write_file"; "edit_file";
   "create_directory"; "list_directory"; "move_file"; "search_files";
   "get_file_info"; "list_allowed_directories"].

(** The private methods of the class, which [callTool] calls with the
    arguments it reads. *)
Record methods := {
  readFile : jsval -> io jsval;
  readMultipleFiles : jsval -> io jsval;
  writeFile : jsval -> jsval -> io jsval;
  createDirectory : jsval -> io jsval;
  listDirectory : jsval -> io jsval;
  moveFile : jsval -> jsval -> io jsval;
  searchFiles : jsval -> jsval -> io jsval;
  getFileInfo : jsval -> io jsval;
  listAllowedDirectories : io jsval
}.

(** [args.k], read inside the [try] block. *)
Definition arg (frames : string) (args : jsval) (k : string) : io jsval :=
  fun w => (prop frames args k, w).

(** [callTool({ name, arguments: args })]; the [catch] block throws again
    what it caught. *)
Definition callTool (M : methods) (frames : string) (name : string)
    (args : jsval) : io jsval :=
  try_catch
    (if String.eqb name "read_file" then
       p ← arg frames args "path"; readFile M p
     else if String.eqb name "read_multiple_files" then
       ps ← arg frames args "paths"; readMultipleFiles M ps
     else if String.eqb name "write_file" then
       p ← arg frames args "path";
       content ← arg frames args "content";
       writeFile M p content
     else if String.eqb name "create_directory" then
       p ← arg frames args "path"; createDirectory M p
     else if String.eqb name "list_directory" then
       p ← arg frames args "path"; listDirectory M p
     else if String.eqb name "move_file" then
       source ← arg frames args "source";
       destination ← arg frames args "destination";
       moveFile M source destination
     else if String.eqb name "search_files" then
       p ← arg frames args "path";
       pattern ← arg frames args "pattern";
       searchFiles M p pattern
     else if String.eqb name "get_file_info" then
       p ← arg frames args "path"; getFileInfo M p
     else if String.eqb name "list_allowed_directories" then
       listAllowedDirectories M
     else throw (new_Error ("Unknown tool: " ++ name) frames))
    (fun error => throw error).

(** Methods that do nothing and succeed. *)
Definition idle : methods :=
  {| readFile := fun _ => mret JNull;
     readMultipleFiles := fun _ => mret JNull;
     writeFile := fun _ _ => mret JNull;
     createDirectory := fun _ => mret JNull;
     listDirectory := fun _ => mret JNull;
     moveFile := fun _ _ => mret JNull;
     searchFiles := fun _ _ => mret JNull;
     getFileInfo := fun _ => mret JNull;
     listAllowedDirectories := mret JNull |}.

End FilesystemTools.

(** ** Decimal numerals *)

(** The class [[0-9]], and the strings made of it. *)
Definition is_digit (c : ascii) : bool :=
  let n := nat_of_ascii c in (48 <=? n)%nat && (n <=? 57)%nat.

Fixpoint digits (s : string) : bool :=
  match s with
  | EmptyString => true
  | String c rest => is_digit c && digits rest
  end.

(** * Properties *)

(** ** The event handlers *)

Section Handlers.

Context (frames : string) (clients : gmap string client).

Lemma run_cons r ev events :
  run frames clients r (ev :: events)
  = run frames clients (step frames clients r ev) events.
Proof. reflexivity. Qed.

Lemma run_app r events1 events2 :
  run frames clients r (events1 ++ events2)%list
  = run frames clients (run frames clients r events1) events2.
Proof. unfold run. apply foldl_app. Qed.

Lemma prop_truthy v k : truthy v = true -> prop frames v k = Ok (field v k).
Proof. destruct v; simpl; intros H; try discriminate; reflexivity. Qed.

(** The guard of the message handler decides between doing nothing and
    answering. *)
Lemma on_message_no_envelope msg :
  has_envelope msg = false -> on_message frames clients msg = Ok ignored.
Proof.
  unfold has_envelope, on_message. intros H.
  destruct (truthy msg) eqn:Ht; simpl in *; [| reflexivity].
  repeat rewrite (prop_truthy _ _ Ht). cbn. rewrite H. reflexivity.
Qed.

Lemma on_message_envelope msg :
  has_envelope msg = true ->
  on_message frames clients msg =
    Ok (match get_client clients (field msg "serverName") with
        | None =>
            {| reply := Some (ipc_error (field msg "id")
                 ("MCP server not connected: "
                  ++ to_string (field msg "serverName")));
               called := None |}
        | Some c =>
            match c (field msg "toolName") (field msg "arguments") with
            | Resolves toolResult =>
                {| reply := Some (ipc_result (field msg "id") toolResult);
                   called := Some (to_string (field msg "serverName"),
                                   field msg "toolName",
                                   field msg "arguments") |}
            | Rejects e =>
                {| reply := Some (ipc_error (field msg "id")
                                    (message_or_string e));
                   called := Some (to_string (field msg "serverName"),
                                   field msg "toolName",
                                   field msg "arguments") |}
            end
        end).
Proof.
  unfold has_envelope, on_message. intros H.
  apply andb_true_iff in H as [Ht Hty]. rewrite Ht. simpl.
  repeat rewrite (prop_truthy _ _ Ht). cbn. rewrite Hty. cbn.
  destruct (get_client clients (field msg "serverName")) as [c|]; [|reflexivity].
  destruct (c _ _); reflexivity.
Qed.

Lemma on_message_total msg : exists h, on_message frames clients msg = Ok h.
Proof.
  destruct (has_envelope msg) eqn:H.
  - rewrite (on_message_envelope _ H). eauto.
  - rewrite (on_message_no_envelope _ H). eauto.
Qed.

Lemma on_message_called msg h server tool args :
  on_message frames clients msg = Ok h ->
  called h = Some (server, tool, args) ->
  has_envelope msg = true
  /\ field msg "serverName" = JStr server
  /\ is_Some (clients !! server)
  /\ field msg "toolName" = tool
  /\ field msg "arguments" = args.
Proof.
  destruct (has_envelope msg) eqn:H.
  - rewrite (on_message_envelope _ H). intros [= <-].
    destruct (get_client clients (field msg "serverName")) as [c|] eqn:Hc;
      [| discriminate].
    unfold get_client in Hc.
    destruct (field msg "serverName") as [| | | |name| |] eqn:Hs;
      try discriminate.
    intros Hcalled.
    assert (Some (name, field msg "toolName", field msg "arguments")
            = Some (server, tool, args)) as [= -> <- <-].
    { destruct (c _ _); exact Hcalled. }
    repeat split; eauto.
  - rewrite (on_message_no_envelope _ H). intros [= <-]. discriminate.
Qed.

Lemma step_message_no_envelope r msg :
  has_envelope msg = false -> step frames clients r (IpcMessage msg) = r.
Proof.
  intros H. simpl. rewrite (on_message_no_envelope _ H).
  destruct r; unfold record_handled; simpl. rewrite !app_nil_r. reflexivity.
Qed.

Lemma step_crashed r ev :
  crashed (step frames clients r ev) = crashed r.
Proof.
  destruct ev; simpl; try reflexivity.
  - destruct (timer r); [| reflexivity].
    unfold resolve. simpl. destruct (settled r); reflexivity.
  - destruct (on_message_total msg) as [h ->]. reflexivity.
  - unfold resolve. simpl. destruct (settled r); reflexivity.
  - unfold resolve. simpl. destruct (settled r); reflexivity.
Qed.

Lemma run_crashed r events :
  crashed (run frames clients r events) = crashed r.
Proof.
  revert r. induction events as [| ev events IH]; intros r; [reflexivity |].
  rewrite run_cons, IH. apply step_crashed.
Qed.

Lemma step_calls r ev call :
  call ∈ calls (step frames clients r ev) ->
  call ∈ calls r
  \/ exists msg h, ev = IpcMessage msg
       /\ on_message frames clients msg = Ok h /\ called h = Some call.
Proof.
  destruct ev; simpl; eauto.
  - destruct (timer r); eauto.
    unfold resolve. simpl. destruct (settled r); eauto.
  - destruct (on_message_total msg) as [h Hh]. rewrite Hh. simpl.
    rewrite elem_of_app. intros [Hin | Hin]; [eauto |].
    right. exists msg, h. repeat split; try done.
    destruct (called h); simpl in Hin.
    + apply list_elem_of_singleton in Hin. by subst.
    + by apply elem_of_nil in Hin.
  - unfold resolve. simpl. destruct (settled r); eauto.
  - unfold resolve. simpl. destruct (settled r); eauto.
Qed.

Lemma run_calls events : forall r call,
  call ∈ calls (run frames clients r events) ->
  call ∈ calls r
  \/ exists msg h, IpcMessage msg ∈ events
       /\ on_message frames clients msg = Ok h /\ called h = Some call.
Proof.
  induction events as [| ev events IH]; intros r call Hin; [eauto |].
  rewrite run_cons in Hin. apply IH in Hin as [Hin | (msg & h & ? & ? & ?)].
  - apply step_calls in Hin as [Hin | (msg & h & -> & ? & ?)]; [eauto |].
    right. exists msg, h. split; [apply list_elem_of_here | done].
  - right. exists msg, h. split; [by apply list_elem_of_further | done].
Qed.

End Handlers.

(** ** Races between the timer, the exit and the error event *)

Lemma str_app_nil_r (s : string) : s ++ "" = s.
Proof.
  induction s as [| c s IH]; [done |].
  change (String c (s ++ "") = String c s). by rewrite IH.
Qed.

Lemma str_app_assoc (s1 s2 s3 : string) : (s1 ++ s2) ++ s3 = s1 ++ (s2 ++ s3).
Proof.
  induction s1 as [| c s1 IH]; [done |].
  change (String c ((s1 ++ s2) ++ s3) = String c (s1 ++ (s2 ++ s3))).
  by rewrite IH.
Qed.

Section Races.

Context (frames : string) (clients : gmap string client).

Lemma resolve_settled v r :
  settled (resolve v r) = match settled r with Some v' => Some v' | None => Some v end.
Proof. unfold resolve. destruct (settled r) eqn:H; simpl; auto. Qed.

Lemma resolve_timer v r : timer (resolve v r) = timer r.
Proof. unfold resolve. destruct (settled r); reflexivity. Qed.

Lemma resolve_killed v r : killed (resolve v r) = killed r.
Proof. unfold resolve. destruct (settled r); reflexivity. Qed.

Lemma step_keeps_settled r ev v :
  settled r = Some v -> settled (step frames clients r ev) = Some v.
Proof.
  intros H. destruct ev; simpl; try done.
  - destruct (timer r); [| done]. by rewrite resolve_settled; simpl; rewrite H.
  - destruct (on_message frames clients msg); done.
  - by rewrite resolve_settled; simpl; rewrite H.
  - by rewrite resolve_settled; simpl; rewrite H.
Qed.

Lemma run_keeps_settled events : forall r v,
  settled r = Some v -> settled (run frames clients r events) = Some v.
Proof.
  induction events as [| ev events IH]; intros r v H; [done |].
  rewrite run_cons. eapply IH, step_keeps_settled, H.
Qed.

Lemma step_keeps_disarmed r ev :
  timer r = None -> timer (step frames clients r ev) = None.
Proof.
  intros H. destruct ev; simpl; try done.
  - by rewrite H.
  - destruct (on_message frames clients msg); done.
  - by rewrite resolve_timer.
  - by rewrite resolve_timer.
Qed.

Lemma run_keeps_disarmed events : forall r,
  timer r = None -> timer (run frames clients r events) = None.
Proof.
  induction events as [| ev events IH]; intros r H; [done |].
  rewrite run_cons. apply IH, step_keeps_disarmed, H.
Qed.

Lemma step_keeps_killed r ev :
  killed r = true -> killed (step frames clients r ev) = true.
Proof.
  intros H. destruct ev; simpl; try done.
  - destruct (timer r); [| done]. by rewrite resolve_killed.
  - destruct (on_message frames clients msg); done.
  - by rewrite resolve_killed.
  - by rewrite resolve_killed.
Qed.

Lemma run_keeps_killed events : forall r,
  killed r = true -> killed (run frames clients r events) = true.
Proof.
  induction events as [| ev events IH]; intros r H; [done |].
  rewrite run_cons. apply IH, step_keeps_killed, H.
Qed.

(** An event that does not settle leaves the promise and the timer as they
    are and only adds to the buffers. *)
Lemma step_quiet r ev :
  settles ev = false ->
  settled (step frames clients r ev) = settled r
  /\ timer (step frames clients r ev) = timer r
  /\ stdout (step frames clients r ev) = stdout r ++ captured_stdout [ev]
  /\ stderr (step frames clients r ev) = stderr r ++ captured_stderr [ev].
Proof.
  destruct ev; simpl; try discriminate; intros _.
  3: destruct (on_message frames clients msg); simpl.
  all: rewrite ?str_app_nil_r; done.
Qed.

Lemma run_quiet events : forall r,
  none_settles events ->
  settled (run frames clients r events) = settled r
  /\ timer (run frames clients r events) = timer r
  /\ stdout (run frames clients r events) = stdout r ++ captured_stdout events
  /\ stderr (run frames clients r events) = stderr r ++ captured_stderr events.
Proof.
  induction events as [| ev events IH]; intros r Hq.
  - simpl. by rewrite !str_app_nil_r.
  - apply Forall_cons in Hq as [Hev Hq].
    rewrite run_cons.
    destruct (IH (step frames clients r ev) Hq) as (-> & -> & -> & ->).
    destruct (step_quiet r ev Hev) as (-> & -> & -> & ->).
    repeat split; try done.
    + rewrite str_app_assoc. f_equal.
      destruct ev; simpl; rewrite ?str_app_nil_r; done.
    + rewrite str_app_assoc. f_equal.
      destruct ev; simpl; rewrite ?str_app_nil_r; done.
Qed.

(** The first settling event finds the promise open and the timer armed,
    so its handler is the one whose [resolve] counts. *)
Lemma step_settles r ev :
  settles ev = true -> settled r = None -> is_Some (timer r) ->
  settled (step frames clients r ev) = resolution r ev
  /\ timer (step frames clients r ev) = None
  /\ (ev = TimerFire -> killed (step frames clients r ev) = true).
Proof.
  intros Hev Hopen [delay Harmed].
  destruct ev; simpl in *; try discriminate.
  - rewrite Harmed. rewrite resolve_settled, resolve_timer, resolve_killed.
    simpl. by rewrite Hopen.
  - rewrite resolve_settled, resolve_timer. simpl. by rewrite Hopen.
  - rewrite resolve_settled, resolve_timer. simpl. by rewrite Hopen.
Qed.

End Races.

(** ** The runner's result *)

(** C7. In every run the first of the three events (timer, exit, error) is
    the one that produces the result: before it the promise is open, its
    handler's value is the result, and no later event changes it, in
    particular no exit event that follows the kill of a timeout. After it
    the timer is no longer armed (cleared by the exit and error handlers,
    spent when it fired), and the worker has been killed when it was the
    timer. *)
Theorem first_settling_event_wins
    (frames : string) (clients : gmap string client) (timeout : Z)
    (before : list proc_event) (ev : proc_event) (after : list proc_event) :
  none_settles before ->
  settles ev = true ->
  let at_event := run frames clients (start timeout) before in
  let final := run frames clients (start timeout) (before ++ ev :: after) in
  settled at_event = None
  /\ settled final = resolution at_event ev
  /\ is_Some (settled final)
  /\ timer final = None
  /\ (ev = TimerFire ->
        killed final = true /\ settled final = Some timeout_result).
Proof.
  intros Hquiet Hev at_event final.
  destruct (run_quiet frames clients before (start timeout) Hquiet)
    as (Hopen & Harmed & _ & _).
  fold at_event in Hopen, Harmed. simpl in Hopen, Harmed.
  destruct (step_settles frames clients at_event ev Hev Hopen)
    as (Hres & Htimer & Hkill); [by rewrite Harmed |].
  assert (is_Some (resolution at_event ev)) as [v Hv].
  { destruct ev; try discriminate; simpl; eauto. }
  assert (settled final = Some v) as Hfinal.
  { unfold final. rewrite run_app, run_cons. fold at_event.
    apply run_keeps_settled. by rewrite Hres. }
  repeat split.
  - done.
  - by rewrite Hfinal.
  - by rewrite Hfinal.
  - unfold final. rewrite run_app, run_cons. fold at_event.
    by apply run_keeps_disarmed.
  - unfold final. rewrite run_app, run_cons. fold at_event.
    apply run_keeps_killed; auto.
  - subst ev. rewrite Hfinal, <- Hv. reflexivity.
Qed.

Lemma first_settling_event_wins_witness :
  settled (run "" ∅ (start 10000)
             ([StdoutData "partial"] ++ TimerFire :: [ProcExit None]))
  = Some timeout_result.
Proof.
  apply (first_settling_event_wins "" ∅ 10000
           [StdoutData "partial"] TimerFire [ProcExit None]);
    [repeat constructor | reflexivity | reflexivity].
Defined.

(** Without one of the three events the promise stays open. *)
Lemma open_without_settling_event
    (frames : string) (clients : gmap string client) (timeout : Z)
    (events : list proc_event) :
  none_settles events ->
  settled (run frames clients (start timeout) events) = None.
Proof.
  intros Hquiet.
  by destruct (run_quiet frames clients events (start timeout) Hquiet) as [-> _].
Qed.

(** C8. Whatever arrives on the channel, and however often: a message that
    is falsy ([null] among them) or whose [type] is not ["callMCPTool"]
    leaves the runner exactly as it was; no message makes the handler
    throw; and every [callTool] call the runner has made was asked for by
    a message of the run that has the envelope and names a connected
    server. *)
Theorem malformed_messages_ignored
    (frames : string) (clients : gmap string client) (timeout : Z)
    (events : list proc_event) (r : runner) (msg : jsval) :
  has_envelope msg = false ->
  let final := run frames clients (start timeout) events in
  step frames clients r (IpcMessage msg) = r
  /\ on_message frames clients msg = Ok ignored
  /\ (forall m, exists h, on_message frames clients m = Ok h)
  /\ crashed final = None
  /\ (forall server tool args,
        (server, tool, args) ∈ calls final ->
        exists m,
          IpcMessage m ∈ events /\ has_envelope m = true
          /\ field m "serverName" = JStr server
          /\ is_Some (clients !! server)
          /\ field m "toolName" = tool /\ field m "arguments" = args).
Proof.
  intros Hmsg final. repeat split.
  - by apply step_message_no_envelope.
  - by apply on_message_no_envelope.
  - apply on_message_total.
  - unfold final. by rewrite run_crashed.
  - intros server tool args Hin.
    apply run_calls in Hin as [Hin | (m & h & Hm & Hh & Hcalled)].
    + by apply elem_of_nil in Hin.
    + exists m. split; [done |].
      by apply (on_message_called frames clients m h).
Qed.

Lemma malformed_messages_ignored_witness :
  step "" ∅ (start 10000) (IpcMessage (JObj [("type", JStr "ping")]))
  = start 10000.
Proof.
  apply (malformed_messages_ignored "" ∅ 10000
           [IpcMessage JNull; IpcMessage (JStr "x")]
           (start 10000) (JObj [("type", JStr "ping")])).
  reflexivity.
Defined.

(** ** The worker, seen from the parent *)

Section WorkerEvents.

Context (frames : string) (clients : gmap string client).

(** A step that goes on shows nothing that settles the promise; a step
    that stops ends with the exit of the worker, or with the timer and
    what follows the signal. *)
Lemma worker_step_shape has_send p :
  (exists events has_send' next,
     worker_step frames clients has_send p = Continue events has_send' next
     /\ none_settles events)
  \/ (exists events,
        worker_step frames clients has_send p = Stop events
        /\ exists quiet,
             none_settles quiet
             /\ ((exists rest, events = (quiet ++ TimerFire :: rest)%list
                               /\ (rest = [ProcExit None] \/ rest = []))
                 \/ exists code,
                      events = (quiet ++ [ProcExit (Some code)])%list)).
Proof.
  assert (forall events e,
            none_settles events ->
            exists quiet,
              none_settles quiet
              /\ ((exists rest,
                     (events ++ import_failed e)%list
                     = (quiet ++ TimerFire :: rest)%list
                     /\ (rest = [ProcExit None] \/ rest = []))
                  \/ exists code,
                       (events ++ import_failed e)%list
                         = (quiet ++ [ProcExit (Some code)])%list))
    as Hfailed.
  { intros events e Hq.
    exists (events ++ [StderrData (thr_inspect e ++ nl)])%list.
    split; [apply Forall_app; split; [done | by repeat constructor] |].
    right. exists 1. by rewrite <- app_assoc. }
  assert (forall events rest,
            rest = [ProcExit None] \/ rest = [] ->
            none_settles events ->
            exists quiet,
              none_settles quiet
              /\ ((exists rest',
                     (events ++ TimerFire :: rest)%list
                     = (quiet ++ TimerFire :: rest')%list
                     /\ (rest' = [ProcExit None] \/ rest' = []))
                  \/ exists code,
                       (events ++ TimerFire :: rest)%list
                         = (quiet ++ [ProcExit (Some code)])%list))
    as Htimed.
  { intros events rest Hrest Hq. exists events. split; [done |].
    left. by exists rest. }
  assert (forall ev : proc_event, settles ev = false -> none_settles [ev])
    as Hone by (intros ev Hev; by repeat constructor).
  destruct p; simpl.
  - left. eexists _, _, _. split; [done |]. by repeat constructor.
  - left. eexists _, _, _. split; [done |]. by repeat constructor.
  - destruct has_send.
    + destruct (on_message frames clients _) as [[[resp|] ?] | |];
        try (right; eexists; split; [done |];
             by apply (Htimed [_] [ProcExit None]); [left | apply Hone]).
      destruct (messageHandler frames id (wire resp))
        as [[[v | e]|] | e |];
        try (right; eexists; split; [done |];
             by apply (Htimed [_] [ProcExit None]); [left | apply Hone]);
        try (right; eexists; split; [done |];
             by apply (Hfailed [_]), Hone).
      * left. eexists _, _, _. split; [done |]. by repeat constructor.
      * destruct handler.
        -- left. eexists _, _, _. split; [done |]. by repeat constructor.
        -- right. eexists. split; [done |]. by apply (Hfailed [_]), Hone.
    + destruct handler.
      * left. eexists _, _, _. split; [done |]. constructor.
      * right. eexists. split; [done |]. apply (Hfailed []). constructor.
  - destruct has_send.
    + left. eexists _, _, _. split; [done |]. by repeat constructor.
    + right. eexists. split; [done |]. apply (Hfailed []). constructor.
  - left. eexists _, _, _. split; [done |]. constructor.
  - right. eexists. split; [done |]. apply (Hfailed []). constructor.
  - right. eexists. split; [done |]. exists []. split; [constructor |].
    right. by eexists.
  - right. eexists. split; [done |]. exists []. split; [constructor |].
    right. by exists 0.
  - right. eexists. split; [done |].
    apply (Htimed [] [ProcExit None]); [by left | constructor].
  - right. eexists. split; [done |].
    apply (Htimed [] []); [by right | constructor].
Qed.

(** A worker's events end with its exit, or hold the timer; nothing before
    that settles the promise. *)
Lemma worker_events_shape budget : forall has_send p,
  exists quiet,
    none_settles quiet
    /\ ((exists rest,
           worker_events frames clients budget has_send p
           = (quiet ++ TimerFire :: rest)%list
           /\ (rest = [ProcExit None] \/ rest = []))
        \/ exists code,
             worker_events frames clients budget has_send p
               = (quiet ++ [ProcExit (Some code)])%list).
Proof.
  induction budget as [| budget IH]; intros has_send p.
  - exists []. split; [constructor |]. left. exists [ProcExit None].
    split; [done | by left].
  - simpl.
    destruct (worker_step_shape has_send p)
      as [(evs & hs & p' & -> & Hq) | (evs & -> & Hstop)]; [| exact Hstop].
    destruct (IH hs p') as (quiet & Hquiet & Hshape).
    exists (evs ++ quiet)%list. split; [by apply Forall_app |].
    destruct Hshape as [(rest & -> & Hrest) | [code ->]]; rewrite app_assoc;
      [left; by exists rest | right; by exists code].
Qed.

(** So the promise of a run with a spawned worker is always settled. *)
Lemma worker_run_settles budget has_send p timeout :
  is_Some (settled (run frames clients (start timeout)
                      (worker_events frames clients budget has_send p))).
Proof.
  destruct (worker_events_shape budget has_send p)
    as (quiet & Hq & [(rest & -> & _) | [code ->]]);
    destruct (run_quiet frames clients quiet (start timeout) Hq)
      as (Hopen & Harmed & _ & _).
  - rewrite run_app, run_cons.
    erewrite run_keeps_settled; [done |].
    simpl. rewrite Harmed. simpl. rewrite resolve_settled. simpl.
    by rewrite Hopen.
  - rewrite run_app. simpl. rewrite resolve_settled. simpl. by rewrite Hopen.
Qed.

End WorkerEvents.

(** ** The exit of the worker *)

(** An event that settles the promise and lies behind a stretch without
    one lies in what follows the stretch. *)
Lemma settling_event_position quiet : forall rest before ev after,
  none_settles quiet ->
  settles ev = true ->
  (quiet ++ rest)%list = (before ++ ev :: after)%list ->
  exists pre, before = (quiet ++ pre)%list /\ rest = (pre ++ ev :: after)%list.
Proof.
  induction quiet as [| q quiet IH]; intros rest before ev after Hq Hev Heq.
  - by exists before.
  - apply Forall_cons in Hq as [Hqev Hq].
    destruct before as [| b before]; simpl in Heq.
    + injection Heq as -> _. congruence.
    + injection Heq as -> Heq.
      destruct (IH rest before ev after Hq Hev Heq) as (pre & -> & ->).
      by exists pre.
Qed.

(** In the run of a worker, nothing before its exit settles the promise
    unless the timer has fired: a spawn that fails has no exit event, and a
    worker that was spawned shows no error event. *)
Lemma run_events_exit_first h env sb d specifier timeout before code after :
  run_events h env sb d specifier timeout
    = (before ++ ProcExit code :: after)%list ->
  TimerFire ∉ before ->
  none_settles before.
Proof.
  intros Hrun Htimer.
  assert (forall budget has_send p,
            worker_events (frames h) (mcpClients sb) budget has_send p
              = (before ++ ProcExit code :: after)%list ->
            none_settles before) as Hworker.
  { intros budget has_send p Hev.
    destruct (worker_events_shape (frames h) (mcpClients sb) budget has_send p)
      as (quiet & Hq & [(rest & Hshape & _) | [c Hshape]]);
      rewrite Hshape in Hev;
      destruct (settling_event_position quiet _ before (ProcExit code) after
                  Hq eq_refl Hev) as (pre & -> & Hrest).
    - destruct pre as [| ev pre]; [discriminate |].
      injection Hrest as <- _.
      exfalso. apply Htimer. apply elem_of_app. right. apply elem_of_cons. by left.
    - destruct pre as [| ev pre].
      + by rewrite app_nil_r.
      + destruct pre; discriminate. }
  unfold run_events in Hrun.
  destruct (fork_outcome env); try by eapply Hworker.
  destruct before as [| ? [| ? ?]]; discriminate.
Qed.

(** In the run of a worker the timer, when it fires, is the first event
    that settles the promise. *)
Lemma run_events_timer_first h env sb d specifier timeout :
  TimerFire ∈ run_events h env sb d specifier timeout ->
  exists quiet rest,
    none_settles quiet
    /\ run_events h env sb d specifier timeout
       = (quiet ++ TimerFire :: rest)%list
    /\ (rest = [ProcExit None] \/ rest = []).
Proof.
  assert (forall budget has_send p,
            TimerFire ∈ worker_events (frames h) (mcpClients sb) budget
                          has_send p ->
            exists quiet rest,
              none_settles quiet
              /\ worker_events (frames h) (mcpClients sb) budget has_send p
                 = (quiet ++ TimerFire :: rest)%list
              /\ (rest = [ProcExit None] \/ rest = [])) as Hworker.
  { intros budget has_send p Hin.
    destruct (worker_events_shape (frames h) (mcpClients sb) budget has_send p)
      as (quiet & Hq & [(rest & Hshape & Hrest) | [c Hshape]]);
      [by exists quiet, rest |].
    rewrite Hshape in Hin. apply elem_of_app in Hin as [Hin | Hin].
    - unfold none_settles in Hq. rewrite Forall_forall in Hq.
      by apply Hq in Hin.
    - apply elem_of_cons in Hin as [Hin | Hin]; [discriminate |].
      by apply elem_of_nil in Hin. }
  unfold run_events. destruct (fork_outcome env); try by apply Hworker.
  intros Hin. apply elem_of_cons in Hin as [Hin | Hin]; [discriminate |].
  by apply elem_of_nil in Hin.
Qed.

(** C1. When the worker exits before the timer fires, the result follows
    from the exit code: code 0 gives success with the collected standard
    output, or the placeholder when nothing was written; any other code
    (the [null] of a worker ended by a signal among them) gives a failure
    with the collected standard error, or ["Exit code: <code>"] when
    nothing was written there. This holds of every sequence of events in
    which the exit is the first event that settles the promise, whatever
    comes after it; and in the run of a worker it is enough that the timer
    has not fired before the exit. *)
Theorem exit_decides_result
    (timeout : Z) (before : list proc_event) (code : option Z)
    (after : list proc_event) :
  let out := captured_stdout before in
  let err := captured_stderr before in
  let decided (final : runner) : Prop :=
    (code = Some 0 ->
       settled final =
         Some {| success := true;
                 output := Some (if String.eqb out "" then
                                   "Code executed successfully (no output)"
                                 else out);
                 error := None |})
    /\ (code <> Some 0 ->
          settled final =
            Some {| success := false;
                    output := None;
                    error := Some (if String.eqb err "" then
                                     "Exit code: "
                                     ++ match code with
                                        | Some n => pretty n
                                        | None => "null"
                                        end
                                   else err) |}) in
  (forall frames clients,
     none_settles before ->
     decided (run frames clients (start timeout)
                (before ++ ProcExit code :: after)))
  /\ (forall h env sb d specifier,
        run_events h env sb d specifier timeout
          = (before ++ ProcExit code :: after)%list ->
        TimerFire ∉ before ->
        decided (final_runner h env sb d specifier timeout)).
Proof.
  intros out err decided.
  assert (forall frames clients,
            none_settles before ->
            decided (run frames clients (start timeout)
                       (before ++ ProcExit code :: after))) as Hfirst.
  { intros frames clients Hquiet.
    assert (settled (run frames clients (start timeout)
                       (before ++ ProcExit code :: after))
            = Some (exit_result code out err)) as Hfinal.
    { rewrite run_app, run_cons.
      apply run_keeps_settled.
      destruct (run_quiet frames clients before (start timeout) Hquiet)
        as (Hopen & _ & Hout & Herr).
      simpl. rewrite resolve_settled. simpl. rewrite Hopen. simpl.
      by rewrite Hout, Herr. }
    unfold decided. rewrite Hfinal. split.
    - intros ->. reflexivity.
    - intros Hcode. unfold exit_result.
      destruct code as [[| |] |]; [done | reflexivity ..]. }
  split; [exact Hfirst |].
  intros h env sb d specifier Hrun Htimer.
  unfold final_runner. rewrite Hrun. apply Hfirst.
  by eapply run_events_exit_first.
Qed.

Lemma exit_decides_result_witness :
  settled (run "" ∅ (start 10000)
             ([StdoutData "hi"; IpcMessage JNull]
              ++ ProcExit (Some 0) :: [TimerFire]))
  = Some {| success := true; output := Some "hi"; error := None |}
  /\ settled (run "" ∅ (start 10000)
                ([StdoutData "hi"] ++ ProcExit (Some 3) :: []))
     = Some {| success := false; output := None;
               error := Some "Exit code: 3" |}
  /\ settled (final_runner Sample.host Sample.env Sample.sb
                (<[execFile Sample.env Sample.sb := File "console.log('hi')"]>
                   (disk Sample.ready))
                "./exec-1700000000000-q7w8e9.ts" 10000)
     = Some {| success := true; output := Some ("hi" ++ nl); error := None |}.
Proof.
  split; [| split].
  - destruct (exit_decides_result 10000
                [StdoutData "hi"; IpcMessage JNull] (Some 0) [TimerFire])
      as [Hfirst _].
    assert (none_settles [StdoutData "hi"; IpcMessage JNull]) as Hquiet
      by (repeat constructor).
    destruct (Hfirst "" ∅ Hquiet) as [Hzero _].
    exact (Hzero eq_refl).
  - destruct (exit_decides_result 10000 [StdoutData "hi"] (Some 3) [])
      as [Hfirst _].
    assert (none_settles [StdoutData "hi"]) as Hquiet by (repeat constructor).
    destruct (Hfirst "" ∅ Hquiet) as [_ Hother].
    apply Hother. discriminate.
  - destruct (exit_decides_result 10000 [StdoutData ("hi" ++ nl)] (Some 0) [])
      as [_ Hworker].
    assert (TimerFire ∉ [StdoutData ("hi" ++ nl)]) as Htimer.
    { apply not_elem_of_cons. split; [discriminate | apply not_elem_of_nil]. }
    destruct (Hworker Sample.host Sample.env Sample.sb
                (<[execFile Sample.env Sample.sb := File "console.log('hi')"]>
                   (disk Sample.ready))
                "./exec-1700000000000-q7w8e9.ts") as [Hzero _].
    + vm_compute. reflexivity.
    + exact Htimer.
    + exact (Hzero eq_refl).
Defined.

(** ** File system calls *)

Lemma writeFile_run p c w :
  writeFile p c w =
    if negb (dir_at (disk w) (dirname p)) then
      (Throw (fs_error (lookup_fault (disk w) p) "open" p),
       logged (OpWriteFile p c) w)
    else
      match disk w !! p with
      | Some Dir =>
          (Throw (fs_error "EISDIR" "open" p), logged (OpWriteFile p c) w)
      | _ => (Ok tt, {| disk := <[p := File c]> (disk w);
                        ops := (ops w ++ [OpWriteFile p c])%list |})
      end.
Proof.
  unfold writeFile, log, get_disk, put_disk, throw, logged, mbind, io_bind.
  simpl. destruct (dir_at (disk w) (dirname p)); simpl; [| done].
  destruct (disk w !! p) as [[]|]; done.
Qed.

Lemma unlink_run p w :
  catch_ignore (unlink p) w =
    (Ok tt, {| disk := match disk w !! p with
                       | Some Dir => disk w
                       | _ => delete p (disk w)
                       end;
               ops := (ops w ++ [OpUnlink p])%list |}).
Proof.
  unfold catch_ignore, try_catch, unlink, log, get_disk, put_disk, throw,
    mbind, io_bind, mret, io_ret.
  simpl. destruct (disk w !! p) as [[]|] eqn:Hp; simpl; try done.
  by rewrite delete_id.
Qed.

Lemma stat_run p w :
  stat p w =
    match lookup_follow (disk w) p with
    | Some n => (Ok n, logged (OpStat p) w)
    | None =>
        (Throw (fs_error (lookup_fault (disk w) p) "stat" p),
         logged (OpStat p) w)
    end.
Proof.
  unfold stat, log, get_disk, throw, logged, mbind, io_bind, mret, io_ret.
  simpl. destruct (lookup_follow (disk w) p); done.
Qed.

(** ** [executeCode], case by case *)

(** The disk when the promise is settled, for a code file that was
    written. *)
Lemma disk_at_settle_written env sb code d :
  writable d (execFile env sb) ->
  disk_at_settle env sb code d
  = match fork_outcome env with
    | Spawned => worker_writes env (<[execFile env sb := File code]> d)
    | _ => <[execFile env sb := File code]> d
    end.
Proof.
  intros [Hdir Hp]. unfold disk_at_settle. rewrite Hdir. simpl.
  destruct (d !! execFile env sb) as [[]|]; done.
Qed.

Lemma disk_at_settle_refused env sb code d :
  ~ writable d (execFile env sb) -> disk_at_settle env sb code d = d.
Proof.
  intros Hno. unfold disk_at_settle.
  destruct (dir_at d (dirname (execFile env sb))) eqn:Hdir; [| done].
  simpl. destruct (d !! execFile env sb) as [[]|] eqn:Hp; try done;
    destruct Hno; split; congruence.
Qed.

Lemma executeCode_cases h env sb code w :
  let p := execFile env sb in
  let spec := "./" ++ basename p in
  exists r added,
    executeCode h env sb code w
      = (Ok r, {| disk := disk_after_call env sb
                            (disk_at_settle env sb code (disk w));
                  ops := (ops w ++ added)%list |})
    /\ ((exists e, fst (writeFile p code w) = Throw e
                   /\ r = failure (message_or_string e)
                   /\ added = [OpWriteFile p code; OpUnlink p])
        \/ (exists e, writable (disk w) p /\ fork_outcome env = ForkThrows e
                      /\ r = failure (message_or_string e))
        \/ (writable (disk w) p
            /\ (forall e, fork_outcome env <> ForkThrows e)
            /\ settled (final_runner h env sb (<[p := File code]> (disk w))
                          spec 10000) = Some r)).
Proof.
  intros p spec. unfold executeCode, finally. fold p. fold spec.
  unfold try_catch at 1.
  unfold mbind at 1. unfold io_bind at 1. rewrite writeFile_run.
  destruct (dir_at (disk w) (dirname p)) eqn:Hdir; simpl.
  2: { rewrite unlink_run. simpl.
       rewrite disk_at_settle_refused
         by (intros [Hd _]; fold p in Hd; congruence).
       eexists _, [OpWriteFile p code; OpUnlink p].
       split; [by rewrite <- app_assoc |].
       left. eexists. by repeat split. }
  destruct (disk w !! p) as [n|] eqn:Hp.
  1: destruct n as [content | | target].
  2: { simpl. rewrite unlink_run. simpl.
       rewrite disk_at_settle_refused
         by (intros [_ Hd]; fold p in Hd; congruence).
       eexists _, [OpWriteFile p code; OpUnlink p].
       split; [by rewrite <- app_assoc |].
       left. eexists. by repeat split. }
  all: assert (writable (disk w) p) as Hw
         by (split; [done | by rewrite Hp]).
  all: rewrite (disk_at_settle_written env sb code (disk w) Hw); fold p.
  all: simpl; unfold mbind at 1; unfold io_bind at 1; rewrite stat_run;
       unfold lookup_follow; simpl; rewrite lookup_insert_eq; simpl;
       unfold runWithTimeout, log, throw, get_disk, put_disk, await, mbind,
         io_bind, mret, io_ret; simpl.
  all: destruct (fork_outcome env) as [| e | c m] eqn:Hfork; simpl.
  all: try (rewrite unlink_run; simpl;
            exists (failure (message_or_string e)),
              [OpWriteFile p code; OpStat p; OpFork (runnerPath sb) spec;
               OpUnlink p];
            split; [by rewrite <- !app_assoc |];
            right; left; exists e; split; [exact Hw | done]).
  all: destruct (settled (final_runner h env sb
                   (<[p := File code]> (disk w)) spec 10000)) as [r|] eqn:Hr;
    [ rewrite unlink_run; simpl;
      exists r,
        [OpWriteFile p code; OpStat p; OpFork (runnerPath sb) spec;
         OpUnlink p];
      split;
      [ rewrite <- ?app_assoc; reflexivity
      | right; right; split; [exact Hw |]; split;
        [intros e0; discriminate | reflexivity] ]
    | exfalso; unfold final_runner, run_events in Hr; rewrite Hfork in Hr ].
  all: try (by destruct (worker_run_settles (frames h) (mcpClients sb)
              (steps_within h 10000) true
              (worker_program h (<[p := File code]> (disk w)) sb spec) 10000)
              as [v Hv]; rewrite Hv in Hr).
  all: by vm_compute in Hr.
Qed.

(** ** Paths of the workspace *)

Lemma dirname_execFile env sb : dirname (execFile env sb) = tempDir sb.
Proof. unfold dirname, execFile. apply removelast_last. Qed.

Lemma basename_execFile env sb :
  basename (execFile env sb)
  = "exec-" ++ pretty (now env) ++ "-" ++ rand env ++ ".ts".
Proof. unfold basename, execFile. apply last_last. Qed.


Lemma execFile_not_servers env sb : execFile env sb <> serversLinkPath sb.
Proof.
  unfold execFile, serversLinkPath. intros H.
  apply app_inv_head in H. discriminate.
Qed.

Lemma execFile_not_runner env sb : execFile env sb <> runnerPath sb.
Proof.
  unfold execFile, runnerPath. intros H.
  apply app_inv_head in H. discriminate.
Qed.

Lemma execFile_under_tempDir env sb : tempDir sb `prefix_of` execFile env sb.
Proof. unfold execFile. by eexists. Qed.

Lemma dir_at_missing d p : p <> [] -> d !! p = None -> dir_at d p = false.
Proof.
  intros Hp Hd. unfold dir_at, lookup_follow. rewrite Hd.
  by destruct p.
Qed.

Lemma dir_at_Dir d p : d !! p = Some Dir -> dir_at d p = true.
Proof.
  intros Hd. unfold dir_at, lookup_follow. rewrite Hd. by destruct p.
Qed.

(** In an initialized workspace the worker runs the submitted code. *)
Lemma worker_program_initialized h env sb code d :
  initialized sb d ->
  worker_program h (<[execFile env sb := File code]> d) sb
    ("./" ++ basename (execFile env sb))
  = semantics h code.
Proof.
  intros (_ & _ & Hrunner).
  unfold worker_program, lookup_follow.
  rewrite lookup_insert_ne by apply execFile_not_runner.
  rewrite Hrunner, String.eqb_refl.
  unfold entry_module.
  assert (resolve_specifier (tempDir sb) ("./" ++ basename (execFile env sb))
          = Some (execFile env sb)) as ->.
  { rewrite basename_execFile. reflexivity. }
  unfold lookup_follow. by rewrite lookup_insert_eq.
Qed.

Lemma initialized_writable env sb d :
  initialized sb d -> d !! execFile env sb <> Some Dir ->
  writable d (execFile env sb).
Proof.
  intros (_ & Hdir & _) Hfile. split; [| done].
  rewrite dirname_execFile. by apply dir_at_Dir.
Qed.

(** ** Runs that end with the timer or with the exit *)

Lemma run_then_timer frames clients timeout quiet rest :
  none_settles quiet ->
  let final := run frames clients (start timeout)
                 (quiet ++ TimerFire :: rest) in
  settled final = Some timeout_result /\ killed final = true.
Proof.
  intros Hq final.
  destruct (run_quiet frames clients quiet (start timeout) Hq)
    as (Hopen & Harmed & _ & _).
  unfold final. rewrite run_app, run_cons. split.
  - apply run_keeps_settled. simpl. rewrite Harmed. simpl.
    rewrite resolve_settled. simpl. by rewrite Hopen.
  - apply run_keeps_killed. simpl. rewrite Harmed. simpl.
    by rewrite resolve_killed.
Qed.

Lemma run_then_exit frames clients timeout quiet code rest :
  none_settles quiet ->
  settled (run frames clients (start timeout)
             (quiet ++ ProcExit code :: rest))
  = Some (exit_result code (captured_stdout quiet) (captured_stderr quiet)).
Proof.
  intros Hq.
  destruct (run_quiet frames clients quiet (start timeout) Hq)
    as (Hopen & _ & Hout & Herr).
  rewrite run_app, run_cons. apply run_keeps_settled.
  simpl. rewrite resolve_settled. simpl. rewrite Hopen, Hout, Herr. done.
Qed.

Lemma exit_result_success code out err :
  success (exit_result code out err) = true -> code = Some 0.
Proof. destruct code as [[]|]; simpl; done. Qed.

Lemma exit_result_failure code out err :
  code <> Some 0 ->
  exit_result code out err
  = failure (or_else err ("Exit code: " ++ code_text code)).
Proof. destruct code as [[]|]; simpl; done. Qed.

(** ** [executeCode] as a whole *)





(** ** The error of a write into a directory that is not there *)

Lemma walk_codes d rest : forall base c,
  walk d base rest = Some c -> c = "ENOENT" \/ c = "ENOTDIR".
Proof.
  induction rest as [| x rest IH]; intros base c; [done |]. simpl.
  destruct (lookup_follow d (base ++ [x])%list) as [[]|];
    [by intros [= <-]; right | apply IH | by intros [= <-]; left
     | by intros [= <-]; left].
Qed.

Lemma lookup_fault_codes d p :
  lookup_fault d p = "ENOENT" \/ lookup_fault d p = "ENOTDIR".
Proof.
  unfold lookup_fault. destruct (walk d [] (dirname p)) as [c|] eqn:Hwalk.
  - by apply walk_codes in Hwalk.
  - by left.
Qed.

Lemma walk_app d rest1 : forall base rest2,
  walk d base (rest1 ++ rest2)%list
  = match walk d base rest1 with
    | Some c => Some c
    | None => walk d (base ++ rest1)%list rest2
    end.
Proof.
  induction rest1 as [| x rest1 IH]; intros base rest2.
  - by rewrite app_nil_r.
  - simpl. destruct (lookup_follow d (base ++ [x])%list) as [[]|]; try done.
    by rewrite IH, <- app_assoc.
Qed.

(** C10. On a sandbox that was only constructed, so that nothing exists
    at or below its directory, [executeCode] returns the failure with the
    message of the file system error of the write; it makes two calls to
    the outside, the write and the removal, and none that starts a
    worker; the disk is as it was. The error is the one of the first
    place on the way to the file that cannot be passed: [ENOTDIR] when a
    file is there (one at [.sandbox-temp], say), [ENOENT] when nothing
    is. *)
Theorem uninitialized_call_fails
    (h : host) (env : call_env) (clients : gmap string client)
    (cwd : path) (pid now0 : Z) (rand0 : string) (code : string) (w : world) :
  let sb := new_sandbox clients cwd pid now0 rand0 in
  let errno := lookup_fault (disk w) (execFile env sb) in
  (forall q, tempDir sb `prefix_of` q -> disk w !! q = None) ->
  executeCode h env sb code w =
    (Ok {| success := false;
           output := None;
           error := Some (errno ++ ": " ++ describe errno ++ ", open '"
                          ++ render (execFile env sb) ++ "'") |},
     {| disk := disk w;
        ops := (ops w ++ [OpWriteFile (execFile env sb) code;
                          OpUnlink (execFile env sb)])%list |})
  /\ (errno = "ENOENT" \/ errno = "ENOTDIR")
  /\ (walk (disk w) [] cwd = None ->
      match lookup_follow (disk w) (cwd ++ [".sandbox-temp"])%list with
      | Some (File _) => errno = "ENOTDIR"
      | _ => errno = "ENOENT"
      end).
Proof.
  intros sb errno Hgone.
  assert (dir_at (disk w) (dirname (execFile env sb)) = false) as Hdir.
  { rewrite dirname_execFile. apply dir_at_missing.
    - unfold sb, new_sandbox. simpl. by destruct cwd.
    - by apply Hgone. }
  assert (disk w !! execFile env sb = None) as Hfile
    by apply Hgone, execFile_under_tempDir.
  split; [| split].
  - destruct (executeCode_cases h env sb code w)
      as (r & added & Hrun & Hcases).
    rewrite Hrun.
    rewrite disk_at_settle_refused by (intros [Hd _]; congruence).
    unfold disk_after_call. rewrite Hfile, delete_id by done.
    destruct Hcases
      as [(e & He & -> & ->) | [(e & [Hw _] & _) | ([Hw _] & _)]].
    + rewrite writeFile_run, Hdir in He. simpl in He. injection He as <-.
      reflexivity.
    + congruence.
    + congruence.
  - apply lookup_fault_codes.
  - intros Hcwd. unfold errno, lookup_fault. rewrite dirname_execFile.
    assert (lookup_follow (disk w) (tempDir sb) = None) as Hmissing.
    { unfold lookup_follow. by rewrite Hgone. }
    revert Hmissing. unfold sb, new_sandbox. cbn [tempDir].
    generalize (pretty pid ++ "-" ++ pretty now0 ++ "-" ++ rand0).
    intros uniq Hmissing.
    change (cwd ++ [".sandbox-temp"; uniq])%list
      with (cwd ++ [".sandbox-temp"] ++ [uniq])%list in *.
    rewrite !walk_app, Hcwd. simpl.
    destruct (lookup_follow (disk w) (cwd ++ [".sandbox-temp"])%list)
      as [[]|] eqn:Htemp; try done.
    rewrite <- app_assoc. by rewrite Hmissing.
Qed.

(** C2. When the worker of a call has not exited by the time the timer
    fires (as with code that never terminates), the runner calls
    [proc.kill()], which sends the worker [SIGTERM], and [executeCode]
    returns, with the failure whose message is
    ["Execution timeout (<timeoutMs/1000>s)"] for the delay of 10000
    milliseconds that [executeCode] passes to the runner and the timer is
    armed with. After the timer the parent sees the exit of the killed
    worker, or nothing more: a worker that has a handler for the signal
    is not ended by it. *)
Theorem timeout_kills_and_reports
    (h : host) (env : call_env) (sb : sandbox) (code : string) (w : world) :
  let p := execFile env sb in
  let spec := "./" ++ basename p in
  let timeoutMs := 10000 in
  let d := <[p := File code]> (disk w) in
  writable (disk w) p ->
  (forall e, fork_outcome env <> ForkThrows e) ->
  TimerFire ∈ run_events h env sb d spec timeoutMs ->
  fst (executeCode h env sb code w)
    = Ok {| success := false;
            output := None;
            error := Some (spec_timeout_message timeoutMs) |}
  /\ killed (final_runner h env sb d spec timeoutMs) = true
  /\ timer (start timeoutMs) = Some timeoutMs
  /\ exists quiet,
       none_settles quiet
       /\ (run_events h env sb d spec timeoutMs = (quiet ++ timed_out)%list
           \/ run_events h env sb d spec timeoutMs
              = (quiet ++ outlived)%list).
Proof.
  intros p spec timeoutMs d [Hdir Hfile] Hfork Hfires.
  destruct (run_events_timer_first h env sb d spec timeoutMs Hfires)
    as (quiet & rest & Hquiet & Hevents & Hrest).
  destruct (run_then_timer (frames h) (mcpClients sb) timeoutMs quiet
              rest Hquiet) as [Hsettled Hkilled].
  assert (settled (final_runner h env sb d spec timeoutMs)
          = Some timeout_result) as Hfinal.
  { unfold final_runner. by rewrite Hevents. }
  split; [| split; [| split; [reflexivity |]]].
  - destruct (executeCode_cases h env sb code w)
      as (r & added & Hrun & Hcases).
    rewrite Hrun. simpl.
    destruct Hcases as [(e & He & _) | [(e & _ & He & _) | (_ & _ & Hr)]].
    + fold p in He. rewrite writeFile_run, Hdir in He. simpl in He.
      destruct (disk w !! p) as [[]|]; done.
    + by destruct (Hfork e).
    + fold p spec d in Hr. unfold timeoutMs in Hfinal.
      rewrite Hfinal in Hr. by injection Hr as <-.
  - unfold final_runner. by rewrite Hevents.
  - exists quiet. split; [done |]. rewrite Hevents.
    destruct Hrest as [-> | ->]; [by left | by right].
Qed.

(** The text the timer callback reports is the same for every delay the
    runner is started with. *)
Lemma timeout_text_fixed (frames : string) (clients : gmap string client)
    (timeout : Z) :
  settled (run frames clients (start timeout) [TimerFire])
  = Some (failure "Execution timeout (10s)").
Proof. reflexivity. Qed.

(** ** Preparing the workspace *)

Lemma strip_prefix_app pre q : strip_prefix pre (pre ++ q)%list = Some q.
Proof.
  induction pre as [| a pre IH]; [done |]. simpl.
  by rewrite String.eqb_refl.
Qed.

Lemma strip_prefix_Some pre p q :
  strip_prefix pre p = Some q -> p = (pre ++ q)%list.
Proof.
  revert p. induction pre as [| a pre IH]; intros p H.
  - simpl in H. by injection H as ->.
  - destruct p as [| b p]; [done |]. simpl in H.
    destruct (String.eqb_spec a b) as [-> | ?]; [| done].
    simpl. f_equal. by apply IH.
Qed.

Lemma copy_fold_lookup (src dst : path) (base m : gmap path node) :
  forall k : path,
  map_fold (fun (k : path) (n : node) (acc : gmap path node) =>
              match strip_prefix src k with
              | Some q => <[(dst ++ q)%list := n]> acc
              | None => acc
              end) base m !! k =
    match strip_prefix dst k with
    | Some q =>
        match m !! (src ++ q)%list with
        | Some n => Some n
        | None => base !! k
        end
    | None => base !! k
    end.
Proof.
  apply (map_fold_weak_ind (fun r m => forall k,
    r !! k = match strip_prefix dst k with
             | Some q => match m !! (src ++ q)%list with
                         | Some n => Some n
                         | None => base !! k
                         end
             | None => base !! k
             end)).
  - intros k. destruct (strip_prefix dst k); by rewrite ?lookup_empty.
  - intros i x m' r Hfresh IH k.
    destruct (strip_prefix src i) as [q0|] eqn:Hi.
    + apply strip_prefix_Some in Hi as ->.
      destruct (decide (k = (dst ++ q0)%list)) as [-> | Hk].
      * by rewrite lookup_insert_eq, strip_prefix_app, lookup_insert_eq.
      * rewrite lookup_insert_ne by done. rewrite IH.
        destruct (strip_prefix dst k) as [q|] eqn:Hq; [| done].
        apply strip_prefix_Some in Hq as ->.
        rewrite lookup_insert_ne; [done |].
        intros H. apply app_inv_head in H. by subst.
    + rewrite IH.
      destruct (strip_prefix dst k) as [q|] eqn:Hq; [| done].
      rewrite lookup_insert_ne; [done |].
      intros ->. by rewrite strip_prefix_app in Hi.
Qed.

(** What a recursive copy leaves at a path: the node from the source tree
    when the path is in the destination tree and the source has a node
    there, what was there before otherwise. *)
Lemma copy_tree_lookup src dst d k :
  copy_tree src dst d !! k =
    match strip_prefix dst k with
    | Some q =>
        match d !! (src ++ q)%list with
        | Some n => Some n
        | None => d !! k
        end
    | None => d !! k
    end.
Proof. apply copy_fold_lookup. Qed.

Lemma code_is_fs_error code syscall p c :
  code_is (fs_error code syscall p) c = String.eqb code c.
Proof. reflexivity. Qed.

(** What [initialize] does between making the directory and writing the
    bootstrap script: the calls it makes and the disk it leaves. *)
Lemma initialize_cases pf target sb w w1 :
  mkdir_p (tempDir sb) w = (Ok tt, w1) ->
  let d1 := disk w1 in
  let link := serversLinkPath sb in
  let try_link := [OpStat target; OpLstat link;
                   OpSymlink target link (linkType pf)] in
  exists d2 linkops,
    initialize pf target sb w
      = writeFile (runnerPath sb) runnerCode
          {| disk := d2; ops := (ops w1 ++ linkops)%list |}
    /\ match lookup_follow d1 target with
       | None => linkops = [OpStat target] /\ d2 = d1
       | Some _ =>
           match d1 !! link with
           | Some Dir | Some (Symlink _) =>
               linkops = [OpStat target; OpLstat link] /\ d2 = d1
           | _ =>
               match symlink_refusal pf d1 link with
               | None =>
                   linkops = try_link /\ d2 = <[link := Symlink target]> d1
               | Some c =>
                   if String.eqb c "EEXIST" then
                     linkops = try_link /\ d2 = d1
                   else if permission_class c then
                     linkops = (try_link ++ [OpCp target link])%list
                     /\ d2 = match copy_fault pf with
                             | None => copy_tree target link d1
                             | Some _ => d1
                             end
                   else
                     (exists text,
                        linkops = (try_link ++ [OpWarn text])%list)
                     /\ d2 = d1
               end
           end
       end.
Proof.
  intros Hmk d1 link try_link.
  unfold initialize.
  unfold mbind at 1. unfold io_bind at 1. rewrite Hmk.
  unfold mbind at 1. unfold io_bind at 1.
  unfold try_catch at 1.
  unfold mbind at 1. unfold io_bind at 1. rewrite stat_run.
  fold d1.
  destruct (lookup_follow d1 target) as [tn|] eqn:Htarget.
  2: { exists d1, [OpStat target]. split; [| done].
       unfold mret, io_ret, logged. simpl. done. }
  unfold mbind at 1. unfold io_bind at 1.
  unfold try_catch, lstat, log, get_disk, throw, mbind, io_bind, mret,
    io_ret, logged.
  simpl. fold link d1.
  assert (d1 !! target <> None) as Hsrc.
  { unfold lookup_follow in Htarget. by destruct (d1 !! target). }
  destruct (d1 !! link) as [[content | | t]|] eqn:Hlink.
  2,3: (exists d1, [OpStat target; OpLstat link]; split; [| done];
        simpl; by rewrite <- !app_assoc).
  all: simpl; unfold symlink, cp_r, log, logged, get_disk, put_disk, throw,
         mbind, io_bind, mret, io_ret; simpl; fold link d1;
       unfold symlink_refusal; rewrite Hlink; fold (linkType pf).
  - exists d1, try_link. split; [| done]. simpl. by rewrite <- !app_assoc.
  - destruct (dir_at d1 (dirname link)); simpl.
    2: { rewrite !code_is_fs_error.
         destruct (lookup_fault_codes d1 link) as [Hcode | Hcode];
           rewrite !Hcode; simpl;
           (eexists d1, (try_link ++ [OpWarn _])%list;
            split; [simpl; by rewrite <- !app_assoc |];
            split; [by eexists | done]). }
    destruct (link_fault pf) as [c|] eqn:Hfault; simpl.
    2: { exists (<[link := Symlink target]> d1), try_link.
         split; [| done]. simpl. by rewrite <- !app_assoc. }
    rewrite !code_is_fs_error. fold (permission_class c).
    destruct (String.eqb c "EEXIST"); simpl.
    { exists d1, try_link. split; [| done]. simpl. by rewrite <- !app_assoc. }
    destruct (permission_class c); simpl.
    2: { exists d1, (try_link ++ [OpWarn ("⚠️ 创建 servers 链接失败: " ++
           message_or_string (fs_error c "symlink" link))])%list.
         split; [simpl; by rewrite <- !app_assoc |]. split; [by eexists | done]. }
    destruct (d1 !! target) eqn:Hsrc'; [| done].
    destruct (copy_fault pf); simpl.
    + exists d1, (try_link ++ [OpCp target link])%list.
      split; [| done]. simpl. by rewrite <- !app_assoc.
    + exists (copy_tree target link d1), (try_link ++ [OpCp target link])%list.
      split; [| done]. simpl. by rewrite <- !app_assoc.
Qed.

Lemma runner_not_under_servers sb q :
  (serversLinkPath sb ++ q)%list <> runnerPath sb.
Proof.
  unfold serversLinkPath, runnerPath. rewrite <- app_assoc.
  intros H. apply app_inv_head in H. discriminate.
Qed.

Lemma writeFile_effect p c w :
  ops (snd (writeFile p c w)) = (ops w ++ [OpWriteFile p c])%list
  /\ forall q, q <> p -> disk (snd (writeFile p c w)) !! q = disk w !! q.
Proof.
  rewrite writeFile_run.
  destruct (dir_at (disk w) (dirname p)); simpl; [| done].
  destruct (disk w !! p) as [[]|]; simpl; split; try done;
    intros q Hq; by rewrite lookup_insert_ne.
Qed.

(** C9. Once the workspace directory is made, [initialize] prepares the
    view of the stub tree as follows, and none of it makes the
    initialization fail.
    - A symbolic link or a directory already at the destination is kept:
      no link and no copy is made, and nothing but the bootstrap script
      changes on disk. This is the state a link or the copy of a directory
      leaves, so a repeated preparation is skipped.
    - Otherwise, when the stub tree exists, a symbolic link to it is
      attempted; when that succeeds the link is in place and nothing is
      copied.
    - When the link is refused with [EPERM], [EACCES] or [ENOSYS], the stub
      tree is copied recursively instead: every node of the tree appears
      at the same place under the destination. A copy is made in no other
      case.
    - When the stub tree does not exist, no link and no copy is tried, and
      the initialization goes on to write the bootstrap script. *)
Theorem workspace_preparation_strategy
    (pf : platform) (target : path) (sb : sandbox) (w w1 : world) :
  mkdir_p (tempDir sb) w = (Ok tt, w1) ->
  let d1 := disk w1 in
  let link := serversLinkPath sb in
  let w' := snd (initialize pf target sb w) in
  let usable := match d1 !! link with
                | Some Dir | Some (Symlink _) => true
                | _ => false
                end in
  exists added,
    ops w' = (ops w1 ++ added)%list
    /\ let links := exists type, OpSymlink target link type ∈ added in
       let copies := OpCp target link ∈ added in
       (usable = true ->
          ¬ links /\ ¬ copies
          /\ forall q, q <> runnerPath sb -> disk w' !! q = d1 !! q)
       /\ (is_Some (lookup_follow d1 target) -> usable = false -> links)
       /\ (is_Some (lookup_follow d1 target) -> usable = false ->
           symlink_refusal pf d1 link = None ->
           ¬ copies /\ disk w' !! link = Some (Symlink target))
       /\ (is_Some (lookup_follow d1 target) -> usable = false ->
           forall code,
             symlink_refusal pf d1 link = Some code ->
             permission_class code = true ->
             copies
             /\ (copy_fault pf = None ->
                 forall q n, d1 !! (target ++ q)%list = Some n ->
                             disk w' !! (link ++ q)%list = Some n))
       /\ (copies ->
           usable = false
           /\ exists code, symlink_refusal pf d1 link = Some code
                           /\ permission_class code = true)
       /\ (lookup_follow d1 target = None ->
           ¬ links /\ ¬ copies
           /\ (forall q, q <> runnerPath sb -> disk w' !! q = d1 !! q)
           /\ fst (initialize pf target sb w)
              = fst (writeFile (runnerPath sb) runnerCode w1)).
Proof.
  intros Hmk d1 link w' usable.
  destruct (initialize_cases pf target sb w w1 Hmk)
    as (d2 & linkops & Hinit & Htable).
  fold d1 link in Htable.
  destruct (writeFile_effect (runnerPath sb) runnerCode
              {| disk := d2; ops := (ops w1 ++ linkops)%list |})
    as [Hops Hframe].
  rewrite <- Hinit in Hops, Hframe. fold w' in Hops, Hframe.
  simpl in Hops, Hframe.
  exists (linkops ++ [OpWriteFile (runnerPath sb) runnerCode])%list.
  split; [by rewrite Hops, app_assoc |].
  assert (forall ty, OpSymlink target link ty ∈
            (linkops ++ [OpWriteFile (runnerPath sb) runnerCode])%list ->
          OpSymlink target link ty ∈ linkops) as Hlinks.
  { intros ty. rewrite elem_of_app, list_elem_of_singleton. by intros [? | ?]. }
  assert (OpCp target link ∈
            (linkops ++ [OpWriteFile (runnerPath sb) runnerCode])%list ->
          OpCp target link ∈ linkops) as Hcopies.
  { rewrite elem_of_app, list_elem_of_singleton. by intros [? | ?]. }
  assert (forall q, (link ++ q)%list <> runnerPath sb) as Hrunner
    by apply runner_not_under_servers.
  assert (link <> runnerPath sb) as Hrunner'.
  { intros H. apply (Hrunner []). by rewrite app_nil_r. }
  assert (fst (initialize pf target sb w)
          = fst (writeFile (runnerPath sb) runnerCode
                   {| disk := d2; ops := (ops w1 ++ linkops)%list |})) as Hres
    by (by rewrite Hinit).
  clearbody w'. clear Hinit Hops.
  unfold usable. cbv zeta.
  destruct (lookup_follow d1 target) as [tn|] eqn:Htarget;
    [destruct (d1 !! link) as [[content | | t]|] eqn:Hlink;
     [destruct (symlink_refusal pf d1 link) as [c|] eqn:Href
     | | | destruct (symlink_refusal pf d1 link) as [c|] eqn:Href] |].
  all: try (destruct (String.eqb c "EEXIST") eqn:Heexist;
            [| destruct (permission_class c) eqn:Hperm]).
  all: destruct Htable as [Hl ->];
       lazymatch type of Hl with
       | ex _ => destruct Hl as [text ->]
       | _ => subst linkops
       end.
  all: try (unfold symlink_refusal in Href; rewrite Hlink in Href;
            first [discriminate | injection Href as <-; try discriminate]).
  all: repeat match goal with
         | |- _ /\ _ => split
         | |- ¬ _ => intro
         | |- _ -> _ => intro
         | |- forall _, _ => intro
         | H : exists _, _ |- _ => destruct H
         | H : _ /\ _ |- _ => destruct H
         | H : Some _ = Some _ |- _ => injection H as H; subst
         | H : is_Some None |- _ => destruct H; discriminate
         end.
  all: try done; try congruence.
  all: try (apply String.eqb_eq in Heexist; subst; discriminate).
  all: try (by apply Hframe).
  all: try (rewrite Hres, !writeFile_run; simpl; fold d1;
            destruct (dir_at d1 (dirname (runnerPath sb))); simpl; [| done];
            by destruct (d1 !! runnerPath sb) as [[]|]).
  all: repeat match goal with
         | H : _ ∈ (_ ++ [OpWriteFile _ _])%list |- _ =>
             first [apply Hcopies in H | apply Hlinks in H]
         end.
  all: try (repeat match goal with
         | H : _ ∈ (_ ++ _)%list |- _ => apply elem_of_app in H as [H | H]
         | H : _ ∈ _ :: _ |- _ =>
             apply elem_of_cons in H as [H | H]; [discriminate |]
         | H : _ ∈ [] |- _ => by apply elem_of_nil in H
         end; fail).
  all: try lazymatch goal with
         | |- exists type, OpSymlink _ _ type ∈ _ => exists (linkType pf)
         | |- exists code, Some _ = Some code /\ _ => eexists; split; [done |]
         end.
  all: try (rewrite ?elem_of_app, ?elem_of_cons; by eauto 10).
  all: rewrite Hframe by done.
  all: try (by rewrite lookup_insert_eq).
  all: match goal with
       | H : copy_fault _ = None |- _ => rewrite H
       end.
  all: match goal with
       | H : _ !! (_ ++ _)%list = Some _ |- _ =>
           by rewrite copy_tree_lookup, strip_prefix_app, H
       end.
Qed.

(** ** Tool calls, from the user code to the client and back *)

Lemma captured_stdout_app events1 events2 :
  captured_stdout (events1 ++ events2)
  = captured_stdout events1 ++ captured_stdout events2.
Proof.
  induction events1 as [| ev events1 IH]; [done |].
  destruct ev; simpl; rewrite ?IH, ?str_app_assoc; done.
Qed.

Lemma captured_stderr_app events1 events2 :
  captured_stderr (events1 ++ events2)
  = captured_stderr events1 ++ captured_stderr events2.
Proof.
  induction events1 as [| ev events1 IH]; [done |].
  destruct ev; simpl; rewrite ?IH, ?str_app_assoc; done.
Qed.

Lemma contains_middle before needle after :
  contains (before ++ needle ++ after) needle.
Proof. by exists before, after. Qed.

Lemma contains_trans hay mid needle :
  contains hay mid -> contains mid needle -> contains hay needle.
Proof.
  intros (b1 & a1 & ->) (b2 & a2 & ->).
  exists (b1 ++ b2), (a2 ++ a1). by rewrite !str_app_assoc.
Qed.

Lemma contains_suffix before needle : contains (before ++ needle) needle.
Proof. exists before, "". by rewrite str_app_nil_r. Qed.

Lemma contains_prefix needle after : contains (needle ++ after) needle.
Proof. by exists "", after. Qed.

Lemma request_envelope id server tool input :
  let req := wire (request id server tool input) in
  has_envelope req = true
  /\ field req "id" = JStr id
  /\ field req "serverName" = JStr server
  /\ field req "toolName" = JStr tool.
Proof. repeat split; reflexivity. Qed.

Section ToolCalls.

Context (frames : string) (clients : gmap string client).

(** A request for a server that is not in the map is answered at once
    with an error that names the server; no client is called. *)
Lemma on_message_not_connected msg server :
  has_envelope msg = true ->
  field msg "serverName" = JStr server ->
  clients !! server = None ->
  on_message frames clients msg
  = Ok {| reply := Some (ipc_error (field msg "id")
                           ("MCP server not connected: " ++ server));
          called := None |}.
Proof.
  intros Henv Hserver Hnone.
  rewrite (on_message_envelope _ _ _ Henv), Hserver.
  unfold get_client. by rewrite Hnone.
Qed.

(** The error response reaches [callMCPTool] as a rejection with the
    same message. *)
Lemma messageHandler_error id message :
  messageHandler frames id (wire (ipc_error (JStr id) message))
  = Ok (Some (Rejected (new_Error message frames))).
Proof.
  unfold messageHandler. cbn. rewrite String.eqb_refl. reflexivity.
Qed.

(** A result with one text item is unwrapped to its text; a result
    flagged as an error becomes a rejection that quotes its content. *)
Lemma messageHandler_text id text :
  messageHandler frames id
    (wire (ipc_result (JStr id) (tool_result false (text_content text))))
  = Ok (Some (Resolved (JStr text))).
Proof.
  unfold messageHandler. cbn. rewrite String.eqb_refl. reflexivity.
Qed.

Lemma messageHandler_tool_error id content :
  content <> JUndefined ->
  messageHandler frames id
    (wire (ipc_result (JStr id) (tool_result true content)))
  = Ok (Some (Rejected (new_Error
       ("Tool call failed: " ++ stringify_text (wire content)) frames))).
Proof.
  intros Hcontent. unfold messageHandler.
  destruct content; try done; cbn; rewrite String.eqb_refl; reflexivity.
Qed.

Lemma on_message_client id server tool input c :
  clients !! server = Some c ->
  let req := wire (request id server tool input) in
  on_message frames clients req
  = Ok match c (field req "toolName") (field req "arguments") with
       | Resolves toolResult =>
           {| reply := Some (ipc_result (JStr id) toolResult);
              called := Some (server, field req "toolName",
                              field req "arguments") |}
       | Rejects e =>
           {| reply := Some (ipc_error (JStr id) (message_or_string e));
              called := Some (server, field req "toolName",
                              field req "arguments") |}
       end.
Proof.
  intros Hc req.
  destruct (request_envelope id server tool input)
    as (Henv & Hid & Hserver & Htool).
  fold req in Henv, Hid, Hserver, Htool.
  rewrite (on_message_envelope _ _ _ Henv), Hserver, Hid.
  unfold get_client. rewrite Hc. by destruct (c _ _).
Qed.

Lemma worker_step_not_connected id server tool input k :
  clients !! server = None ->
  worker_step frames clients true (Call id server tool input k None)
  = Stop (IpcMessage (wire (request id server tool input))
          :: import_failed
               (new_Error ("MCP server not connected: " ++ server) frames)).
Proof.
  intros Hnone. unfold worker_step. cbv zeta.
  destruct (request_envelope id server tool input)
    as (Henv & Hid & Hserver & _).
  rewrite (on_message_not_connected _ server Henv Hserver Hnone), Hid.
  by rewrite messageHandler_error.
Qed.

(** Steps that go on add up: the events of a run are those up to a point
    of the user code, then those from there. *)
Lemma advance_events n : forall has_send p events has_send' p' budget,
  advance frames clients n has_send p = Some (events, has_send', p') ->
  worker_events frames clients (n + budget) has_send p
    = (events ++ worker_events frames clients budget has_send' p')%list
  /\ none_settles events.
Proof.
  induction n as [| n IH]; intros has_send p events has_send' p' budget H.
  - injection H as <- <- <-. split; [done | constructor].
  - simpl in H |- *.
    destruct (worker_step_shape frames clients has_send p)
      as [(evs & hs & next & Hstep & Hq) | (evs & Hstep & _)];
      rewrite Hstep in H |- *; [| done].
    destruct (advance frames clients n hs next) as [[[later hs''] p'']|] eqn:Hn;
      [| done].
    injection H as <- <- <-.
    destruct (IH _ _ _ _ _ budget Hn) as [-> Hlater].
    split; [by rewrite app_assoc | by apply Forall_app].
Qed.

End ToolCalls.

(** ** From the user code to the result of [executeCode] *)

(** A call on an initialized workspace whose worker is started and whose
    user code, after [n] steps within the time allowed, makes a step that
    ends the worker with an exit code: the result is that of the exit
    handler for the output collected up to there. *)
Lemma executeCode_exit h env sb code w n events has_send p' quiet c :
  initialized sb (disk w) ->
  disk w !! execFile env sb <> Some Dir ->
  fork_outcome env = Spawned ->
  advance (frames h) (mcpClients sb) n true (semantics h code)
    = Some (events, has_send, p') ->
  (n < steps_within h 10000)%nat ->
  worker_step (frames h) (mcpClients sb) has_send p'
    = Stop (quiet ++ [ProcExit (Some c)])%list ->
  none_settles quiet ->
  fst (executeCode h env sb code w)
  = Ok (exit_result (Some c) (captured_stdout (events ++ quiet))
                             (captured_stderr (events ++ quiet))).
Proof.
  intros Hinit Hfile Hspawn Hadv Hn Hstep Hquiet.
  pose proof (initialized_writable env sb (disk w) Hinit Hfile) as [Hdir Hw].
  destruct (executeCode_cases h env sb code w)
    as (r & added & Hrun & Hcases).
  rewrite Hrun. simpl.
  destruct Hcases as [(e & He & _) | [(e & _ & He & _) | (_ & _ & Hr)]].
  - rewrite writeFile_run, Hdir in He. simpl in He.
    destruct (disk w !! execFile env sb) as [[]|]; done.
  - congruence.
  - assert (settled (final_runner h env sb
                       (<[execFile env sb := File code]> (disk w))
                       ("./" ++ basename (execFile env sb)) 10000)
            = Some (exit_result (Some c) (captured_stdout (events ++ quiet))
                                         (captured_stderr (events ++ quiet))))
      as Hfinal; [| rewrite Hfinal in Hr; by injection Hr as <-].
    unfold final_runner, run_events. rewrite Hspawn.
    rewrite worker_program_initialized by done.
    replace (steps_within h 10000)
      with (n + S (steps_within h 10000 - S n))%nat by lia.
    destruct (advance_events _ _ _ _ _ _ _ _
                (S (steps_within h 10000 - S n)) Hadv) as [-> Hev].
    cbn [worker_events]. rewrite Hstep, app_assoc.
    apply run_then_exit. by apply Forall_app.
Qed.

Lemma str_app_eq_nil (s1 s2 : string) : s1 ++ s2 = "" -> s2 = "".
Proof. by destruct s1. Qed.

Lemma exit_result_stderr c out err :
  c <> 0 -> err <> "" -> exit_result (Some c) out err = failure err.
Proof.
  intros Hc Herr. rewrite exit_result_failure by congruence.
  unfold or_else. by destruct (String.eqb_spec err "").
Qed.

(** C3. A request that names a server which is not in the map of clients
    is answered in the same run of the handler with an error response
    whose text is ["MCP server not connected: "] followed by the name, and
    no client is called. And when the user code of a call, after some
    steps within the time allowed, awaits a tool of such a server without
    catching what the await throws, [executeCode] returns a failure whose
    error text contains the name. *)
Theorem unconnected_server_reported
    (h : host) (env : call_env) (sb : sandbox) (server : string) :
  mcpClients sb !! server = None ->
  (forall msg,
     has_envelope msg = true ->
     field msg "serverName" = JStr server ->
     on_message (frames h) (mcpClients sb) msg
     = Ok {| reply := Some (ipc_error (field msg "id")
                              ("MCP server not connected: " ++ server));
             called := None |})
  /\ (forall code w n events id tool input k,
        initialized sb (disk w) ->
        disk w !! execFile env sb <> Some Dir ->
        fork_outcome env = Spawned ->
        advance (frames h) (mcpClients sb) n true (semantics h code)
          = Some (events, true, Call id server tool input k None) ->
        (n < steps_within h 10000)%nat ->
        exists text,
          fst (executeCode h env sb code w)
            = Ok {| success := false; output := None; error := Some text |}
          /\ contains text ("MCP server not connected: " ++ server)
          /\ contains text server).
Proof.
  intros Hnone. split.
  - intros msg Henv Hserver. by apply on_message_not_connected.
  - intros code w n events id tool input k Hinit Hfile Hspawn Hadv Hn.
    pose (e := new_Error ("MCP server not connected: " ++ server) (frames h)).
    pose (req := IpcMessage (wire (request id server tool input))).
    pose proof (executeCode_exit h env sb code w n events true
                  (Call id server tool input k None)
                  [req; StderrData (thr_inspect e ++ nl)] 1
                  Hinit Hfile Hspawn Hadv Hn) as Hexit.
    rewrite Hexit.
    2: { by apply worker_step_not_connected. }
    2: { by repeat constructor. }
    rewrite captured_stderr_app.
    change (captured_stderr [req; StderrData (thr_inspect e ++ nl)])
      with ((thr_inspect e ++ nl) ++ "").
    rewrite str_app_nil_r.
    exists (captured_stderr events ++ thr_inspect e ++ nl).
    assert (contains (captured_stderr events ++ thr_inspect e ++ nl)
              ("MCP server not connected: " ++ server)) as Hcontains.
    { eapply contains_trans; [apply contains_middle |].
      apply (contains_middle "Error: "). }
    split; [| split; [exact Hcontains |]].
    + f_equal. apply exit_result_stderr; [done |].
      intros H%str_app_eq_nil%str_app_eq_nil. discriminate.
    + eapply contains_trans; [exact Hcontains | apply contains_suffix].
Qed.

Lemma contains_refl s : contains s s.
Proof. exists "", "". by rewrite str_app_nil_r. Qed.

Lemma contains_app_l s1 s2 needle :
  contains s1 needle -> contains (s1 ++ s2) needle.
Proof.
  intros (b & a & ->). exists b, (a ++ s2). by rewrite !str_app_assoc.
Qed.

Lemma contains_app_r s1 s2 needle :
  contains s2 needle -> contains (s1 ++ s2) needle.
Proof.
  intros (b & a & ->). exists (s1 ++ b), a. by rewrite !str_app_assoc.
Qed.

Ltac find_in :=
  first [ apply contains_refl
        | apply contains_app_l; find_in
        | apply contains_app_r; find_in ].

Lemma escape_char_plain c :
  plain_char c = true -> escape_char c = String c EmptyString.
Proof.
  unfold plain_char, escape_char.
  destruct (Nat.ltb_spec (nat_of_ascii c) 32) as [Hlt | Hge]; [done |].
  destruct (Nat.eqb_spec (nat_of_ascii c) 34) as [? | H34]; [done |].
  destruct (Nat.eqb_spec (nat_of_ascii c) 92) as [? | H92]; [done |].
  intros _.
  destruct (Nat.eqb_spec (nat_of_ascii c) 8); [lia |].
  destruct (Nat.eqb_spec (nat_of_ascii c) 12); [lia |].
  destruct (Nat.eqb_spec (nat_of_ascii c) 10); [lia |].
  destruct (Nat.eqb_spec (nat_of_ascii c) 13); [lia |].
  destruct (Nat.eqb_spec (nat_of_ascii c) 9); [lia |].
  done.
Qed.

Lemma escape_plain s : plain s = true -> escape s = s.
Proof.
  induction s as [| c s IH]; [done |]. simpl.
  intros [Hc Hs]%andb_true_iff.
  by rewrite escape_char_plain, IH.
Qed.

(** The text [JSON.stringify] gives for a content list with one text item
    holds the text as a JSON string, so the text itself when none of its
    characters is escaped. *)
Lemma stringify_text_content text :
  contains (stringify_text (text_content text)) (quote text)
  /\ (plain text = true ->
      contains (stringify_text (text_content text)) text).
Proof.
  assert (contains (stringify_text (text_content text)) (quote text)) as H.
  { unfold stringify_text, text_content. cbn. unfold join. cbn. find_in. }
  split; [exact H |].
  intros Hplain. eapply contains_trans; [exact H |].
  unfold quote. rewrite escape_plain by done. find_in.
Qed.

(** ** The statements at sample inputs *)

Lemma sample_ready : initialized Sample.sb (disk Sample.ready).
Proof. repeat split; [discriminate | vm_compute; reflexivity ..]. Defined.

Lemma sample_exec_fresh :
  disk Sample.ready !! execFile Sample.env Sample.sb <> Some Dir.
Proof. vm_compute. discriminate. Defined.

Lemma timeout_kills_and_reports_witness :
  fst (executeCode Sample.host Sample.env Sample.sb "while (true) {}"
         Sample.ready)
  = Ok {| success := false; output := None;
          error := Some "Execution timeout (10s)" |}.
Proof.
  apply (timeout_kills_and_reports Sample.host Sample.env Sample.sb
           "while (true) {}" Sample.ready).
  - split; [vm_compute; reflexivity | exact sample_exec_fresh].
  - intros e. discriminate.
  - assert (run_events Sample.host Sample.env Sample.sb
              (<[execFile Sample.env Sample.sb := File "while (true) {}"]>
                 (disk Sample.ready))
              ("./" ++ basename (execFile Sample.env Sample.sb)) 10000
            = [TimerFire; ProcExit None]) as ->
      by (vm_compute; reflexivity).
    apply elem_of_cons. by left.
Defined.

(** User code that handles [SIGTERM] is still running when the call has
    returned the timeout failure: [proc.kill()] was called, and no exit
    of the worker follows. *)
Lemma trapped_signal_outlives_timeout :
  run_events Cases.host Sample.env Sample.sb
    (<[execFile Sample.env Sample.sb := File Cases.stubborn_code]>
       (disk Sample.ready))
    ("./" ++ basename (execFile Sample.env Sample.sb)) 10000
  = [TimerFire]
  /\ (forall c,
        ProcExit c
        ∉ run_events Cases.host Sample.env Sample.sb
            (<[execFile Sample.env Sample.sb := File Cases.stubborn_code]>
               (disk Sample.ready))
            ("./" ++ basename (execFile Sample.env Sample.sb)) 10000)
  /\ killed (final_runner Cases.host Sample.env Sample.sb
               (<[execFile Sample.env Sample.sb := File Cases.stubborn_code]>
                  (disk Sample.ready))
               ("./" ++ basename (execFile Sample.env Sample.sb)) 10000)
     = true
  /\ fst (executeCode Cases.host Sample.env Sample.sb Cases.stubborn_code
            Sample.ready)
     = Ok {| success := false; output := None;
             error := Some "Execution timeout (10s)" |}.
Proof.
  assert (run_events Cases.host Sample.env Sample.sb
            (<[execFile Sample.env Sample.sb := File Cases.stubborn_code]>
               (disk Sample.ready))
            ("./" ++ basename (execFile Sample.env Sample.sb)) 10000
          = [TimerFire]) as Hevents by (vm_compute; reflexivity).
  split; [exact Hevents |]. split; [| split].
  - intros c. rewrite Hevents. intros H.
    apply list_elem_of_singleton in H. discriminate.
  - vm_compute. reflexivity.
  - vm_compute. reflexivity.
Qed.

Lemma unconnected_server_reported_witness :
  exists text,
    fst (executeCode Sample.host Sample.env Sample.sb "await nope.tool({})"
           Sample.ready)
    = Ok {| success := false; output := None; error := Some text |}
    /\ contains text "nope".
Proof.
  assert (mcpClients Sample.sb !! "nope" = None) as Hnone
    by (vm_compute; reflexivity).
  destruct (unconnected_server_reported Sample.host Sample.env Sample.sb
              "nope" Hnone) as [_ Hcall].
  destruct (Hcall "await nope.tool({})" Sample.ready 0%nat []
              Sample.call_id "tool" (JObj []) (fun _ => Finish))
    as (text & Hresult & _ & Hname).
  - exact sample_ready.
  - exact sample_exec_fresh.
  - reflexivity.
  - reflexivity.
  - vm_compute. lia.
  - exists text. split; [exact Hresult | exact Hname].
Defined.

(** User code that catches what the call on a server that is not
    connected throws goes on, and the call of [executeCode] succeeds. *)
Lemma caught_rejection_succeeds :
  mcpClients Sample.sb !! "nope" = None
  /\ advance (frames Sample.host) (mcpClients Sample.sb) 0 true
       (semantics Sample.host
          "try { await nope.tool({}) } catch { console.log('recovered') }")
     = Some ([], true,
             Call Sample.call_id "nope" "tool" (JObj []) (fun _ => Finish)
                  (Some (fun _ => Print "recovered" Finish)))
  /\ fst (executeCode Sample.host Sample.env Sample.sb
            "try { await nope.tool({}) } catch { console.log('recovered') }"
            Sample.ready)
     = Ok {| success := true; output := Some ("recovered" ++ nl);
             error := None |}.
Proof. repeat split; vm_compute; reflexivity. Qed.

Lemma workspace_preparation_strategy_witness :
  disk Sample.ready !! serversLinkPath Sample.sb
  = Some (Symlink Sample.target).
Proof.
  assert (mkdir_p (tempDir Sample.sb) Sample.fresh = (Ok tt, Sample.made))
    as Hmk by (vm_compute; reflexivity).
  destruct (workspace_preparation_strategy Sample.linux Sample.target
              Sample.sb Sample.fresh Sample.made Hmk)
    as (added & _ & _ & _ & Hlinked & _).
  apply Hlinked.
  - vm_compute. eauto.
  - vm_compute. reflexivity.
  - vm_compute. reflexivity.
Defined.

Lemma uninitialized_call_fails_witness :
  fst (executeCode Sample.host Sample.env Sample.sb "console.log('hi')"
         {| disk := ∅; ops := [] |})
  = Ok {| success := false; output := None;
          error := Some
            ("ENOENT: no such file or directory, open '"
             ++ render (execFile Sample.env Sample.sb) ++ "'") |}.
Proof.
  destruct (uninitialized_call_fails Sample.host Sample.env Sample.clients
              ["home"; "project"] 4242 1699999999000 "a1b2c3"
              "console.log('hi')" {| disk := ∅; ops := [] |}) as [Hrun _].
  - intros q _. apply lookup_empty.
  - fold Sample.sb in Hrun. rewrite Hrun. reflexivity.
Defined.




(** ** Requests and responses *)

Section Responses.

Context (frames : string) (clients : gmap string client).

Lemma on_message_answers msg :
  has_envelope msg = true ->
  exists resp c,
    on_message frames clients msg = Ok {| reply := Some resp; called := c |}
    /\ answers msg resp.
Proof.
  intros Henv. rewrite (on_message_envelope _ _ _ Henv).
  destruct (get_client clients (field msg "serverName")) as [c|].
  - destruct (c _ _); eexists _, _; (split; [reflexivity |]);
      split; simpl; eauto.
  - eexists _, _. split; [reflexivity |]. split; simpl; eauto.
Qed.

Lemma requests_message msg :
  requests [IpcMessage msg] = if has_envelope msg then [msg] else [].
Proof.
  unfold requests, has_envelope. simpl.
  by destruct (truthy msg && is_str (field msg "type") "callMCPTool").
Qed.

Lemma step_sent r ev :
  exists replies,
    sent (step frames clients r ev) = (sent r ++ replies)%list
    /\ Forall2 answers (requests [ev]) replies.
Proof.
  destruct ev as [chunk | chunk | | msg | code | err];
    try (exists []; split; [| constructor]; simpl; rewrite app_nil_r).
  - done.
  - done.
  - destruct (timer r); [| done].
    unfold resolve. simpl. by destruct (settled r).
  - rewrite requests_message.
    destruct (has_envelope msg) eqn:Henv.
    + destruct (on_message_answers msg Henv) as (resp & c & Hresp & Hans).
      exists [resp]. simpl. rewrite Hresp. split; [done |].
      constructor; [exact Hans | constructor].
    + exists []. rewrite (step_message_no_envelope _ _ _ _ Henv).
      split; [by rewrite app_nil_r | constructor].
  - unfold resolve. simpl. by destruct (settled r).
  - unfold resolve. simpl. by destruct (settled r).
Qed.

Lemma requests_cons ev events :
  requests (ev :: events) = (requests [ev] ++ requests events)%list.
Proof. unfold requests. simpl. by destruct ev; [| | | destruct (has_envelope msg) | |]. Qed.

Lemma run_sent events : forall r,
  exists replies,
    sent (run frames clients r events) = (sent r ++ replies)%list
    /\ Forall2 answers (requests events) replies.
Proof.
  induction events as [| ev events IH]; intros r.
  - exists []. split; [by rewrite app_nil_r | constructor].
  - rewrite run_cons, requests_cons.
    destruct (step_sent r ev) as (first & Hfirst & Hans).
    destruct (IH (step frames clients r ev)) as (later & -> & Hlater).
    exists (first ++ later)%list. rewrite Hfirst, app_assoc.
    split; [done | by apply Forall2_app].
Qed.

End Responses.

(** X1. Every request the worker sends is answered, the call of the
    client being taken to settle: in every run the runner sends as many
    responses as it got messages with the envelope, each request has a
    response with its id that is a result or an error, and each response
    has the id of a request. *)
Theorem every_request_answered
    (frames : string) (clients : gmap string client) (timeout : Z)
    (events : list proc_event) :
  let final := run frames clients (start timeout) events in
  length (sent final) = length (requests events)
  /\ (forall msg, msg ∈ requests events ->
        exists resp, resp ∈ sent final /\ answers msg resp)
  /\ (forall resp, resp ∈ sent final ->
        exists msg, msg ∈ requests events /\ answers msg resp).
Proof.
  intros final.
  destruct (run_sent frames clients events (start timeout))
    as (replies & Hsent & Hans).
  unfold final. rewrite Hsent. simpl.
  split; [symmetry; by eapply Forall2_length |].
  split.
  - intros msg Hin.
    destruct (list_elem_of_lookup_1 _ _ Hin) as [i Hi].
    destruct (Forall2_lookup_l _ _ _ _ _ Hans Hi) as (resp & Hresp & Hok).
    exists resp. split; [by eapply list_elem_of_lookup_2 | done].
  - intros resp Hin.
    destruct (list_elem_of_lookup_1 _ _ Hin) as [i Hi].
    destruct (Forall2_lookup_r _ _ _ _ _ Hans Hi) as (msg & Hmsg & Hok).
    exists msg. split; [by eapply list_elem_of_lookup_2 | done].
Qed.

(** ** When the worker is killed *)

Section Kill.

Context (frames : string) (clients : gmap string client).

Lemma step_killed_quiet r ev :
  settles ev = false -> killed (step frames clients r ev) = killed r.
Proof.
  destruct ev; simpl; try discriminate; intros _; try done.
  by destruct (on_message frames clients msg).
Qed.

Lemma run_killed_quiet events : forall r,
  none_settles events -> killed (run frames clients r events) = killed r.
Proof.
  induction events as [| ev events IH]; intros r Hq; [done |].
  apply Forall_cons in Hq as [Hev Hq].
  by rewrite run_cons, IH, step_killed_quiet.
Qed.

Lemma step_killed_disarmed r ev :
  timer r = None -> killed (step frames clients r ev) = killed r.
Proof.
  intros Htimer. destruct ev; simpl; try done.
  - by rewrite Htimer.
  - by destruct (on_message frames clients msg).
  - by rewrite resolve_killed.
  - by rewrite resolve_killed.
Qed.

Lemma run_killed_disarmed events : forall r,
  timer r = None -> killed (run frames clients r events) = killed r.
Proof.
  induction events as [| ev events IH]; intros r Htimer; [done |].
  rewrite run_cons, IH by (by apply step_keeps_disarmed).
  by apply step_killed_disarmed.
Qed.

End Kill.

(** Every sequence of events either has no event that settles the
    promise, or has a first one. *)
Lemma first_settling_event events :
  none_settles events
  \/ exists quiet ev rest,
       events = (quiet ++ ev :: rest)%list
       /\ none_settles quiet /\ settles ev = true.
Proof.
  induction events as [| ev events IH]; [left; constructor |].
  destruct (settles ev) eqn:Hev.
  - right. exists [], ev, events. repeat split; [constructor | done].
  - destruct IH as [Hq | (quiet & ev' & rest & -> & Hq & Hev')].
    + left. by constructor.
    + right. exists (ev :: quiet), ev', rest.
      repeat split; [by constructor | done].
Qed.

(** X2. The runner kills the worker in exactly one case: the timer fires
    before the worker has exited and before an error event. A worker that
    exits first, or whose spawn fails, is never killed, whatever comes
    later. *)
Theorem killed_exactly_on_timeout
    (frames : string) (clients : gmap string client) (timeout : Z)
    (events : list proc_event) :
  killed (run frames clients (start timeout) events) = true
  <-> exists quiet rest,
        events = (quiet ++ TimerFire :: rest)%list /\ none_settles quiet.
Proof.
  split.
  - intros Hkilled.
    destruct (first_settling_event events)
      as [Hq | (quiet & ev & rest & -> & Hq & Hev)].
    + by rewrite run_killed_quiet in Hkilled.
    + destruct ev; try discriminate.
      * by exists quiet, rest.
      * exfalso. rewrite run_app, run_cons in Hkilled.
        rewrite run_killed_disarmed in Hkilled
          by (simpl; by rewrite resolve_timer).
        simpl in Hkilled. rewrite resolve_killed in Hkilled. simpl in Hkilled.
        by rewrite run_killed_quiet in Hkilled.
      * exfalso. rewrite run_app, run_cons in Hkilled.
        rewrite run_killed_disarmed in Hkilled
          by (simpl; by rewrite resolve_timer).
        simpl in Hkilled. rewrite resolve_killed in Hkilled. simpl in Hkilled.
        by rewrite run_killed_quiet in Hkilled.
  - intros (quiet & rest & -> & Hq).
    by destruct (run_then_timer frames clients timeout quiet rest Hq).
Qed.

Lemma killed_exactly_on_timeout_witness :
  killed (run "" ∅ (start 10000)
            [StdoutData "a"; TimerFire; ProcExit None]) = true.
Proof.
  apply (killed_exactly_on_timeout "" ∅ 10000
           [StdoutData "a"; TimerFire; ProcExit None]).
  exists [StdoutData "a"], [ProcExit None].
  split; [reflexivity | repeat constructor].
Defined.

Lemma every_request_answered_witness :
  length (sent (run "" ∅ (start 10000)
                  [IpcMessage JNull;
                   IpcMessage (wire (request "7" "nope" "tool" (JObj [])))]))
  = 1%nat.
Proof.
  destruct (every_request_answered "" ∅ 10000
              [IpcMessage JNull;
               IpcMessage (wire (request "7" "nope" "tool" (JObj [])))])
    as [Hcount _].
  exact Hcount.
Defined.

(** ** What settles the promise of a tool call *)

(** X3. The promise of a call is settled only by a message that carries
    the id of its request and is a result or an error: a falsy message and
    a message with another id are passed over without an exception, and
    whatever settles the promise has the id and one of the two types. *)
Theorem settled_by_own_response_only (frames id : string) (msg : jsval) :
  (truthy msg = false \/ field msg "id" <> JStr id ->
   messageHandler frames id msg = Ok None)
  /\ (forall s,
        messageHandler frames id msg = Ok (Some s) ->
        truthy msg = true
        /\ field msg "id" = JStr id
        /\ (field msg "type" = JStr "result"
            \/ field msg "type" = JStr "error")).
Proof.
  assert (forall v s, is_str v s = true -> v = JStr s) as Hstr.
  { intros v s. destruct v; simpl; try discriminate.
    by intros ->%String.eqb_eq. }
  assert (truthy msg = false \/ field msg "id" <> JStr id ->
          messageHandler frames id msg = Ok None) as Hskip.
  { unfold messageHandler. intros [Hf | Hid].
    - by rewrite Hf.
    - destruct (truthy msg) eqn:Ht; [| done]. simpl.
      repeat rewrite (prop_truthy _ _ _ Ht). cbn.
      destruct (is_str (field msg "id") id) eqn:His; [| done].
      by apply Hstr in His. }
  split; [exact Hskip |].
  intros s Hs.
  destruct (truthy msg) eqn:Ht; [| rewrite Hskip in Hs by eauto; done].
  destruct (is_str (field msg "id") id) eqn:His.
  2: { rewrite Hskip in Hs; [done |]. right. intros H. rewrite H in His.
       simpl in His. by rewrite String.eqb_refl in His. }
  split; [done |]. split; [by apply Hstr |].
  unfold messageHandler in Hs. rewrite Ht in Hs. simpl in Hs.
  repeat rewrite (prop_truthy _ _ _ Ht) in Hs. cbn in Hs. rewrite His in Hs.
  simpl in Hs.
  destruct (is_str (field msg "type") "result") eqn:Hres;
    [left; by apply Hstr |].
  destruct (is_str (field msg "type") "error") eqn:Herr;
    [right; by apply Hstr | done].
Qed.

Lemma settled_by_own_response_only_witness :
  messageHandler "" "7" (wire (ipc_error (JStr "8") "late")) = Ok None.
Proof.
  apply (settled_by_own_response_only "" "7"
           (wire (ipc_error (JStr "8") "late"))).
  right. discriminate.
Defined.

(** ** Results on their way to the user code *)

Section Results.

Context (frames : string) (clients : gmap string client).

(** A result response is taken apart as follows by the handler of the
    call it answers. *)
Lemma messageHandler_result id data :
  messageHandler frames id (wire (ipc_result (JStr id) data))
  = let response := wire data in
    if truthy response && typeof_object response
       && has_field response "content" then
      isError ← prop frames response "isError";
      content ← prop frames response "content";
      if truthy isError then
        mret (Some (Rejected
          (new_Error ("Tool call failed: " ++ stringify_text content) frames)))
      else
        match content with
        | JArr items =>
            texts ← filter_text frames items;
            mret (Some (Resolved (JStr
              (array_join nl (map (fun item => field item "text") texts)))))
        | JUndefined =>
            Throw (new_TypeError
              "Cannot read properties of undefined (reading 'filter')" frames)
        | JNull =>
            Throw (new_TypeError
              "Cannot read properties of null (reading 'filter')" frames)
        | _ =>
            Throw (new_TypeError
              "response.content.filter is not a function" frames)
        end
    else
      mret (Some (Resolved
        (match stringify response with
         | Some s => JStr s
         | None => JUndefined
         end))).
Proof.
  set (msg := wire (ipc_result (JStr id) data)).
  assert (truthy msg = true) as Ht by reflexivity.
  assert (field msg "id" = JStr id) as Hid by (by destruct data).
  assert (field msg "type" = JStr "result") as Hty by (by destruct data).
  assert (field msg "data" = wire data) as Hdata by (by destruct data).
  clearbody msg. unfold messageHandler. rewrite Ht. simpl negb. cbv iota.
  repeat rewrite (prop_truthy _ _ _ Ht). rewrite Hid, Hty, Hdata.
  cbn [mbind res_bind is_str]. rewrite String.eqb_refl. simpl negb. cbv iota.
  reflexivity.
Qed.

Lemma wire_content_items items :
  wire (JArr (map content_item items)) = JArr (map content_item items).
Proof.
  simpl. f_equal. rewrite map_map. apply map_ext. by intros [ty text].
Qed.

Lemma filter_text_items (items : list (string * string)) :
  filter_text frames (map content_item items)
  = Ok (map content_item (filter (fun it => it.1 = "text") items)).
Proof.
  induction items as [| [ty text] items IH]; [done |].
  simpl. rewrite IH. simpl. rewrite filter_cons. simpl.
  destruct (String.eqb_spec ty "text") as [-> | Hne].
  - by rewrite decide_True.
  - by rewrite decide_False.
Qed.

Lemma array_join_texts (items : list (string * string)) :
  array_join nl (map (fun item => field item "text") (map content_item items))
  = join nl (map snd items).
Proof.
  unfold array_join. f_equal. rewrite !map_map. apply map_ext.
  by intros [ty text].
Qed.

Lemma messageHandler_items id items :
  messageHandler frames id
    (wire (ipc_result (JStr id)
             (tool_result false (JArr (map content_item items)))))
  = Ok (Some (Resolved (JStr (join nl (texts_of items))))).
Proof.
  rewrite messageHandler_result.
  change (wire (tool_result false (JArr (map content_item items))))
    with (JObj [("content", wire (JArr (map content_item items)));
                ("isError", JBool false)]).
  rewrite wire_content_items. cbn -[filter_text array_join].
  rewrite filter_text_items. cbn -[array_join].
  by rewrite array_join_texts.
Qed.

End Results.

(** C4. When the client resolves the call of a request with a result that
    is not flagged as an error and whose content is one text item, the
    user code that awaits the call goes on with exactly that text. When
    the result has a content and is flagged as an error, the await
    throws an [Error] whose message is ["Tool call failed: "] and what
    [JSON.stringify] makes of the content: an enclosing handler is entered
    with it, and without one the worker ends as [runner.mjs] ends it
    after a failed import; [executeCode] then returns a failure whose
    error text contains that JSON text. For a content that is one text
    item, that is the text of the provider as a JSON string, and the text
    itself only when none of its characters is escaped. A result without
    a content is not read as a tool result, flagged or not: the await
    does not throw and the user code goes on. *)
Theorem tool_result_round_trip
    (h : host) (env : call_env) (sb : sandbox)
    (id server tool : string) (input : jsval)
    (c : jsval -> jsval -> call_outcome) (text : string) (data : jsval) :
  mcpClients sb !! server = Some c ->
  let req := wire (request id server tool input) in
  let step := worker_step (frames h) (mcpClients sb) true in
  let response := wire data in
  let content := field response "content" in
  let thrown_error :=
    new_Error ("Tool call failed: " ++ stringify_text content) (frames h) in
  (c (field req "toolName") (field req "arguments")
     = Resolves (tool_result false (text_content text)) ->
   forall k handler,
     step (Call id server tool input k handler)
     = Continue [IpcMessage req] true (k (JStr text)))
  /\ (c (field req "toolName") (field req "arguments") = Resolves data ->
      has_field response "content" = true ->
      truthy (field response "isError") = true ->
      exact data = true ->
      (forall k handler,
         step (Call id server tool input k (Some handler))
         = Continue [IpcMessage req] true (handler thrown_error))
      /\ (forall k,
            step (Call id server tool input k None)
            = Stop (IpcMessage req :: import_failed thrown_error))
      /\ (forall code w n events k,
            initialized sb (disk w) ->
            disk w !! execFile env sb <> Some Dir ->
            fork_outcome env = Spawned ->
            advance (frames h) (mcpClients sb) n true (semantics h code)
              = Some (events, true, Call id server tool input k None) ->
            (n < steps_within h 10000)%nat ->
            exists message,
              fst (executeCode h env sb code w)
                = Ok {| success := false; output := None;
                        error := Some message |}
              /\ contains message (stringify_text content)
              /\ (content = text_content text ->
                  contains message (quote text)
                  /\ (plain text = true -> contains message text))))
  /\ (c (field req "toolName") (field req "arguments") = Resolves data ->
      has_field response "content" = false ->
      forall k handler,
        exists v,
          step (Call id server tool input k handler)
          = Continue [IpcMessage req] true (k v)).
Proof.
  intros Hc req step response content thrown_error.
  pose proof (on_message_client (frames h) (mcpClients sb)
                id server tool input c Hc) as Hparent.
  fold req in Hparent. cbv zeta in Hparent.
  split; [| split].
  - intros Hok k handler. unfold step, worker_step. fold req.
    rewrite Hparent, Hok. by rewrite messageHandler_text.
  - intros Hres Hcontent Hflag _.
    assert (forall k handler,
              step (Call id server tool input k handler)
              = match handler with
                | Some hdl => Continue [IpcMessage req] true (hdl thrown_error)
                | None => Stop (IpcMessage req :: import_failed thrown_error)
                end) as Hstep.
    { intros k handler. unfold step, worker_step. fold req.
      rewrite Hparent, Hres. rewrite messageHandler_result. cbv zeta.
      fold response. rewrite Hcontent.
      assert (exists fields, response = JObj fields) as [fields Hobj].
      { destruct response; try discriminate. by eexists. }
      assert (truthy response && typeof_object response = true) as ->
        by (by rewrite Hobj).
      assert (forall k0, prop (frames h) response k0 = Ok (field response k0))
        as Hprop by (intros k0; by rewrite Hobj).
      rewrite !Hprop. cbn [andb mbind res_bind]. by rewrite Hflag. }
    split; [intros k handler; apply Hstep |].
    split; [intros k; apply Hstep |].
    intros code w n events k Hinit Hfile Hspawn Hadv Hn.
    pose proof (executeCode_exit h env sb code w n events true
                  (Call id server tool input k None)
                  [IpcMessage req; StderrData (thr_inspect thrown_error ++ nl)]
                  1 Hinit Hfile Hspawn Hadv Hn) as Hexit.
    rewrite Hexit.
    2: { apply Hstep. }
    2: { by repeat constructor. }
    rewrite captured_stderr_app.
    change (captured_stderr
              [IpcMessage req; StderrData (thr_inspect thrown_error ++ nl)])
      with ((thr_inspect thrown_error ++ nl) ++ "").
    rewrite str_app_nil_r.
    exists (captured_stderr events ++ thr_inspect thrown_error ++ nl).
    assert (contains (captured_stderr events ++ thr_inspect thrown_error ++ nl)
              (stringify_text content)) as Hcontains.
    { unfold thrown_error, new_Error. cbn [thr_inspect]. find_in. }
    split; [| split; [exact Hcontains |]].
    + f_equal. apply exit_result_stderr; [done |].
      intros H%str_app_eq_nil%str_app_eq_nil. discriminate.
    + intros Htext. rewrite Htext in Hcontains.
      destruct (stringify_text_content text) as [Hquoted Hplain].
      split.
      * eapply contains_trans; [exact Hcontains | exact Hquoted].
      * intros Hp. eapply contains_trans; [exact Hcontains | by apply Hplain].
  - intros Hres Hcontent k handler. eexists.
    unfold step, worker_step. fold req.
    rewrite Hparent, Hres. rewrite messageHandler_result. cbv zeta.
    fold response. rewrite Hcontent. by rewrite andb_false_r.
Qed.

Lemma tool_result_round_trip_witness :
  exists message,
    fst (executeCode Sample.host Sample.env Sample.sb
           "await fs.readFile({ path: 'missing.txt' })" Sample.ready)
      = Ok {| success := false; output := None; error := Some message |}
    /\ contains message
         "ENOENT: no such file or directory, open 'missing.txt'".
Proof.
  assert (mcpClients Sample.sb !! "filesystem" = Some Sample.filesystem)
    as Hc by (vm_compute; reflexivity).
  destruct (tool_result_round_trip Sample.host Sample.env Sample.sb
              Sample.call_id "filesystem" "read_file"
              (JObj [("path", JStr "missing.txt")]) Sample.filesystem
              "ENOENT: no such file or directory, open 'missing.txt'"
              (tool_result true
                 (text_content
                    "ENOENT: no such file or directory, open 'missing.txt'"))
              Hc) as (_ & Hflagged & _).
  destruct Hflagged as (_ & _ & Hrun);
    [reflexivity | reflexivity | reflexivity | reflexivity |].
  destruct (Hrun "await fs.readFile({ path: 'missing.txt' })" Sample.ready
              0%nat [] (fun _ => Finish))
    as (message & Hresult & _ & Htext).
  - exact sample_ready.
  - exact sample_exec_fresh.
  - reflexivity.
  - reflexivity.
  - vm_compute. lia.
  - exists message. split; [exact Hresult |].
    destruct (Htext eq_refl) as [_ Hplain]. by apply Hplain.
Defined.

(** A result that is flagged as an error and has no content does not make
    the await throw: the user code goes on with the JSON text of the
    result, and the execution succeeds. *)
Lemma flagged_result_without_content_resolves :
  Cases.bare (JStr "run") (JObj []) = Resolves (JObj [("isError", JBool true)])
  /\ fst (executeCode Cases.host Sample.env Cases.sb Cases.bare_code
            Sample.ready)
     = Ok {| success := true;
             output := Some ("{" ++ quote "isError" ++ ":true}" ++ nl);
             error := None |}.
Proof. split; vm_compute; reflexivity. Qed.

(** X4. When the client resolves a call with a result that is not flagged
    as an error, the user code that awaits the call goes on with the texts
    of the content items whose type is ["text"], in their order and joined
    by line feeds; items of other types are left out, and a content with
    no text item gives the empty string. *)
Theorem text_items_joined
    (frames : string) (clients : gmap string client)
    (id server tool : string) (input : jsval)
    (c : jsval -> jsval -> call_outcome) (items : list (string * string)) :
  clients !! server = Some c ->
  let req := wire (request id server tool input) in
  c (field req "toolName") (field req "arguments")
    = Resolves (tool_result false (JArr (map content_item items))) ->
  forall k handler,
    worker_step frames clients true (Call id server tool input k handler)
    = Continue [IpcMessage req] true (k (JStr (join nl (texts_of items)))).
Proof.
  intros Hc req Hres k handler.
  pose proof (on_message_client frames clients id server tool input c Hc)
    as Hparent.
  fold req in Hparent. cbv zeta in Hparent.
  unfold worker_step. fold req. rewrite Hparent, Hres.
  by rewrite messageHandler_items.
Qed.

(** X5. A result that has no [content] (the channel drops a content that
    is [undefined]) is not read as a tool result: the user code goes on
    with its JSON text, also when the result is flagged as an error, so
    the await does not throw. The text is said for results whose numbers
    are integers that a double holds exactly. *)
Theorem result_without_content_is_serialized
    (frames : string) (clients : gmap string client)
    (id server tool : string) (input : jsval)
    (c : jsval -> jsval -> call_outcome) (data : jsval) :
  clients !! server = Some c ->
  let req := wire (request id server tool input) in
  c (field req "toolName") (field req "arguments") = Resolves data ->
  has_field (wire data) "content" = false ->
  exact data = true ->
  forall k handler,
    worker_step frames clients true (Call id server tool input k handler)
    = Continue [IpcMessage req] true
        (k (match stringify (wire data) with
            | Some s => JStr s
            | None => JUndefined
            end)).
Proof.
  intros Hc req Hres Hcontent _ k handler.
  pose proof (on_message_client frames clients id server tool input c Hc)
    as Hparent.
  fold req in Hparent. cbv zeta in Hparent.
  unfold worker_step. fold req. rewrite Hparent, Hres.
  rewrite messageHandler_result. cbv zeta. rewrite Hcontent.
  by rewrite andb_false_r.
Qed.

Lemma text_items_joined_witness :
  worker_step "" Cases.clients true
    (Call "7" "gallery" "show" (JObj []) (fun v => Print (to_string v) Finish)
          None)
  = Continue [IpcMessage (wire (request "7" "gallery" "show" (JObj [])))] true
      (Print ("first" ++ nl ++ "second") Finish).
Proof.
  apply (text_items_joined "" Cases.clients "7" "gallery" "show" (JObj [])
           Cases.gallery
           [("text", "first"); ("image", "data"); ("text", "second")]).
  - vm_compute. reflexivity.
  - reflexivity.
Defined.

Lemma result_without_content_is_serialized_witness :
  worker_step "" Cases.clients true
    (Call "7" "bare" "run" (JObj []) (fun v => Print (to_string v) Finish)
          None)
  = Continue [IpcMessage (wire (request "7" "bare" "run" (JObj [])))] true
      (Print ("{" ++ quote "isError" ++ ":true}") Finish).
Proof.
  apply (result_without_content_is_serialized "" Cases.clients "7" "bare"
           "run" (JObj []) Cases.bare (JObj [("isError", JBool true)])).
  - vm_compute. reflexivity.
  - reflexivity.
  - reflexivity.
  - reflexivity.
Defined.

(** X6. When the client's call throws, the parent answers with an error
    that carries the message of what was thrown (or its string form when
    it has none), and the await of the user code throws an [Error] with
    that message: an enclosing handler is entered with it, and without one
    [executeCode] returns a failure whose error text contains the
    message. *)
Theorem client_rejection_reaches_user_code
    (h : host) (env : call_env) (sb : sandbox)
    (id server tool : string) (input : jsval)
    (c : jsval -> jsval -> call_outcome) (e : thrown) :
  mcpClients sb !! server = Some c ->
  let req := wire (request id server tool input) in
  c (field req "toolName") (field req "arguments") = Rejects e ->
  let step := worker_step (frames h) (mcpClients sb) true in
  let thrown_error := new_Error (message_or_string e) (frames h) in
  on_message (frames h) (mcpClients sb) req
    = Ok {| reply := Some (ipc_error (JStr id) (message_or_string e));
            called := Some (server, field req "toolName",
                            field req "arguments") |}
  /\ (forall k handler,
        step (Call id server tool input k (Some handler))
        = Continue [IpcMessage req] true (handler thrown_error))
  /\ (forall code w n events k,
        initialized sb (disk w) ->
        disk w !! execFile env sb <> Some Dir ->
        fork_outcome env = Spawned ->
        advance (frames h) (mcpClients sb) n true (semantics h code)
          = Some (events, true, Call id server tool input k None) ->
        (n < steps_within h 10000)%nat ->
        exists text,
          fst (executeCode h env sb code w)
            = Ok {| success := false; output := None; error := Some text |}
          /\ contains text (message_or_string e)).
Proof.
  intros Hc req Hrej step thrown_error.
  pose proof (on_message_client (frames h) (mcpClients sb)
                id server tool input c Hc) as Hparent.
  fold req in Hparent. cbv zeta in Hparent. rewrite Hrej in Hparent.
  assert (forall k handler,
            step (Call id server tool input k handler)
            = match handler with
              | Some hdl => Continue [IpcMessage req] true (hdl thrown_error)
              | None => Stop (IpcMessage req :: import_failed thrown_error)
              end) as Hstep.
  { intros k handler. unfold step, worker_step. fold req.
    rewrite Hparent. by rewrite messageHandler_error. }
  split; [exact Hparent |].
  split; [intros k handler; apply Hstep |].
  intros code w n events k Hinit Hfile Hspawn Hadv Hn.
  pose proof (executeCode_exit h env sb code w n events true
                (Call id server tool input k None)
                [IpcMessage req; StderrData (thr_inspect thrown_error ++ nl)]
                1 Hinit Hfile Hspawn Hadv Hn) as Hexit.
  rewrite Hexit.
  2: { apply Hstep. }
  2: { by repeat constructor. }
  rewrite captured_stderr_app.
  change (captured_stderr
            [IpcMessage req; StderrData (thr_inspect thrown_error ++ nl)])
    with ((thr_inspect thrown_error ++ nl) ++ "").
  rewrite str_app_nil_r.
  exists (captured_stderr events ++ thr_inspect thrown_error ++ nl).
  split.
  - f_equal. apply exit_result_stderr; [done |].
    intros H%str_app_eq_nil%str_app_eq_nil. discriminate.
  - unfold thrown_error, new_Error. cbn [thr_inspect]. find_in.
Qed.

Lemma client_rejection_reaches_user_code_witness :
  worker_step (frames Sample.host) Cases.clients true
    (Call "7" "broken" "edit_file" (JObj []) (fun _ => Finish)
          (Some (fun e => Print (message_or_string e) Finish)))
  = Continue [IpcMessage (wire (request "7" "broken" "edit_file" (JObj [])))]
      true (Print "Unknown tool: edit_file" Finish).
Proof.
  assert (Cases.clients !! "broken" = Some Cases.broken) as Hc
    by (vm_compute; reflexivity).
  destruct (client_rejection_reaches_user_code Sample.host Sample.env
              {| mcpClients := Cases.clients; tempDir := tempDir Sample.sb |}
              "7" "broken" "edit_file" (JObj []) Cases.broken
              (new_Error "Unknown tool: edit_file" "") Hc eq_refl)
    as (_ & Hcaught & _).
  apply (Hcaught (fun _ => Finish)
           (fun e => Print (message_or_string e) Finish)).
Defined.

(** ** What [initialize] leaves on disk *)

Lemma mkdir_p_run p w :
  mkdir_p p w
  = match mkdir_from p [] p (disk w) with
    | Ok d' => (Ok tt, {| disk := d'; ops := (ops w ++ [OpMkdir p])%list |})
    | Throw e => (Throw e, logged (OpMkdir p) w)
    | Pending => (Ok tt, logged (OpMkdir p) w)
    end.
Proof.
  unfold mkdir_p, log, get_disk, put_disk, throw, mbind, io_bind, mret, io_ret.
  simpl. by destruct (mkdir_from p [] p (disk w)).
Qed.

(** A recursive [mkdir] keeps what exists, adds nothing but directories on
    the way to its path, and leaves no gap and no file on that way. *)
Lemma mkdir_from_effect whole rest : forall base d d',
  mkdir_from whole base rest d = Ok d' ->
  (forall q n, d !! q = Some n -> d' !! q = Some n)
  /\ (forall q, d !! q = None ->
        d' !! q = None
        \/ (d' !! q = Some Dir /\ q `prefix_of` (base ++ rest)%list))
  /\ (forall k, (0 < k <= length rest)%nat ->
        exists n, d' !! (base ++ take k rest)%list = Some n
                  /\ forall c, n <> File c).
Proof.
  induction rest as [| c rest IH]; intros base d d' Hmk.
  - injection Hmk as <-. repeat split; eauto. simpl. lia.
  - simpl in Hmk.
    assert (forall d1 n1,
              mkdir_from whole (base ++ [c]) rest d1 = Ok d' ->
              d1 !! (base ++ [c])%list = Some n1 -> (forall x, n1 <> File x) ->
              (forall q n, d !! q = Some n -> d1 !! q = Some n) ->
              (forall q, d !! q = None ->
                 d1 !! q = None \/ (d1 !! q = Some Dir /\ q = (base ++ [c])%list)) ->
              (forall q n, d !! q = Some n -> d' !! q = Some n)
              /\ (forall q, d !! q = None ->
                    d' !! q = None
                    \/ (d' !! q = Some Dir
                        /\ q `prefix_of` (base ++ c :: rest)%list))
              /\ (forall k, (0 < k <= length (c :: rest))%nat ->
                    exists n, d' !! (base ++ take k (c :: rest))%list = Some n
                              /\ forall x, n <> File x)) as Hstep.
    { intros d1 n1 Hrec Hq Hn1 Hkeep Hnew.
      destruct (IH _ _ _ Hrec) as (Hkeep' & Hnew' & Hway).
      split; [intros q n Hqn; by apply Hkeep', Hkeep |].
      split.
      - intros q Hnone. destruct (Hnew q Hnone) as [Hd1 | [Hd1 ->]].
        + destruct (Hnew' q Hd1) as [? | [? Hpre]]; [by left | right].
          split; [done |]. by rewrite <- app_assoc in Hpre.
        + right. split; [by apply Hkeep' |].
          exists rest. by rewrite <- app_assoc.
      - intros k Hk. destruct k as [| k]; [lia |]. simpl.
        destruct k as [| k].
        + rewrite take_0. exists n1. split; [by apply Hkeep' | done].
        + destruct (Hway (S k)) as (n & Hn & Hfile); [simpl in Hk; lia |].
          exists n. split; [| done].
          by rewrite <- app_assoc in Hn. }
    destruct (d !! (base ++ [c])%list) as [[x | | t]|] eqn:Hq; [done | | |].
    + eapply (Hstep d Dir); eauto.
    + eapply (Hstep d (Symlink t)); eauto.
    + eapply (Hstep (<[(base ++ [c])%list := Dir]> d) Dir); eauto.
      * by rewrite lookup_insert_eq.
      * intros q n Hqn. rewrite lookup_insert_ne; [done |]. congruence.
      * intros q Hnone.
        destruct (decide (q = (base ++ [c])%list)) as [-> | Hne].
        -- right. by rewrite lookup_insert_eq.
        -- left. by rewrite lookup_insert_ne.
Qed.

(** On a disk where the way to the path is made, a recursive [mkdir]
    changes nothing. *)
Lemma mkdir_from_again whole rest : forall base d,
  (forall k, (0 < k <= length rest)%nat ->
     exists n, d !! (base ++ take k rest)%list = Some n
               /\ forall c, n <> File c) ->
  mkdir_from whole base rest d = Ok d.
Proof.
  induction rest as [| c rest IH]; intros base d Hway; [done |].
  simpl. destruct (Hway 1%nat) as (n & Hn & Hfile); [simpl; lia |].
  simpl in Hn. rewrite take_0 in Hn. rewrite Hn.
  assert (mkdir_from whole (base ++ [c]) rest d = Ok d) as Hrec.
  { apply IH. intros k Hk.
    destruct (Hway (S k)) as (n' & Hn' & Hfile'); [simpl; lia |].
    exists n'. split; [| done]. simpl in Hn'. by rewrite <- app_assoc. }
  destruct n; [by destruct (Hfile content) | done | done].
Qed.

Lemma strip_prefix_outside pre k :
  ¬ pre `prefix_of` k -> strip_prefix pre k = None.
Proof.
  intros Hout. destruct (strip_prefix pre k) as [q|] eqn:Hq; [| done].
  apply strip_prefix_Some in Hq as ->. destruct Hout. by exists q.
Qed.

Lemma under_servers_under_tempDir sb q :
  serversLinkPath sb `prefix_of` q -> tempDir sb `prefix_of` q.
Proof.
  intros [rest ->]. unfold serversLinkPath. rewrite <- app_assoc. by eexists.
Qed.

(** Between making the directory and writing the bootstrap script,
    [initialize] changes the disk at and below the place of the link
    only; and afterwards either there is no stub tree, or something is at
    the place of the link, or the link was refused and nothing was
    copied. *)
Lemma initialize_link pf target sb w w1 :
  mkdir_p (tempDir sb) w = (Ok tt, w1) ->
  exists d2 linkops,
    initialize pf target sb w
      = writeFile (runnerPath sb) runnerCode
          {| disk := d2; ops := (ops w1 ++ linkops)%list |}
    /\ (forall q, ¬ serversLinkPath sb `prefix_of` q -> d2 !! q = disk w1 !! q)
    /\ (lookup_follow (disk w1) target = None /\ d2 = disk w1
        \/ is_Some (d2 !! serversLinkPath sb)
        \/ d2 = disk w1
           /\ exists c,
                symlink_refusal pf (disk w1) (serversLinkPath sb) = Some c
                /\ (permission_class c = true ->
                    String.eqb c "EEXIST" = false ->
                    is_Some (copy_fault pf))).
Proof.
  intros Hmk.
  destruct (initialize_cases pf target sb w w1 Hmk)
    as (d2 & linkops & Hinit & Htable).
  exists d2, linkops. split; [exact Hinit |].
  destruct (lookup_follow (disk w1) target) as [tn|] eqn:Htarget.
  2: { destruct Htable as [_ ->]. split; [done | by left]. }
  assert (is_Some (disk w1 !! target)) as [tnode Htnode].
  { unfold lookup_follow in Htarget. destruct (disk w1 !! target); eauto. }
  destruct (disk w1 !! serversLinkPath sb) as [[content | | t]|] eqn:Hlink.
  2, 3: destruct Htable as [_ ->]; split; [done | right; left; eauto].
  - unfold symlink_refusal in Htable. rewrite Hlink in Htable. simpl in Htable.
    destruct Htable as [_ ->]. split; [done | right; left; eauto].
  - destruct (symlink_refusal pf (disk w1) (serversLinkPath sb)) as [c|].
    2: { destruct Htable as [_ ->]. split.
         - intros q Hout. rewrite lookup_insert_ne; [done |].
           intros <-. by destruct Hout.
         - right; left. rewrite lookup_insert_eq. eauto. }
    destruct (String.eqb c "EEXIST") eqn:Heexist.
    { destruct Htable as [_ ->]. split; [done |]. right; right.
      split; [done |]. exists c. split; [done |]. congruence. }
    destruct (permission_class c) eqn:Hperm.
    2: { destruct Htable as [_ ->]. split; [done |]. right; right.
         split; [done |]. exists c. split; [done |]. congruence. }
    destruct (copy_fault pf) as [fault|] eqn:Hfault.
    { destruct Htable as [_ ->]. split; [done |]. right; right.
      split; [done |]. exists c. split; [done |]. eauto. }
    destruct Htable as [_ ->]. split.
    + intros q Hout. by rewrite copy_tree_lookup, strip_prefix_outside.
    + right; left. rewrite copy_tree_lookup.
      pose proof (strip_prefix_app (serversLinkPath sb) []) as Hself.
      rewrite app_nil_r in Hself. rewrite Hself, app_nil_r, Htnode. eauto.
Qed.

Lemma runner_under_tempDir sb : tempDir sb `prefix_of` runnerPath sb.
Proof. by exists ["runner.mjs"]. Qed.




(** The preparation of the link changes nothing when there is no stub
    tree, when something is at the place of the link, or when the link is
    refused and no copy succeeds. *)
Lemma initialize_link_stable pf target sb w w1 :
  mkdir_p (tempDir sb) w = (Ok tt, w1) ->
  lookup_follow (disk w1) target = None
  \/ is_Some (disk w1 !! serversLinkPath sb)
  \/ (exists c, symlink_refusal pf (disk w1) (serversLinkPath sb) = Some c
                /\ (permission_class c = true -> String.eqb c "EEXIST" = false ->
                    is_Some (copy_fault pf))) ->
  exists linkops,
    initialize pf target sb w
    = writeFile (runnerPath sb) runnerCode
        {| disk := disk w1; ops := (ops w1 ++ linkops)%list |}.
Proof.
  intros Hmk Hstable.
  destruct (initialize_cases pf target sb w w1 Hmk)
    as (d2 & linkops & Hinit & Htable).
  exists linkops. rewrite Hinit. do 2 f_equal.
  destruct (lookup_follow (disk w1) target) as [tn|];
    [| by destruct Htable as [_ ->]].
  destruct Hstable as [? | Hstable]; [done |].
  destruct (disk w1 !! serversLinkPath sb) as [[content | | t]|] eqn:Hlink.
  2, 3: by destruct Htable as [_ ->].
  - unfold symlink_refusal in Htable. rewrite Hlink in Htable. simpl in Htable.
    by destruct Htable as [_ ->].
  - destruct Hstable as [[? ?] | (c & Hc & Hcopy)]; [done |].
    rewrite Hc in Htable.
    destruct (String.eqb c "EEXIST"); [by destruct Htable as [_ ->] |].
    destruct (permission_class c); [| by destruct Htable as [_ ->]].
    destruct (Hcopy eq_refl eq_refl) as [fault Hfault].
    rewrite Hfault in Htable. by destruct Htable as [_ ->].
Qed.

Lemma mkdir_from_settles whole rest : forall base d,
  mkdir_from whole base rest d <> Pending.
Proof.
  induction rest as [| c rest IH]; intros base d; [done |].
  simpl. destruct (d !! (base ++ [c])%list) as [[]|]; try done; apply IH.
Qed.

Lemma dirname_runnerPath sb : dirname (runnerPath sb) = tempDir sb.
Proof. unfold dirname, runnerPath. apply removelast_last. Qed.

Lemma dirname_serversLinkPath sb : dirname (serversLinkPath sb) = tempDir sb.
Proof. unfold dirname, serversLinkPath. apply removelast_last. Qed.

Lemma take_not_under (p : path) k rest :
  rest <> [] -> ¬ (p ++ rest)%list `prefix_of` take k p.
Proof.
  intros Hrest [more Heq]. apply (f_equal length) in Heq.
  rewrite !length_app, length_take in Heq.
  destruct rest; [done |]. simpl in Heq. lia.
Qed.

(** A successful [initialize], taken apart: the directory was made, the
    link was prepared, and the bootstrap script was written into a
    directory. *)
Lemma initialize_ok pf target sb w :
  fst (initialize pf target sb w) = Ok tt ->
  exists d1 d2 linkops,
    mkdir_from (tempDir sb) [] (tempDir sb) (disk w) = Ok d1
    /\ (forall q, ¬ serversLinkPath sb `prefix_of` q -> d2 !! q = d1 !! q)
    /\ dir_at d2 (tempDir sb) = true
    /\ d2 !! runnerPath sb <> Some Dir
    /\ initialize pf target sb w
       = (Ok tt, {| disk := <[runnerPath sb := File runnerCode]> d2;
                    ops := (((ops w ++ [OpMkdir (tempDir sb)]) ++ linkops)
                            ++ [OpWriteFile (runnerPath sb) runnerCode])%list |})
    /\ (lookup_follow d1 target = None /\ d2 = d1
        \/ is_Some (d2 !! serversLinkPath sb)
        \/ d2 = d1
           /\ exists c, symlink_refusal pf d1 (serversLinkPath sb) = Some c
                /\ (permission_class c = true ->
                    String.eqb c "EEXIST" = false ->
                    is_Some (copy_fault pf))).
Proof.
  intros Hok.
  pose proof (mkdir_p_run (tempDir sb) w) as Hmk.
  destruct (mkdir_from (tempDir sb) [] (tempDir sb) (disk w))
    as [d1 | e |] eqn:Hfrom.
  2: { exfalso. unfold initialize in Hok.
       unfold mbind at 1 in Hok. unfold io_bind at 1 in Hok.
       by rewrite Hmk in Hok. }
  2: { by apply mkdir_from_settles in Hfrom. }
  destruct (initialize_link pf target sb w _ Hmk)
    as (d2 & linkops & Hinit & Hframe & Hstate).
  simpl in Hinit, Hframe, Hstate.
  exists d1, d2, linkops. rewrite Hinit in Hok |- *.
  rewrite writeFile_run in Hok |- *. simpl in Hok |- *.
  rewrite dirname_runnerPath in Hok |- *.
  destruct (dir_at d2 (tempDir sb)); simpl in Hok |- *; [| done].
  destruct (d2 !! runnerPath sb) as [[]|] eqn:Hrunner; try done.
Qed.

Lemma lookup_follow_agree (d d' : gmap path node) p :
  d' !! p = d !! p ->
  (forall t, d !! p = Some (Symlink t) -> d' !! t = d !! t) ->
  lookup_follow d' p = lookup_follow d p.
Proof.
  intros Hp Ht. unfold lookup_follow. rewrite Hp.
  destruct (d !! p) as [[| | t]|]; try done. by apply Ht.
Qed.

(** X8. [initialize] is idempotent: after an initialization that
    succeeded, with the stub tree outside the workspace, a second one
    succeeds as well and leaves the disk exactly as the first one left
    it. *)
Theorem initialize_idempotent
    (pf : platform) (target : path) (sb : sandbox) (w : world) :
  fst (initialize pf target sb w) = Ok tt ->
  ¬ tempDir sb `prefix_of` target ->
  (forall t, disk w !! target = Some (Symlink t) ->
             ¬ tempDir sb `prefix_of` t) ->
  let w' := snd (initialize pf target sb w) in
  fst (initialize pf target sb w') = Ok tt
  /\ disk (snd (initialize pf target sb w')) = disk w'.
Proof.
  intros Hok Htarget Hsym w'.
  destruct (initialize_ok pf target sb w Hok)
    as (d1 & d2 & linkops & Hfrom & Hframe & Hdir & Hrunner & Hrun & Hstate).
  destruct (mkdir_from_effect _ _ _ _ _ Hfrom) as (Hkeep & Hnew & Hway).
  set (D := <[runnerPath sb := File runnerCode]> d2).
  assert (disk w' = D) as HD by (unfold w'; by rewrite Hrun).
  assert (forall q, ¬ tempDir sb `prefix_of` q -> D !! q = d1 !! q) as Hout.
  { intros q Hq. unfold D. rewrite lookup_insert_ne.
    - apply Hframe. intros H. by apply Hq, under_servers_under_tempDir.
    - intros <-. apply Hq, runner_under_tempDir. }
  assert (D !! tempDir sb = d2 !! tempDir sb) as Htemp.
  { unfold D. rewrite lookup_insert_ne; [done |].
    unfold runnerPath. intros H. apply (f_equal length) in H.
    rewrite length_app in H. simpl in H. lia. }
  assert (dir_at D (tempDir sb) = true) as HdirD.
  { unfold dir_at in Hdir |- *. destruct (tempDir sb) as [| c0 rest0] eqn:Htd;
      [done |].
    rewrite <- Htd in *.
    rewrite (lookup_follow_agree d2 D); [done | done |].
    intros t Ht. unfold D.
    destruct (decide (t = runnerPath sb)) as [-> | Hne];
      [| by rewrite lookup_insert_ne].
    exfalso. unfold lookup_follow in Hdir. rewrite Ht in Hdir.
    destruct (d2 !! runnerPath sb) as [[]|]; done. }
  assert (mkdir_from (tempDir sb) [] (tempDir sb) D = Ok D) as HfromD.
  { apply mkdir_from_again. intros k Hk.
    destruct (Hway k Hk) as (n & Hn & Hfile). exists n. split; [| done].
    simpl in Hn |- *. unfold D. rewrite lookup_insert_ne.
    - rewrite Hframe; [done |]. apply take_not_under. done.
    - intros H. apply (take_not_under (tempDir sb) k ["runner.mjs"]); [done |].
      unfold runnerPath in H. by rewrite <- H. }
  pose proof (mkdir_p_run (tempDir sb) w') as Hmk.
  rewrite HD, HfromD in Hmk.
  assert (D !! serversLinkPath sb = d2 !! serversLinkPath sb) as Hlink.
  { unfold D. rewrite lookup_insert_ne; [done |].
    unfold runnerPath, serversLinkPath. intros H.
    apply app_inv_head in H. discriminate. }
  destruct (initialize_link_stable pf target sb w' _ Hmk) as [linkops' Hinit].
  { simpl. destruct Hstate as [[Hnone ->] | [Hsome | (-> & c & Hc & Hcopy)]].
    - left. rewrite <- Hnone. apply lookup_follow_agree; [by apply Hout |].
      intros t Ht. apply Hout, Hsym.
      destruct (disk w !! target) as [n|] eqn:Hw.
      + apply Hkeep in Hw. congruence.
      + destruct (Hnew _ Hw) as [? | [? _]]; congruence.
    - right; left. by rewrite Hlink.
    - destruct (d1 !! serversLinkPath sb) as [n|] eqn:Hl.
      + right; left. rewrite Hlink. eauto.
      + right; right. exists c. split; [| done].
        unfold symlink_refusal in Hc |- *. rewrite Hlink.
        rewrite dirname_serversLinkPath in *.
        rewrite Hl, Hdir in Hc. by rewrite HdirD. }
  assert (D !! runnerPath sb = Some (File runnerCode)) as HDr
    by (unfold D; apply lookup_insert_eq).
  rewrite Hinit, writeFile_run. simpl.
  rewrite dirname_runnerPath, HdirD, HDr. simpl.
  split; [done |]. rewrite HD. unfold D. by rewrite insert_insert_eq.
Qed.

(** X9. A successful [initialize] puts the workspace in place: when the
    workspace directory is not the root and no symbolic link stands where
    it goes, afterwards the directory exists, holds the bootstrap script,
    and a file can be written into it. *)
Theorem initialize_makes_workspace
    (pf : platform) (target : path) (sb : sandbox) (w : world) :
  fst (initialize pf target sb w) = Ok tt ->
  tempDir sb <> [] ->
  (forall t, disk w !! tempDir sb <> Some (Symlink t)) ->
  let w' := snd (initialize pf target sb w) in
  initialized sb (disk w')
  /\ forall env, disk w' !! execFile env sb <> Some Dir ->
                 writable (disk w') (execFile env sb).
Proof.
  intros Hok Hroot Hsym w'.
  destruct (initialize_ok pf target sb w Hok)
    as (d1 & d2 & linkops & Hfrom & Hframe & Hdir & Hrunner & Hrun & Hstate).
  destruct (mkdir_from_effect _ _ _ _ _ Hfrom) as (Hkeep & Hnew & Hway).
  assert (disk w' = <[runnerPath sb := File runnerCode]> d2) as HD
    by (unfold w'; by rewrite Hrun).
  assert (initialized sb (disk w')) as Hinit.
  { split; [done |]. rewrite HD. split; [| by rewrite lookup_insert_eq].
    rewrite lookup_insert_ne.
    2: { unfold runnerPath. intros H. apply (f_equal length) in H.
         rewrite length_app in H. simpl in H. lia. }
    rewrite Hframe.
    2: { pose proof (take_not_under (tempDir sb) (length (tempDir sb))
                       ["servers"]) as H.
         rewrite firstn_all in H. by apply H. }
    destruct (Hway (length (tempDir sb))) as (n & Hn & Hfile).
    { destruct (tempDir sb); [done | simpl; lia]. }
    simpl in Hn. rewrite firstn_all in Hn.
    destruct (disk w !! tempDir sb) as [n0|] eqn:Hw.
    - pose proof (Hkeep _ _ Hw) as Hn0.
      destruct n0; [| done | by destruct (Hsym target0)].
      rewrite Hn in Hn0. injection Hn0 as ->. by destruct (Hfile content).
    - destruct (Hnew _ Hw) as [? | [? _]]; congruence. }
  split; [exact Hinit |].
  intros env. by apply initialized_writable.
Qed.

Lemma initialize_idempotent_witness :
  disk (snd (initialize Sample.linux Sample.target Sample.sb Sample.ready))
  = disk Sample.ready.
Proof.
  apply (initialize_idempotent Sample.linux Sample.target Sample.sb
           Sample.fresh).
  - vm_compute. reflexivity.
  - intros [rest Hrest]. vm_compute in Hrest. discriminate.
  - intros t Ht. vm_compute in Ht. discriminate.
Defined.

Lemma initialize_makes_workspace_witness :
  initialized Sample.sb (disk Sample.ready).
Proof.
  apply (initialize_makes_workspace Sample.linux Sample.target Sample.sb
           Sample.fresh).
  - vm_compute. reflexivity.
  - discriminate.
  - intros t Ht. vm_compute in Ht. discriminate.
Defined.

(** ** The server's answers *)

(** The result of [executeCode] is a success with an output or a failure
    with a message. *)
Lemma executeCode_result h env sb code w :
  exists r w',
    executeCode h env sb code w = (Ok r, w')
    /\ ((exists out, r = {| success := true; output := Some out;
                            error := None |})
        \/ exists message, r = failure message).
Proof.
  destruct (executeCode_cases h env sb code w)
    as (r & added & Hrun & Hcases).
  eexists r, _. split; [exact Hrun |].
  destruct Hcases as [(e & _ & -> & _) | [(e & _ & _ & ->) | (_ & _ & Hr)]];
    [right; by eexists | right; by eexists |].
  unfold final_runner, run_events in Hr.
  destruct (fork_outcome env) as [| e | c m] eqn:Hspawn.
  1, 2: destruct (worker_events_shape (frames h) (mcpClients sb)
                    (steps_within h 10000) true
                    (worker_program h
                       (<[execFile env sb := File code]> (disk w)) sb
                       ("./" ++ basename (execFile env sb))))
          as (quiet & Hq & [(rest & Hev & _) | [c Hev]]); rewrite Hev in Hr.
  1, 3: destruct (run_then_timer (frames h) (mcpClients sb) 10000 quiet
                    rest Hq) as [Ht _];
        rewrite Ht in Hr; injection Hr as <-;
        right; by eexists.
  1, 2: rewrite run_then_exit in Hr by done; injection Hr as <-;
        destruct c as [| |]; [left | right | right]; by eexists.
  simpl in Hr. injection Hr as <-. right. by eexists.
Qed.

(** X10. With the sandbox in place, a request for [execute_code] that
    carries arguments is always answered and never throws. When the code
    is a string, the server runs it once and answers with one text item:
    the output when the execution succeeded, and when it failed the error
    message behind ["执行错误:"] and a line feed, flagged with
    [isError: true], and only then. When the code is no string and
    [fs.writeFile] refuses the value, nothing is run and the answer is the
    flagged text of the error of the write. A request without arguments
    is not answered: the handler throws the [TypeError] of the
    destructuring, and nothing is run. *)
Theorem execute_code_response
    (P : Server.process) (h : host) (env : call_env) (arguments : jsval)
    (s : Server.server) (sb : sandbox) :
  Server.sandbox s = Some sb ->
  let called := Server.call_tool P h env "execute_code" arguments s in
  (forall code,
     field arguments "code" = JStr code ->
     let ran := executeCode h env sb code (Server.fs s) in
     exists resp,
       called
       = (Ok resp, {| Server.fs := snd ran; Server.sandbox := Some sb;
                      Server.mcpClients := Server.mcpClients s |})
       /\ ((exists out,
              fst ran = Ok {| success := true; output := Some out;
                              error := None |}
              /\ resp = Server.text_result (JStr out) [])
           \/ (exists message,
                 fst ran = Ok (failure message)
                 /\ resp = Server.text_result
                             (JStr ("执行错误:" ++ nl ++ message))
                             [("isError", JBool true)])))
  /\ (arguments <> JUndefined -> arguments <> JNull ->
      (forall code, field arguments "code" <> JStr code) ->
      forall e w1,
        Server.write_data P (execFile env sb) (field arguments "code")
          (Server.fs s) = (Throw e, w1) ->
        called
        = (Ok (Server.text_result
                 (JStr ("执行错误:" ++ nl ++ message_or_string e))
                 [("isError", JBool true)]),
           {| Server.fs := snd (catch_ignore (unlink (execFile env sb)) w1);
              Server.sandbox := Some sb;
              Server.mcpClients := Server.mcpClients s |}))
  /\ (arguments = JUndefined \/ arguments = JNull ->
      exists e,
        called = (Throw e, s)
        /\ Server.destructure_code (Server.frames P) arguments = Throw e).
Proof.
  intros Hsb called.
  assert (s = {| Server.fs := Server.fs s; Server.sandbox := Some sb;
                 Server.mcpClients := Server.mcpClients s |}) as Hs
    by (destruct s; simpl in *; by subst).
  split; [| split].
  - intros code Hcode ran.
    destruct (executeCode_result h env sb code (Server.fs s))
      as (r & w' & Hrun & Hshape).
    assert (Server.destructure_code (Server.frames P) arguments
            = Ok (JStr code)) as Hdes.
    { destruct arguments; try discriminate; simpl in *; by rewrite Hcode. }
    unfold called, Server.call_tool, get_state, Server.on_fs, mbind,
      prog_bind, mret, prog_ret.
    rewrite Hsb, Hdes. simpl. rewrite Hsb. fold ran.
    assert (ran = (Ok r, w')) as -> by exact Hrun.
    destruct Hshape as [[out ->] | [message ->]]; simpl; rewrite Hsb.
    + eexists. split; [reflexivity |]. left. by exists out.
    + eexists. split; [reflexivity |]. right. by exists message.
  - intros Hdef Hnull Hcode e w1 Hwrite.
    assert (Server.destructure_code (Server.frames P) arguments
            = Ok (field arguments "code")) as Hdes
      by (by destruct arguments).
    assert (Server.executeCode_of P h env sb (field arguments "code")
              (Server.fs s)
            = (Ok (failure (message_or_string e)),
               snd (catch_ignore (unlink (execFile env sb)) w1))) as Hrun.
    { unfold Server.executeCode_of.
      destruct (field arguments "code") as [| | | | text | |] eqn:Hfield;
        try (by destruct (Hcode text));
        unfold Fs.finally, try_catch, mbind, io_bind;
        rewrite Hwrite; unfold mret, io_ret;
        by rewrite unlink_run. }
    unfold called, Server.call_tool, get_state, Server.on_fs, mbind,
      prog_bind, mret, prog_ret.
    rewrite Hsb, Hdes. simpl. rewrite Hsb, Hrun. simpl. by rewrite Hsb.
  - intros Hnone.
    assert (exists e, Server.destructure_code (Server.frames P) arguments
                      = Throw e) as [e Hdes]
      by (destruct Hnone as [-> | ->]; by eexists).
    exists e. split; [| exact Hdes].
    unfold called, Server.call_tool, get_state, Server.on_fs, mbind,
      prog_bind, mret, prog_ret.
    rewrite Hsb, Hdes. simpl. done.
Qed.

Lemma execute_code_response_witness :
  fst (Server.call_tool Demo.process Sample.host Sample.env "execute_code"
         (JObj [("code", JStr "console.log('hi')")]) Demo.serving)
  = Ok (Server.text_result (JStr ("hi" ++ nl)) []).
Proof.
  destruct (execute_code_response Demo.process Sample.host Sample.env
              (JObj [("code", JStr "console.log('hi')")])
              Demo.serving Sample.sb eq_refl) as [Hcode _].
  destruct (Hcode "console.log('hi')" eq_refl)
    as (resp & Hrun & [(out & Hout & ->) | (message & Hfail & ->)]);
    rewrite Hrun; simpl.
  - vm_compute in Hout. injection Hout as <-. reflexivity.
  - vm_compute in Hfail. discriminate.
Defined.

(** ** The tree of tools *)

Lemma elem_of_concat {A} (x : A) (ls : list (list A)) :
  x ∈ concat ls <-> exists l, x ∈ l /\ l ∈ ls.
Proof.
  induction ls as [| l ls IH]; simpl.
  - split; [by intros ?%elem_of_nil | by intros (l & _ & ?%elem_of_nil)].
  - rewrite elem_of_app, IH. split.
    + intros [Hx | (l' & Hx & Hl')].
      * exists l. split; [done | apply list_elem_of_here].
      * exists l'. split; [done | by apply list_elem_of_further].
    + intros (l' & Hx & [-> | Hl']%elem_of_cons); eauto.
Qed.

Lemma contains_join sep line lines :
  line ∈ lines -> contains (join sep lines) line.
Proof.
  unfold join. induction lines as [| first lines IH];
    [by intros ?%elem_of_nil |].
  intros [-> | Hin]%elem_of_cons.
  - destruct lines; simpl; [apply contains_refl | apply contains_prefix].
  - destruct lines as [| second lines]; [by apply elem_of_nil in Hin |].
    change (contains (first ++ sep ++ String.concat sep (second :: lines))
              line).
    apply contains_app_r, contains_app_r. by apply IH.
Qed.

Lemma map_get_key name clients c :
  Server.map_get name clients = Some c -> name ∈ map fst clients.
Proof.
  induction clients as [| [k v] clients IH]; [done |]. simpl.
  destruct (String.eqb_spec k name) as [-> | Hne].
  - intros _. apply list_elem_of_here.
  - intros H. by apply list_elem_of_further, IH.
Qed.

(** X11. The tree of [list_available_tools] leaves nothing out. It starts
    with the two heading lines; every connected server has a line with
    its name, every tool of a server that lists its tools has a line with
    the tool's name, and a server whose listing fails has a line with the
    message of the failure, which keeps no other server from being
    listed. *)
Theorem tools_tree_is_complete
    (frames : string) (clients : Server.registry)
    (name : string) (c : Server.connection) :
  Server.map_get name clients = Some c ->
  let lines := Server.tree_lines frames clients in
  let tree := Server.generateToolsTree frames clients in
  take 2 lines = ["可用工具:"; "servers/"]
  /\ match Server.listTools c with
     | Server.Listed tools =>
         (exists branch, (branch ++ " " ++ name ++ "/") ∈ lines)
         /\ forall tool, tool ∈ tools ->
              exists indent, (indent ++ " " ++ tool) ∈ lines
     | Server.ListFails is_error e =>
         exists branch text,
           (branch ++ " " ++ name ++ "/ (获取失败: " ++ text ++ ")") ∈ lines
           /\ (is_error = true -> forall message,
                 thr_message e = Some message -> text = message)
     end
  /\ contains tree name
  /\ forall tool tools,
       Server.listTools c = Server.Listed tools -> tool ∈ tools ->
       contains tree tool.
Proof.
  intros Hget lines tree.
  destruct (list_elem_of_lookup_1 _ _ (map_get_key _ _ _ Hget)) as [i Hi].
  assert (forall line,
            line ∈ Server.server_lines frames clients (map fst clients) i name ->
            line ∈ lines) as Hlines.
  { intros line Hline. unfold lines, Server.tree_lines.
    apply elem_of_app. right. apply elem_of_concat.
    eexists. split; [exact Hline |].
    by apply (elem_of_lookup_imap_2
                (Server.server_lines frames clients (map fst clients))). }
  assert (forall line part,
            line ∈ lines -> contains line part -> contains tree part)
    as Htree.
  { intros line part Hline Hpart.
    eapply contains_trans; [| exact Hpart]. by apply contains_join. }
  unfold Server.server_lines in Hlines. rewrite Hget in Hlines.
  cbv zeta in Hlines.
  split; [reflexivity |].
  destruct (Server.listTools c) as [tools | is_error e] eqn:Hlist.
  - assert (exists branch, (branch ++ " " ++ name ++ "/") ∈ lines) as Hhead.
    { eexists. apply Hlines, list_elem_of_here. }
    assert (forall tool, tool ∈ tools ->
              exists indent, (indent ++ " " ++ tool) ∈ lines) as Htools.
    { intros tool Htool.
      destruct (list_elem_of_lookup_1 _ _ Htool) as [j Hj].
      match type of Hlines with
      | context [imap ?f tools] =>
          pose proof (elem_of_lookup_imap_2 f tools tool j Hj) as Hin
      end.
      cbv beta in Hin. rewrite <- str_app_assoc in Hin.
      eexists. by apply Hlines, list_elem_of_further, Hin. }
    split; [by split |]. split.
    + destruct Hhead as [branch Hhead].
      apply (Htree _ _ Hhead). find_in.
    + intros tool tools' [= <-] Htool.
      destruct (Htools tool Htool) as [indent Hline].
      apply (Htree _ _ Hline). find_in.
  - split; [| split; [| done]].
    + eexists _, _. split; [apply Hlines, list_elem_of_here |].
      intros -> message ->. reflexivity.
    + eapply Htree; [apply Hlines, list_elem_of_here |]. find_in.
Qed.

Lemma tools_tree_is_complete_witness :
  contains (Server.generateToolsTree "" (Server.mcpClients Demo.serving))
    "write_file".
Proof.
  destruct (tools_tree_is_complete "" (Server.mcpClients Demo.serving)
              "filesystem" Demo.filesystem eq_refl)
    as (_ & _ & _ & Htools).
  apply (Htools "write_file" ["read_file"; "write_file"] eq_refl).
  apply list_elem_of_further, list_elem_of_here.
Defined.

(** ** The first request *)

Lemma connectMCPServer_run P serverName command args s :
  Server.connectMCPServer P serverName command args s
  = match Server.launch P command args with
    | Ok client =>
        (Ok client,
         {| Server.fs := Server.fs s; Server.sandbox := Server.sandbox s;
            Server.mcpClients :=
              Server.map_set serverName client (Server.mcpClients s) |})
    | Throw e => (Throw e, s)
    | Pending => (Pending, s)
    end.
Proof.
  unfold Server.connectMCPServer.
  by destruct (Server.launch P command args).
Qed.

(** X12. A first request that fails leaves the server in one of two
    states. When a server could not be connected, no sandbox was made and
    nothing was done to the disk, so the next request starts over. When
    all servers were connected and [initialize] threw, the sandbox stays
    in place: no later request initializes again, and [execute_code] runs
    on the sandbox as it is. *)
Theorem failed_initialization_is_kept
    (P : Server.process) (s s' : Server.server) (e : thrown) :
  Server.sandbox s = None ->
  Server.initializeSandbox P s = (Throw e, s') ->
  (Server.sandbox s' = None /\ Server.fs s' = Server.fs s)
  \/ exists sb,
       Server.sandbox s' = Some sb
       /\ initialize (Server.pf P) (Server.serversTargetPath P) sb
            (Server.fs s) = (Throw e, Server.fs s')
       /\ Server.initializeSandbox P s' = (Ok tt, s')
       /\ forall h env arguments code,
            field arguments "code" = JStr code ->
            Server.fs (snd (Server.call_tool P h env "execute_code"
                              arguments s'))
            = snd (executeCode h env sb code (Server.fs s')).
Proof.
  intros Hnone Hrun.
  unfold Server.initializeSandbox in Hrun.
  unfold mbind at 1 in Hrun. unfold prog_bind at 1 in Hrun.
  unfold get_state at 1 in Hrun. rewrite Hnone in Hrun.
  repeat (unfold mbind at 1 in Hrun; unfold prog_bind at 1 in Hrun;
          rewrite connectMCPServer_run in Hrun;
          match type of Hrun with
          | context [Server.launch P ?command ?args] =>
              destruct (Server.launch P command args) as [? | ? |]
          end; simpl in Hrun;
          [| injection Hrun as <- <-; left; by rewrite ?Hnone
           | discriminate]).
  unfold mbind, prog_bind, get_state, Server.set_sandbox,
    Server.on_fs in Hrun.
  simpl in Hrun.
  match type of Hrun with
  | context [initialize ?pf ?target ?sb ?w] =>
      destruct (initialize pf target sb w) as [[[] | e' |] w'] eqn:Hinit;
      [discriminate | | discriminate];
      injection Hrun as <- <-; right; exists sb
  end.
  split; [reflexivity |]. split; [exact Hinit |]. split; [reflexivity |].
  intros h env arguments code Hcode.
  assert (Server.destructure_code (Server.frames P) arguments
          = Ok (JStr code)) as Hdes.
  { destruct arguments; try discriminate; simpl in *; by rewrite Hcode. }
  unfold Server.call_tool, get_state, Server.on_fs, mbind,
    prog_bind, mret, prog_ret.
  simpl. rewrite Hdes. simpl.
  match goal with
  | |- context [executeCode h env ?sb code w'] =>
      destruct (executeCode_result h env sb code w')
        as (r & w'' & -> & [[out ->] | [message ->]])
  end; reflexivity.
Qed.

Lemma failed_initialization_is_kept_witness :
  let s' := snd (Server.initializeSandbox Demo.steady Demo.blocked) in
  (exists sb, Server.sandbox s' = Some sb)
  /\ Server.initializeSandbox Demo.steady s' = (Ok tt, s').
Proof.
  destruct (failed_initialization_is_kept Demo.steady Demo.blocked
              (snd (Server.initializeSandbox Demo.steady Demo.blocked))
              (fs_error "ENOTDIR" "mkdir" (tempDir Sample.sb)))
    as [[Hnone _] | (sb & Hsb & _ & Hagain & _)].
  - reflexivity.
  - vm_compute. reflexivity.
  - vm_compute in Hnone. discriminate.
  - split; [by exists sb | exact Hagain].
Defined.

(** ** Names in the generated stubs *)

Lemma upper_not_lower c :
  Generate.is_lower c = true -> Generate.is_lower (Generate.upper c) = false.
Proof.
  unfold Generate.is_lower, Generate.upper. intros H.
  apply andb_true_iff in H as [H1 H2].
  apply Nat.leb_le in H1, H2.
  rewrite nat_ascii_embedding by lia.
  apply andb_false_iff. left. apply Nat.leb_gt. lia.
Qed.

Lemma upper_not_underscore c :
  Generate.is_lower c = true ->
  Generate.is_underscore (Generate.upper c) = false.
Proof.
  unfold Generate.is_lower, Generate.upper, Generate.is_underscore. intros H.
  apply andb_true_iff in H as [H1 H2].
  apply Nat.leb_le in H1, H2.
  apply Ascii.eqb_neq. intros Heq.
  apply (f_equal nat_of_ascii) in Heq.
  rewrite nat_ascii_embedding in Heq by lia.
  change (nat_of_ascii "_") with 95%nat in Heq. lia.
Qed.

(** The first character of the result is the first character of the
    input, unless that was an underscore that went away. *)
Lemma toCamelCase_head u tail :
  exists c' out,
    Generate.toCamelCase (String u tail) = String c' out
    /\ (Generate.is_underscore u = false -> c' = u)
    /\ (Generate.is_lower c' = true -> c' = u).
Proof.
  simpl. destruct tail as [| c rest]; [by eexists _, _ |].
  destruct (Generate.is_underscore u && Generate.is_lower c) eqn:Hm.
  - apply andb_true_iff in Hm as [Hu Hc].
    eexists _, _. split; [done |]. split; [congruence |].
    by rewrite upper_not_lower.
  - by eexists _, _.
Qed.

Lemma has_match_cons u c rest :
  Generate.has_match (String u (String c rest))
  = (Generate.is_underscore u && Generate.is_lower c)
    || Generate.has_match (String c rest).
Proof. reflexivity. Qed.

Lemma toCamelCase_cons u c rest :
  Generate.toCamelCase (String u (String c rest))
  = if Generate.is_underscore u && Generate.is_lower c
    then String (Generate.upper c) (Generate.toCamelCase rest)
    else String u (Generate.toCamelCase (String c rest)).
Proof. reflexivity. Qed.

Lemma toCamelCase_normal n : forall str,
  (String.length str <= n)%nat ->
  Generate.has_match (Generate.toCamelCase str) = false.
Proof.
  induction n as [| n IH]; intros str Hlen.
  - destruct str; [done | simpl in Hlen; lia].
  - destruct str as [| u [| c rest]]; [done | done |].
    simpl in Hlen.
    rewrite toCamelCase_cons.
    destruct (Generate.is_underscore u && Generate.is_lower c) eqn:Hm.
    + apply andb_true_iff in Hm as [Hu Hc].
      pose proof (IH rest ltac:(lia)) as Hrest.
      destruct (Generate.toCamelCase rest) as [| c' out] eqn:Hout; [done |].
      rewrite has_match_cons, Hrest.
      by rewrite upper_not_underscore.
    + pose proof (IH (String c rest) ltac:(simpl; lia)) as Hrest.
      destruct (toCamelCase_head c rest) as (c' & out & Hout & Hsame & Hlow).
      rewrite Hout in Hrest |- *. rewrite has_match_cons, Hrest.
      rewrite orb_false_r.
      destruct (Generate.is_underscore u) eqn:Hu; [| done]. simpl in Hm |- *.
      destruct (Generate.is_lower c') eqn:Hc'; [| done].
      rewrite (Hlow eq_refl) in Hc'. congruence.
Qed.

Lemma toCamelCase_fixed n : forall str,
  (String.length str <= n)%nat ->
  Generate.has_match str = false -> Generate.toCamelCase str = str.
Proof.
  induction n as [| n IH]; intros str Hlen Hno.
  - destruct str; [done | simpl in Hlen; lia].
  - destruct str as [| u [| c rest]]; [done | done |].
    simpl in Hlen. rewrite has_match_cons in Hno.
    apply orb_false_iff in Hno as [Hm Hno].
    rewrite toCamelCase_cons.
    rewrite Hm. f_equal. apply IH; [simpl; lia | done].
Qed.

Lemma toCamelCase_length n : forall str,
  (String.length str <= n)%nat ->
  (String.length (Generate.toCamelCase str) <= String.length str)%nat.
Proof.
  induction n as [| n IH]; intros str Hlen.
  - destruct str; [done | simpl in Hlen; lia].
  - destruct str as [| u [| c rest]]; [done | done |].
    simpl in Hlen.
    rewrite toCamelCase_cons.
    destruct (Generate.is_underscore u && Generate.is_lower c).
    + pose proof (IH rest ltac:(lia)). simpl. lia.
    + pose proof (IH (String c rest) ltac:(simpl; lia)). simpl in *. lia.
Qed.

(** X13. [toCamelCase] brings a name into a form it leaves alone: its
    result holds no underscore followed by a lower-case letter, a name
    without such a pair comes back unchanged (so a name written with
    hyphens is not converted), applying it twice is applying it once, and
    the result is never longer than the name. *)
Theorem toCamelCase_normalizes (str : string) :
  Generate.has_match (Generate.toCamelCase str) = false
  /\ (Generate.has_match str = false -> Generate.toCamelCase str = str)
  /\ Generate.toCamelCase (Generate.toCamelCase str)
     = Generate.toCamelCase str
  /\ (String.length (Generate.toCamelCase str) <= String.length str)%nat.
Proof.
  pose proof (toCamelCase_normal _ str (le_n _)) as Hnormal.
  split; [exact Hnormal |].
  split; [by apply (toCamelCase_fixed (String.length str)) |].
  split; [| by apply (toCamelCase_length (String.length str))].
  by apply (toCamelCase_fixed (String.length (Generate.toCamelCase str))).
Qed.

Lemma toCamelCase_normalizes_witness :
  Generate.toCamelCase "read-file" = "read-file".
Proof.
  destruct (toCamelCase_normalizes "read-file") as (_ & Hfixed & _).
  apply Hfixed. reflexivity.
Defined.

(** ** The index of a server's stubs *)

Lemma prefix_cons a s1 b s2 :
  String.prefix (String a s1) (String b s2)
  = if Ascii.eqb a b then String.prefix s1 s2 else false.
Proof.
  cbn [String.prefix].
  destruct (ascii_dec a b) as [-> | Hne].
  - by rewrite Ascii.eqb_refl.
  - by apply Ascii.eqb_neq in Hne as ->.
Qed.

Lemma remove_suffix_ts name :
  Str.includes ".ts" name = false ->
  Str.remove_first ".ts" (name ++ ".ts") = name.
Proof.
  induction name as [| c name IH]; intros Hno; [reflexivity |].
  cbn [Str.includes] in Hno.
  apply orb_false_iff in Hno as [Hhere Hlater].
  change (String c name ++ ".ts") with (String c (name ++ ".ts")).
  assert (String.prefix ".ts" (String c (name ++ ".ts")) = false) as Hp.
  { rewrite prefix_cons in Hhere |- *.
    destruct (Ascii.eqb "."%char c); [| done].
    destruct name as [| t name]; [done |].
    change (String t name ++ ".ts") with (String t (name ++ ".ts")).
    rewrite prefix_cons in Hhere |- *.
    destruct (Ascii.eqb "t"%char t); [| done].
    destruct name as [| s name]; [done |].
    change (String s name ++ ".ts") with (String s (name ++ ".ts")).
    rewrite prefix_cons in Hhere |- *.
    destruct (Ascii.eqb "s"%char s); [| done].
    by destruct name. }
  cbn [Str.remove_first]. rewrite Hp. f_equal. by apply IH.
Qed.

(** X14. For tools whose names do not contain [".ts"], the index module
    re-exports the module of every tool, in the order of the listing: one
    line [export * from './<tool>.js';] for each, each ended by a line
    feed. *)
Theorem index_reexports_every_tool (toolNames : list string) :
  Forall (fun toolName => Str.includes ".ts" toolName = false)
    toolNames ->
  Generate.indexCode (Generate.toolFiles toolNames)
  = join nl (map (fun toolName => "export * from './" ++ toolName ++ ".js';")
               toolNames)
    ++ nl.
Proof.
  intros Hnames. unfold Generate.indexCode, Generate.toolFiles.
  f_equal. f_equal. rewrite map_map.
  induction Hnames as [| toolName toolNames Hname _ IH]; [done |].
  simpl. by rewrite remove_suffix_ts, IH.
Qed.

Lemma index_reexports_every_tool_witness :
  Generate.indexCode (Generate.toolFiles ["read_file"; "fetch"])
  = "export * from './read_file.js';" ++ nl
    ++ "export * from './fetch.js';" ++ nl.
Proof.
  rewrite (index_reexports_every_tool ["read_file"; "fetch"]).
  - reflexivity.
  - repeat constructor.
Defined.

(** ** The window of the [fetch] tool *)

Section Window.

Context {unit16 : Type}.
Implicit Types text : list unit16.

(** The window is the part of the text from the offset on, cut at the
    limit. *)
Lemma window_slice args text :
  Fetch.window args text
  = take (Z.to_nat (Fetch.or_number (Fetch.max_length args) 50000))
      (drop (Z.to_nat (Fetch.or_number (Fetch.start_index args) 0)) text).
Proof.
  unfold Fetch.window, Fetch.substring_from, Fetch.substring_to.
  set (start := Fetch.or_number (Fetch.start_index args) 0).
  set (limit := Fetch.or_number (Fetch.max_length args) 50000).
  assert ((if 0 <? start then drop (Z.to_nat start) text else text)
          = drop (Z.to_nat start) text) as ->.
  { destruct (Z.ltb_spec 0 start); [done |].
    by replace (Z.to_nat start) with 0%nat by lia. }
  destruct (Z.ltb_spec limit (Z.of_nat (length (drop (Z.to_nat start) text))));
    [done |].
  rewrite take_ge; [done | lia].
Qed.

Lemma take_then_take (n k : nat) : forall text,
  (take n text ++ take k (drop n text))%list = take (n + k) text.
Proof.
  induction n as [| n IH]; intros text; [done |].
  destruct text as [| c text]; [by rewrite drop_nil, !take_nil |].
  simpl. by rewrite IH.
Qed.

End Window.

(** X15. The [fetch] tool returns a window of the body: the part from
    [start_index] on, cut to [max_length] code units, where a missing or
    zero [max_length] stands for 50000 and a missing, zero or negative
    [start_index] for the start. The window is never longer than the
    limit, and the windows at consecutive offsets are consecutive parts of
    the body: two pages of [m] units put together are the page of [2 m]
    units. With [raw] set, the window is the text of the result as it
    is. *)
Theorem fetch_windows_are_pages
    {unit16 : Type} (simplify : list unit16 -> list unit16)
    (contentType : option string) (text : list unit16) :
  (forall args,
     let limit := Fetch.or_number (Fetch.max_length args) 50000 in
     let start := Fetch.or_number (Fetch.start_index args) 0 in
     Fetch.window args text
       = take (Z.to_nat limit) (drop (Z.to_nat start) text)
     /\ Z.of_nat (length (Fetch.window args text)) <= Z.max 0 limit
     /\ (Fetch.raw args = Some true ->
         Fetch.result_text simplify args contentType text
         = Fetch.window args text))
  /\ (forall i m r,
        0 <= i -> 0 < m ->
        let page k n :=
          Fetch.window {| Fetch.max_length := Some n;
                          Fetch.start_index := Some k;
                          Fetch.raw := r |} text in
        (page i m ++ page (i + m) m)%list = page i (2 * m)).
Proof.
  split.
  - intros args limit start. split; [apply window_slice |]. split.
    + rewrite window_slice. fold limit. rewrite length_take. lia.
    + intros Hraw. unfold Fetch.result_text. by rewrite Hraw.
  - intros i m r Hi Hm page. unfold page. rewrite !window_slice.
    cbn [Fetch.max_length Fetch.start_index].
    assert (forall n, 0 < n -> Fetch.or_number (Some n) 50000 = n) as Hlimit.
    { intros n Hn. unfold Fetch.or_number.
      destruct (Z.eqb_spec n 0); [lia | done]. }
    assert (forall k, Fetch.or_number (Some k) 0 = k) as Hstart.
    { intros k. unfold Fetch.or_number. by destruct (Z.eqb_spec k 0). }
    rewrite !Hlimit, !Hstart by lia.
    replace (Z.to_nat (i + m)) with (Z.to_nat i + Z.to_nat m)%nat by lia.
    replace (Z.to_nat (2 * m)) with (Z.to_nat m + Z.to_nat m)%nat by lia.
    rewrite <- drop_drop. apply take_then_take.
Qed.

Lemma fetch_windows_are_pages_witness :
  (Fetch.window {| Fetch.max_length := Some 2; Fetch.start_index := Some 0;
                   Fetch.raw := None |} [1; 2; 3; 4; 5]
   ++ Fetch.window {| Fetch.max_length := Some 2; Fetch.start_index := Some 2;
                      Fetch.raw := None |} [1; 2; 3; 4; 5])%list
  = [1; 2; 3; 4].
Proof.
  destruct (fetch_windows_are_pages (fun text => text) None [1; 2; 3; 4; 5])
    as [_ Hpages].
  assert (0 <= 0) as Hi by lia. assert (0 < 2) as Hm by lia.
  exact (Hpages 0 2 None Hi Hm).
Defined.

(** ** The executor of the agent *)

Section Commands.

Import CodeModeSandbox.




End Commands.











(** ** Listed tools and called tools *)

(** X18. Of the tools the built-in file system client lists, exactly one
    cannot be called: [edit_file]. Whatever the arguments and whatever the
    methods of the class do, a call of it throws
    ["Unknown tool: edit_file"] and leaves the world as it is, as does a
    call of any name that is not listed; no other listed tool is refused
    in that way. *)
Theorem edit_file_is_listed_but_unknown (name : string) :
  let unknown M frames args w :=
    FilesystemTools.callTool M frames name args w
    = (Throw (new_Error ("Unknown tool: " ++ name) frames), w) in
  (name ∉ FilesystemTools.listed -> forall M frames args w,
     unknown M frames args w)
  /\ (name ∈ FilesystemTools.listed ->
      (name = "edit_file" <-> forall M frames args w, unknown M frames args w)).
Proof.
  intros unknown.
  assert (forall other, String.eqb name other = false ->
          forall (A : Type) (x y : A), (if String.eqb name other then x else y) = y)
    as Hskip by (intros other ->; done).
  split.
  - intros Hnot M frames args w. unfold unknown, FilesystemTools.callTool.
    repeat (rewrite Hskip;
            [| apply String.eqb_neq; intros ->; apply Hnot;
               unfold FilesystemTools.listed;
               rewrite ?elem_of_cons; tauto]).
    reflexivity.
  - intros Hin. split.
    + intros -> M frames args w. reflexivity.
    + intros Hunknown.
      specialize (Hunknown FilesystemTools.idle "" (JObj [])
                    {| disk := ∅; ops := [] |}).
      unfold unknown in Hunknown.
      unfold FilesystemTools.listed in Hin.
      repeat (apply elem_of_cons in Hin as [-> | Hin];
              [first [reflexivity | discriminate Hunknown] |]).
      by apply elem_of_nil in Hin.
Qed.

Lemma edit_file_is_listed_but_unknown_witness :
  fst (FilesystemTools.callTool FilesystemTools.idle "" "edit_file"
         (JObj [("path", JStr "a.txt")]) {| disk := ∅; ops := [] |})
  = Throw (new_Error "Unknown tool: edit_file" "").
Proof.
  destruct (edit_file_is_listed_but_unknown "edit_file") as [_ Hlisted].
  assert ("edit_file" ∈ FilesystemTools.listed) as Hin.
  { unfold FilesystemTools.listed. rewrite !elem_of_cons. tauto. }
  destruct (Hlisted Hin) as [Hunknown _].
  by rewrite (Hunknown eq_refl).
Defined.

(** ** What the user code does, and what [executeCode] returns *)

(** X19. On an initialized workspace whose worker starts, the end of the
    user code decides whether the call succeeds. Code that runs to its
    end within the time allowed gives a success with an output and no
    error. Code that calls [process.exit] gives a success exactly when
    the exit status the parent sees is zero, and that status is the low
    byte of the code: [process.exit(256)] is a success. An uncaught throw
    (a syntax error among them) gives a failure with an error text and no
    output. *)
Theorem user_code_decides_result
    (h : host) (env : call_env) (sb : sandbox) (code : string) (w : world)
    (n : nat) (events : list proc_event) (has_send : bool) (p : user_code) :
  initialized sb (disk w) ->
  disk w !! execFile env sb <> Some Dir ->
  fork_outcome env = Spawned ->
  advance (frames h) (mcpClients sb) n true (semantics h code)
    = Some (events, has_send, p) ->
  (n < steps_within h 10000)%nat ->
  let returned := fst (executeCode h env sb code w) in
  (p = Finish ->
   exists r, returned = Ok r
             /\ success r = true /\ error r = None /\ output r <> None)
  /\ (forall c, p = ExitWith c ->
        exists r, returned = Ok r
                  /\ success r = (exit_status c =? 0)
                  /\ 0 <= exit_status c < 256
                  /\ (exit_status c = 0 ->
                      error r = None /\ output r <> None)
                  /\ (exit_status c <> 0 ->
                      output r = None /\ error r <> None))
  /\ (forall e, p = Raise e ->
        exists r, returned = Ok r
                  /\ success r = false /\ output r = None
                  /\ error r <> None).
Proof.
  intros Hinit Hfile Hspawn Hadv Hn returned.
  pose proof (fun quiet c =>
                executeCode_exit h env sb code w n events has_send p quiet c
                  Hinit Hfile Hspawn Hadv Hn) as Hexit.
  split; [| split].
  - intros ->. eexists. unfold returned.
    rewrite (Hexit [] 0); [| done | constructor].
    split; [reflexivity |]. simpl. done.
  - intros c ->. eexists. unfold returned.
    rewrite (Hexit [] (exit_status c)); [| done | constructor].
    split; [reflexivity |].
    assert (0 <= exit_status c < 256) as Hbyte
      by (unfold exit_status; apply Z.mod_pos_bound; lia).
    destruct (Z.eqb_spec (exit_status c) 0) as [Hzero | Hzero].
    + rewrite Hzero. simpl. repeat split; try done; lia.
    + rewrite exit_result_failure by congruence. simpl.
      repeat split; try done; lia.
  - intros e ->. eexists. unfold returned.
    rewrite (Hexit [StderrData (thr_inspect e ++ nl)] 1);
      [| done | by repeat constructor].
    split; [reflexivity |].
    rewrite exit_result_failure by congruence. done.
Qed.

Lemma user_code_decides_result_witness :
  exists r,
    fst (executeCode
           {| frames := ""; semantics := fun _ => ExitWith 256;
              steps_within := fun ms => Z.to_nat (ms / 10) |}
           Sample.env Sample.sb "process.exit(256)" Sample.ready)
    = Ok r
    /\ success r = true.
Proof.
  destruct (user_code_decides_result
              {| frames := ""; semantics := fun _ => ExitWith 256;
                 steps_within := fun ms => Z.to_nat (ms / 10) |}
              Sample.env Sample.sb "process.exit(256)" Sample.ready 0
              [] true (ExitWith 256))
    as (_ & Hexit & _).
  - exact sample_ready.
  - exact sample_exec_fresh.
  - reflexivity.
  - reflexivity.
  - vm_compute. lia.
  - destruct (Hexit 256 eq_refl) as (r & Hr & Hsuccess & _).
    exists r. split; [exact Hr | exact Hsuccess].
Defined.



(** X21. When the worker cannot be started, [executeCode] reports it as a
    failure and does not throw: what [fork] throws and the error event of
    a failed spawn both give [{success: false}] with the message of the
    error, and the per-call file is removed all the same: nothing is at
    its path afterwards, as after every call whose worker leaves that
    path alone. *)
Theorem failed_start_is_reported
    (h : host) (env : call_env) (sb : sandbox) (code : string) (w : world) :
  writable (disk w) (execFile env sb) ->
  let ran := executeCode h env sb code w in
  (forall e, fork_outcome env = ForkThrows e ->
     fst ran = Ok (failure (message_or_string e)))
  /\ (forall errno message, fork_outcome env = SpawnFails errno message ->
        fst ran = Ok (failure message))
  /\ (fork_outcome env <> Spawned \/ leaves env (execFile env sb) ->
      disk (snd ran) !! execFile env sb = None).
Proof.
  intros [Hdir Hfile] ran.
  destruct (executeCode_cases h env sb code w)
    as (r & added & Hexec & Hcases).
  unfold ran. rewrite Hexec. simpl.
  assert (forall e, fst (writeFile (execFile env sb) code w) <> Throw e)
    as Hwrite.
  { intros e. rewrite writeFile_run, Hdir. simpl.
    destruct (disk w !! execFile env sb) as [[]|]; done. }
  split; [| split].
  - intros e Hfork.
    destruct Hcases as [(e' & He & _) | [(e' & _ & He & ->) | (_ & Hno & _)]].
    + by destruct (Hwrite e').
    + congruence.
    + by destruct (Hno e).
  - intros errno message Hfork.
    destruct Hcases as [(e' & He & _) | [(e' & _ & He & _) | (_ & _ & Hr)]].
    + by destruct (Hwrite e').
    + congruence.
    + unfold final_runner, run_events in Hr. rewrite Hfork in Hr.
      simpl in Hr. by injection Hr as <-.
  - intros Hleft.
    assert (disk_at_settle env sb code (disk w) !! execFile env sb
            = Some (File code)) as Hlook.
    { rewrite disk_at_settle_written by done.
      destruct (fork_outcome env) eqn:Hfork;
        rewrite ?lookup_insert_eq; try done.
      destruct Hleft as [Hno | Hleaves]; [done |].
      by rewrite Hleaves, lookup_insert_eq. }
    unfold disk_after_call. rewrite Hlook. apply lookup_delete_eq.
Qed.

Lemma failed_start_is_reported_witness :
  fst (executeCode Sample.host
         {| now := 1700000000000; rand := "q7w8e9";
            fork_outcome := SpawnFails "EAGAIN" "spawn node EAGAIN";
            worker_writes := fun d => d |}
         Sample.sb "console.log('hi')" Sample.ready)
  = Ok (failure "spawn node EAGAIN").
Proof.
  destruct (failed_start_is_reported Sample.host
              {| now := 1700000000000; rand := "q7w8e9";
                 fork_outcome := SpawnFails "EAGAIN" "spawn node EAGAIN";
                 worker_writes := fun d => d |}
              Sample.sb "console.log('hi')" Sample.ready)
    as (_ & Hspawn & _).
  - split; [vm_compute; reflexivity | exact sample_exec_fresh].
  - apply (Hspawn "EAGAIN"). reflexivity.
Defined.

(** ** Names that do not collide *)

(** Apart from the per-call file, the disk after a call is the one the
    worker and the servers left. *)
Lemma executeCode_elsewhere h env sb code w q :
  q <> execFile env sb ->
  disk (snd (executeCode h env sb code w)) !! q
  = disk_at_settle env sb code (disk w) !! q.
Proof.
  intros Hq.
  destruct (executeCode_cases h env sb code w) as (r & added & -> & _).
  simpl. unfold disk_after_call.
  destruct (disk_at_settle env sb code (disk w) !! execFile env sb)
    as [[]|]; rewrite ?lookup_delete_ne; done.
Qed.

(** A path that the worker and the servers leave alone, and that is not
    the per-call file, holds at the end of the run what it held before
    the call. *)
Lemma disk_at_settle_leaves env sb code d q :
  q <> execFile env sb -> leaves env q ->
  disk_at_settle env sb code d !! q = d !! q.
Proof.
  intros Hq Hleaves. unfold disk_at_settle.
  destruct (dir_at d (dirname (execFile env sb))); [| done]. simpl.
  destruct (d !! execFile env sb) as [[]|]; try done;
    destruct (fork_outcome env);
    rewrite ?Hleaves, lookup_insert_ne; done.
Qed.

Lemma pretty_N_char_digit x : is_digit (pretty_N_char x) = true.
Proof. unfold pretty_N_char. by repeat case_match. Qed.

Lemma pretty_N_go_digits x : forall s,
  exists ds, digits ds = true /\ pretty_N_go x s = ds ++ s.
Proof.
  induction (N.lt_wf_0 x) as [x _ IH]; intros s.
  assert (x = 0 \/ 0 < x)%N as [-> | Hpos] by lia.
  - exists "". by rewrite pretty_N_go_0.
  - rewrite pretty_N_go_step by done.
    destruct (IH (x `div` 10)%N (N.div_lt x 10 Hpos eq_refl)
                (String (pretty_N_char (x `mod` 10)) s))
      as (ds & Hds & ->).
    exists (ds ++ String (pretty_N_char (x `mod` 10)) "").
    split.
    + clear -Hds. induction ds as [| c ds IHds]; simpl in *.
      * by rewrite pretty_N_char_digit.
      * apply andb_true_iff in Hds as [-> Hds]. by apply IHds.
    + by rewrite str_app_assoc.
Qed.

(** The numeral of a number that is not negative is made of digits. *)
Lemma pretty_digits (n : Z) : 0 <= n -> digits (pretty n) = true.
Proof.
  intros Hn. destruct n as [| p | p]; [done | | lia].
  unfold pretty, pretty_Z, pretty, pretty_positive, pretty, pretty_N.
  rewrite decide_False by done.
  destruct (pretty_N_go_digits (N.pos p) "") as (ds & Hds & ->).
  by rewrite str_app_nil_r.
Qed.

(** Two texts that start with digits and go on with a dash are split at
    the same place. *)
Lemma digits_dash_inj a : forall b r r',
  digits a = true -> digits b = true ->
  a ++ String "-" r = b ++ String "-" r' -> a = b /\ r = r'.
Proof.
  induction a as [| c a IH]; intros b r r' Ha Hb Heq.
  - destruct b as [| c' b].
    + change (String "-" r = String "-" r') in Heq. by injection Heq as ->.
    + change (String "-" r = String c' (b ++ String "-" r')) in Heq.
      injection Heq as <- _. simpl in Hb. done.
  - destruct b as [| c' b].
    + change (String c (a ++ String "-" r) = String "-" r') in Heq.
      injection Heq as -> _. simpl in Ha. done.
    + change (String c (a ++ String "-" r) = String c' (b ++ String "-" r'))
        in Heq.
      injection Heq as -> Heq. simpl in Ha, Hb.
      apply andb_true_iff in Ha as [_ Ha].
      apply andb_true_iff in Hb as [_ Hb].
      destruct (IH b r r' Ha Hb Heq) as [-> ->]. done.
Qed.

Lemma str_length_app (a b : string) :
  String.length (a ++ b) = (String.length a + String.length b)%nat.
Proof. induction a as [| c a IH]; simpl; [done | by rewrite IH]. Qed.

Lemma str_app_inv_tail (t : string) : forall a b, a ++ t = b ++ t -> a = b.
Proof.
  induction a as [| c a IH]; intros b Heq.
  - destruct b as [| c' b]; [done |].
    apply (f_equal String.length) in Heq.
    rewrite !str_length_app in Heq. simpl in Heq. lia.
  - destruct b as [| c' b].
    + apply (f_equal String.length) in Heq.
      rewrite !str_length_app in Heq. simpl in Heq. lia.
    + change (String c (a ++ t) = String c' (b ++ t)) in Heq.
      injection Heq as -> Heq. by rewrite (IH b Heq).
Qed.

(** The names of the per-call files of two calls are the same only when
    both the time and the random text are. *)
Lemma execFile_inj env1 env2 sb :
  0 <= now env1 -> 0 <= now env2 ->
  execFile env1 sb = execFile env2 sb ->
  now env1 = now env2 /\ rand env1 = rand env2.
Proof.
  intros H1 H2 Heq. unfold execFile in Heq.
  apply app_inv_head in Heq. injection Heq as Heq.
  change (pretty (now env1) ++ String "-" (rand env1 ++ ".ts")
          = pretty (now env2) ++ String "-" (rand env2 ++ ".ts")) in Heq.
  apply digits_dash_inj in Heq as [Hts Hrand]; [| by apply pretty_digits ..].
  split; [by apply (inj pretty) | by apply str_app_inv_tail in Hrand].
Qed.


(** X22. Two calls of [executeCode] get different per-call files unless
    they are made in the same millisecond and draw the same random text.
    [executeCode] itself does nothing to the file of such another call:
    what is at the other path after the call is what the worker and the
    servers of the call left there, and when they leave the path alone
    it is what was there before the call. *)
Theorem per_call_files_do_not_collide
    (h : host) (env1 env2 : call_env) (sb : sandbox) (code : string)
    (w : world) :
  0 <= now env1 -> 0 <= now env2 ->
  now env1 <> now env2 \/ rand env1 <> rand env2 ->
  execFile env1 sb <> execFile env2 sb
  /\ disk (snd (executeCode h env1 sb code w)) !! execFile env2 sb
     = disk_at_settle env1 sb code (disk w) !! execFile env2 sb
  /\ (leaves env1 (execFile env2 sb) ->
      disk (snd (executeCode h env1 sb code w)) !! execFile env2 sb
      = disk w !! execFile env2 sb).
Proof.
  intros H1 H2 Hdiff.
  assert (execFile env1 sb <> execFile env2 sb) as Hne.
  { intros Heq. destruct (execFile_inj env1 env2 sb H1 H2 Heq) as [? ?].
    by destruct Hdiff. }
  split; [exact Hne |].
  split.
  - by apply executeCode_elsewhere.
  - intros Hleaves. rewrite executeCode_elsewhere by done.
    by apply disk_at_settle_leaves.
Qed.

Lemma per_call_files_do_not_collide_witness :
  execFile Sample.env Sample.sb
  <> execFile {| now := 1700000000000; rand := "zzzzzz";
                 fork_outcome := Spawned;
                 worker_writes := fun d => d |} Sample.sb.
Proof.
  destruct (per_call_files_do_not_collide Sample.host Sample.env
              {| now := 1700000000000; rand := "zzzzzz";
                 fork_outcome := Spawned;
                 worker_writes := fun d => d |}
              Sample.sb "console.log('hi')" Sample.ready) as [Hne _].
  - vm_compute. discriminate.
  - vm_compute. discriminate.
  - right. discriminate.
  - exact Hne.
Defined.


